(** * XeTile workgroup-to-subgroup decomposition (WgToSg.cpp)

    A shallow embedding of the rewrite rules of
    [lib/Dialect/XeTile/Transforms/WgToSg.cpp] and of the transpose analysis
    that fills the layout annotation store ([sgLayoutMap]).

    Conventions of the embedding.
    - A rule's [matchAndRewrite] returns an [Outcome]: [Success] with the
      values handed to [replaceOp]/[replaceOpWithMultiple] (or the ops it
      created), [Failure] for [mlir::failure()], [Undefined] where the C++
      dereferences a null handle, indexes out of range, divides by zero,
      overflows an [int] loop counter or trips an [assert] (a failed
      [mlir::cast] included), and [OutOfFuel] where a loop of the model ran
      out of its step budget.
    - C++ [int]/[int64_t] quantities are [Z]; [/] on them is [Z.quot]; a
      product of two [int32_t] attribute entries is [mul_int], which wraps
      around as the compiled code does.
    - Index arithmetic that a rule emits is kept as an [IndexValue] term and
      given its meaning by [eval], with the 64-bit wrap-around written out.
    - [llvm::DenseMap<mlir::Value, std::array<int, 2>>] is a [gmap]. *)

From Stdlib Require Import ZArith List Lia Bool.
From stdpp Require Import base decidable countable gmap list.

(** ** Outcomes of a rule *)

Inductive Outcome (A : Type) : Type :=
| Success (a : A)
| Failure
| Undefined
| OutOfFuel.
Arguments Success {A} a.
Arguments Failure {A}.
Arguments Undefined {A}.
Arguments OutOfFuel {A}.

#[export] Instance Outcome_ret : MRet Outcome := fun _ a => Success a.
#[export] Instance Outcome_bind : MBind Outcome := fun _ _ f m =>
  match m with
  | Success a => f a
  | Failure => Failure
  | Undefined => Undefined
  | OutOfFuel => OutOfFuel
  end.

(** [h.get...()] on a possibly-null handle. *)
Definition deref {A} (h : option A) : Outcome A :=
  match h with Some a => Success a | None => Undefined end.

(** [a[i]] on an [ArrayRef]/[SmallVector]. *)
Definition at_index {A} (a : list A) (i : nat) : Outcome A := deref (a !! i).

(** ** Types, attributes and values *)

Inductive ElemType := F16 | BF16 | F32 | F64 | I1 | I8 | I16 | I32 | I64 | IndexTy.

(** [#xetile.wg_map<sg_layout = [a, b], sg_data = [c, d]>]; both arrays have
    exactly two entries. *)
Record WorkGroupMapAttr := mkWgMap { sgLayout : Z * Z; sgData : Z * Z }.

Record TileType := mkTileType {
  tShape : list Z;
  tElem : ElemType;
  tOrder : Z * Z;
  tWgMap : option WorkGroupMapAttr;
  tScatter : bool;
  tMemorySpace : option Z }.

(** [TileType::get(shape, elemTy)]: no attribute, so the default order. *)
Definition TileType_get (shape : list Z) (e : ElemType) : TileType :=
  mkTileType shape e (1, 0)%Z None false None.

Record VectorType := mkVectorType { vShape : list Z; vElem : ElemType }.

Inductive MType :=
| TVector (v : VectorType)
| TTile (t : TileType)
| TOther.

Definition dyn_cast_VectorType (t : MType) : option VectorType :=
  match t with TVector v => Some v | _ => None end.

(** An SSA value of the program under rewrite. *)
Inductive Value :=
| OpResult (owner : nat) (idx : nat)
| BlockArgument (parent : nat) (argNumber : nat).

#[export] Instance Value_eq_dec : EqDecision Value.
Proof. solve_decision. Defined.

Definition Value_encode (v : Value) : nat * nat + nat * nat :=
  match v with OpResult o i => inl (o, i) | BlockArgument p n => inr (p, n) end.
Definition Value_decode (s : nat * nat + nat * nat) : Value :=
  match s with inl (o, i) => OpResult o i | inr (p, n) => BlockArgument p n end.

#[export] Instance Value_countable : Countable Value.
Proof.
  refine (inj_countable' Value_encode Value_decode _).
  intros []; reflexivity.
Defined.

(** A value together with its type, as the adaptors hand them over. *)
Record TypedValue := mkTyped { tvValue : Value; tvType : MType }.

(** ** Index arithmetic emitted by the rules *)

Inductive IndexValue :=
| IVOrig (v : Value)
| IVSubgroupId
| IVConst (z : Z)
| IVAdd (a b : IndexValue)
| IVMul (a b : IndexValue)
| IVDivU (a b : IndexValue)
| IVRemU (a b : IndexValue).

(** What a folder may answer: an existing value, or a constant attribute
    that [createOrFold] materialises. *)
Inductive OpFoldResult :=
| FoldValue (v : IndexValue)
| FoldAttr (z : Z).

Definition Folder := IndexValue -> option OpFoldResult.

Definition createOrFold (folder : Folder) (e : IndexValue) : IndexValue :=
  match folder e with
  | None => e
  | Some (FoldValue v) => v
  | Some (FoldAttr z) => IVConst z
  end.

Record Env := mkEnv { envSubgroupId : Z; envValue : Value -> Z }.

Definition index_bitwidth : Z := 64.
Definition wrap (z : Z) : Z := (z mod 2 ^ index_bitwidth)%Z.

Fixpoint eval (env : Env) (e : IndexValue) : Z :=
  match e with
  | IVOrig v => wrap (envValue env v)
  | IVSubgroupId => wrap (envSubgroupId env)
  | IVConst z => wrap z
  | IVAdd a b => wrap (eval env a + eval env b)
  | IVMul a b => wrap (eval env a * eval env b)
  | IVDivU a b => (eval env a / eval env b)%Z
  | IVRemU a b => (eval env a mod eval env b)%Z
  end.

(** Narrowing of an [int64_t] to [int]. *)
Definition to_int (z : Z) : Z := ((z + 2 ^ 31) mod 2 ^ 32 - 2 ^ 31)%Z.

(** The product of two [int32_t] entries of a [DenseI32ArrayAttr], taken in
    [int]: on overflow the compiled code wraps around. *)
Definition mul_int (a b : Z) : Z := to_int (a * b).

(** [ShapedType::kDynamic]. *)
Definition kDynamic : Z := (- 2 ^ 63)%Z.

(** The layout annotation store. *)
Abbreviation LayoutMap := (gmap Value (Z * Z)).

(** ** WGToSGInitTileOpPattern *)

Module WGToSGInitTileOpPattern.
Local Open Scope Z_scope.

Inductive SourceType := MemRefStatic | MemRefDynamic | NotMemRef.

Record InitTileOp := mkInitTileOp {
  getResult : Value;
  getType : TileType;
  getSource : Value;
  getSourceType : SourceType;
  getStaticOffsets : list Z;
  getOffsets : list Value }.

Record OneToNOpAdaptor := mkAdaptor { getIndices : list TypedValue }.

(** A created [xetile.init_tile]. *)
Inductive NewInitTileOp :=
| InitTile (ty : TileType) (source : Value) (offsets : list IndexValue)
           (withSizesAndStrides : bool)
| InitTileScatter (ty : TileType) (source : Value) (indices : Value).

Section Rule.
Variable folder : Folder.
Variable sgLayoutMap : LayoutMap.

(** [sgIdX] and [sgIdY] of the rule: the linear id split by [sgLayout[0]]
    when the result is in the store, by [sgLayout[1]] otherwise. *)
Definition sgIdY (op : InitTileOp) (sgLayout : Z * Z) : IndexValue :=
  if decide (is_Some (sgLayoutMap !! getResult op))
  then IVDivU IVSubgroupId (IVConst sgLayout.1)
  else IVDivU IVSubgroupId (IVConst sgLayout.2).

Definition sgIdX (op : InitTileOp) (sgLayout : Z * Z) : IndexValue :=
  if decide (is_Some (sgLayoutMap !! getResult op))
  then IVRemU IVSubgroupId (IVConst sgLayout.1)
  else IVRemU IVSubgroupId (IVConst sgLayout.2).

(** The subgroup id handed to [calculateGlobalOffsets] for the rows
    ([globalOffsetsX]) and for the columns ([globalOffsetsY]). *)
Definition rowId (op : InitTileOp) (sgLayout : Z * Z) : IndexValue :=
  if decide (is_Some (sgLayoutMap !! getResult op))
  then sgIdX op sgLayout else sgIdY op sgLayout.

Definition colId (op : InitTileOp) (sgLayout : Z * Z) : IndexValue :=
  if decide (is_Some (sgLayoutMap !! getResult op))
  then sgIdY op sgLayout else sgIdX op sgLayout.

(** The loop that mixes static and dynamic offsets. *)
Fixpoint mixedOffsets (staticOffsets : list Z) (dynamicOffsets : list Value)
  : Outcome (list IndexValue) :=
  match staticOffsets with
  | [] => Success []
  | s :: rest =>
      if decide (s = kDynamic) then
        match dynamicOffsets with
        | [] => Undefined
        | d :: dyn' => r ← mixedOffsets rest dyn'; Success (IVOrig d :: r)
        end
      else r ← mixedOffsets rest dynamicOffsets; Success (IVConst s :: r)
  end.

(** The body of [calculateGlobalOffsets], from loop counter [i] on. *)
Fixpoint calculateGlobalOffsets_from (fuel : nat) (i : Z)
    (wgTileShape sgTileShape sgLayout : Z)
    (sgDataDimConst sgId offset : IndexValue) : Outcome (list IndexValue) :=
  if decide (sgTileShape = 0) then Undefined
  else if decide (i < wgTileShape ÷ sgTileShape) then
    match fuel with
    | O => OutOfFuel
    | S fuel' =>
        let constI := IVConst i in
        let off := createOrFold folder (IVAdd constI sgId) in
        let mod_ := createOrFold folder
                      (IVRemU off (IVConst (wgTileShape ÷ sgTileShape))) in
        let localOffset := createOrFold folder (IVMul mod_ sgDataDimConst) in
        let globalOffset := createOrFold folder (IVAdd offset localOffset) in
        (* [i += sgLayout] on an [int]: overflow is undefined *)
        if decide (- 2 ^ 31 <= i + sgLayout < 2 ^ 31) then
          rest ← calculateGlobalOffsets_from fuel' (i + sgLayout)
                   wgTileShape sgTileShape sgLayout sgDataDimConst sgId offset;
          Success (globalOffset :: rest)
        else Undefined
    end
  else Success [].

Definition calculateGlobalOffsets (fuel : nat)
    (wgTileShape sgTileShape sgLayout : Z)
    (sgDataDimConst sgId offset : IndexValue) : Outcome (list IndexValue) :=
  calculateGlobalOffsets_from fuel 0 (to_int wgTileShape) sgTileShape sgLayout
    sgDataDimConst sgId offset.

(** [offsetPermutations]: rows outside, columns inside. *)
Definition offsetPermutations (globalOffsetsX globalOffsetsY : list IndexValue)
  : list (IndexValue * IndexValue) :=
  y ← globalOffsetsX; x ← globalOffsetsY; [(y, x)].

(** The loop that creates the ops; [newOffsets] is cleared after each. *)
Fixpoint createInitTiles (op : InitTileOp) (newTileTy : TileType)
    (newOffsets : list IndexValue) (perms : list (IndexValue * IndexValue))
  : Outcome (list NewInitTileOp) :=
  match perms with
  | [] => Success []
  | (y, x) :: rest =>
      let newOffsets' := newOffsets ++ [y; x] in
      match getSourceType op with
      | NotMemRef => Failure
      | MemRefStatic =>
          r ← createInitTiles op newTileTy [] rest;
          Success (InitTile newTileTy (getSource op) newOffsets' false :: r)
      | MemRefDynamic =>
          r ← createInitTiles op newTileTy [] rest;
          Success (InitTile newTileTy (getSource op) newOffsets' true :: r)
      end
  end.

Definition matchAndRewrite (fuel : nat) (op : InitTileOp)
    (adaptor : OneToNOpAdaptor) : Outcome (list NewInitTileOp) :=
  let tileTy := getType op in
  let order := tOrder tileTy in
  if decide (order.1 = 0 /\ order.2 = 1) then Failure else
  let elemTy := tElem tileTy in
  let wgTileShape := tShape tileTy in
  wgMap ← deref (tWgMap tileTy);
  let sgTileShape := sgData wgMap in
  let sgLayout := sgLayout wgMap in
  let newTileTy := TileType_get [sgTileShape.1; sgTileShape.2] elemTy in
  if tScatter tileTy then
    let newTileTy := mkTileType [sgTileShape.1; sgTileShape.2] elemTy (1, 0)
                       None (tScatter tileTy) (tMemorySpace tileTy) in
    idx ← at_index (getIndices adaptor) 0;
    (* [mlir::cast<TypedValue<MemRefType>>(op.getSource())] and
       [mlir::cast<TypedValue<VectorType>>(adaptor.getIndices()[0])] *)
    match getSourceType op, dyn_cast_VectorType (tvType idx) with
    | NotMemRef, _ => Undefined
    | _, None => Undefined
    | _, Some _ =>
        Success [InitTileScatter newTileTy (getSource op) (tvValue idx)]
    end
  else
  let sgDataDimXConst := IVConst sgTileShape.1 in
  let sgDataDimYConst := IVConst sgTileShape.2 in
  offsets ← mixedOffsets (getStaticOffsets op) (getOffsets op);
  (* [offsets.size() - 2] wraps around when there are fewer than two *)
  if decide (length offsets < 2)%nat then Undefined else
  (* the [assert] on the stored tag *)
  tag_ok ← match sgLayoutMap !! getResult op with
           | Some tag => if decide (tag = (0, 1)) then Success tt else Undefined
           | None => Success tt
           end;
  wg0 ← at_index wgTileShape 0;
  offX ← at_index offsets (length offsets - 2);
  globalOffsetsX ← calculateGlobalOffsets fuel wg0 sgTileShape.1 sgLayout.1
                      sgDataDimXConst (rowId op sgLayout) offX;
  wg1 ← at_index wgTileShape 1;
  offY ← at_index offsets (length offsets - 1);
  globalOffsetsY ← calculateGlobalOffsets fuel wg1 sgTileShape.2 sgLayout.2
                      sgDataDimYConst (colId op sgLayout) offY;
  createInitTiles op newTileTy (take (length offsets - 2) offsets)
    (offsetPermutations globalOffsetsX globalOffsetsY).

End Rule.
End WGToSGInitTileOpPattern.

(** ** The transpose analysis: [getPreLoopValue], [findOps],
    [analyzeTransposeOps] *)

Module Analysis.

Inductive OpName :=
| xetile_init_tile
| xetile_load_tile
| vector_transpose
| scf_for
| other_op.

#[export] Instance OpName_eq_dec : EqDecision OpName.
Proof. solve_decision. Defined.

(** An operation of the walked program; its id is its position in the
    program, [OpResult id k] are its results and, for [scf.for],
    [BlockArgument id k] the arguments of its body. *)
Record Operation := mkOp { opName : OpName; getOperands : list Value }.

Abbreviation IR := (list Operation).

(** [scf.for] takes lower bound, upper bound, step, then the init args; its
    body has the induction variable and one argument per init arg. *)
Definition getInitArgs (forOp : Operation) : list Value :=
  drop 3 (getOperands forOp).

Definition numRegionArguments (forOp : Operation) : nat :=
  S (length (getInitArgs forOp)).

Definition getDefiningOp (ir : IR) (v : Value) : option (nat * Operation) :=
  match v with
  | OpResult owner _ => op ← ir !! owner; Some (owner, op)
  | BlockArgument _ _ => None
  end.

Fixpoint getPreLoopValue (fuel : nat) (ir : IR) (val : Value) : Outcome Value :=
  match val with
  | OpResult _ _ => Success val
  | BlockArgument parent argIndex =>
      parentOp ← deref (ir !! parent);
      if decide (opName parentOp = scf_for) then
        let numIterArgs := length (getInitArgs parentOp) in
        let firstIterArgIdx := (numRegionArguments parentOp - numIterArgs)%nat in
        if decide (firstIterArgIdx ≤ argIndex)%nat then
          match fuel with
          | O => OutOfFuel
          | S fuel' =>
              v ← at_index (getInitArgs parentOp) (argIndex - firstIterArgIdx);
              getPreLoopValue fuel' ir v
          end
        else Success val
      else Success val
  end.

(** [findOps<OpType>]: the worklist is kept with its back at the head. *)
Fixpoint findOps_loop (fuel : nat) (ir : IR) (OpType : OpName)
    (worklist : list Value) (visited : gset Value) (matchedOps : list nat)
  : Outcome (list nat) :=
  match worklist with
  | [] => Success matchedOps
  | current :: worklist' =>
      match fuel with
      | O => OutOfFuel
      | S fuel' =>
          if decide (current ∈ visited) then
            findOps_loop fuel' ir OpType worklist' visited matchedOps
          else
            let visited' := {[current]} ∪ visited in
            current' ← match current with
                       | BlockArgument _ _ => getPreLoopValue fuel ir current
                       | OpResult _ _ => Success current
                       end;
            match getDefiningOp ir current' with
            | Some (id, defOp) =>
                let matchedOps' :=
                  if decide (opName defOp = OpType)
                  then matchedOps ++ [id] else matchedOps in
                findOps_loop fuel' ir OpType
                  (rev (getOperands defOp) ++ worklist') visited' matchedOps'
            | None =>
                findOps_loop fuel' ir OpType worklist' visited' matchedOps
            end
      end
  end.

Definition findOps (fuel : nat) (ir : IR) (OpType : OpName) (val : Value)
  : Outcome (list nat) :=
  findOps_loop fuel ir OpType [val] ∅ [].

(** The body of the loop over [initOps]. *)
Definition markInitOp (sgLayoutMap : LayoutMap) (initOp : nat) : LayoutMap :=
  if decide (is_Some (sgLayoutMap !! OpResult initOp 0))
  then delete (OpResult initOp 0) sgLayoutMap
  else <[OpResult initOp 0 := (0, 1)%Z]> sgLayoutMap.

Definition markInitOps (sgLayoutMap : LayoutMap) (initOps : list nat)
  : LayoutMap :=
  foldl markInitOp sgLayoutMap initOps.

(** The loop over [loadOps] of one transpose. *)
Fixpoint forLoadOps (fuel : nat) (ir : IR) (transposeId : nat)
    (loadOps : list nat) (sgLayoutMap : LayoutMap) : Outcome LayoutMap :=
  match loadOps with
  | [] => Success sgLayoutMap
  | ld :: rest =>
      loadOp ← at_index ir ld;
      loadSource ← at_index (getOperands loadOp) 0;
      initOps ← findOps fuel ir xetile_init_tile loadSource;
      match initOps with
      | [] => forLoadOps fuel ir transposeId rest sgLayoutMap
      | _ :: _ =>
          forLoadOps fuel ir transposeId rest
            (markInitOps (<[OpResult transposeId 0 := (0, 1)%Z]> sgLayoutMap)
               initOps)
      end
  end.

(** The callback of the walk, for the transpose at position [transposeId]. *)
Definition analyzeTransposeOp (fuel : nat) (ir : IR) (transposeId : nat)
    (transposeOp : Operation) (sgLayoutMap : LayoutMap) : Outcome LayoutMap :=
  transposeInput ← at_index (getOperands transposeOp) 0;
  loadOps ← findOps fuel ir xetile_load_tile transposeInput;
  match loadOps with
  | [] => Success sgLayoutMap
  | _ :: _ => forLoadOps fuel ir transposeId loadOps sgLayoutMap
  end.

Fixpoint walk (fuel : nat) (ir : IR) (ops : list (nat * Operation))
    (sgLayoutMap : LayoutMap) : Outcome LayoutMap :=
  match ops with
  | [] => Success sgLayoutMap
  | (id, op) :: rest =>
      if decide (opName op = vector_transpose) then
        m ← analyzeTransposeOp fuel ir id op sgLayoutMap;
        walk fuel ir rest m
      else walk fuel ir rest sgLayoutMap
  end.

Definition analyzeTransposeOps (fuel : nat) (ir : IR) (sgLayoutMap : LayoutMap)
  : Outcome LayoutMap :=
  walk fuel ir (zip (seq 0 (length ir)) ir) sgLayoutMap.

End Analysis.

(** ** WGToSGTileMMAOpPattern *)

Module WGToSGTileMMAOpPattern.

Record TileMMAOp := mkTileMMAOp {
  getResultType : VectorType;
  hasC : bool }.

Record OneToNOpAdaptor := mkAdaptor {
  getA : list TypedValue;
  getB : list TypedValue;
  getC : list TypedValue }.

(** A created [xetile.tile_mma]. *)
Record NewTileMMAOp := mkNewTileMMAOp {
  newResultType : VectorType;
  newA : TypedValue;
  newB : TypedValue;
  newC : option TypedValue }.

(** The loop over [adaptor.getB()] for one [a]; [i] is the running index
    into [adaptor.getC()]. *)
Fixpoint forB (op : TileMMAOp) (adaptor : OneToNOpAdaptor) (a : TypedValue)
    (bs : list TypedValue) (i : nat) : Outcome (list NewTileMMAOp * nat) :=
  match bs with
  | [] => Success ([], i)
  | b :: bs' =>
      '(tmpC, i') ← (if hasC op
                     then c ← at_index (getC adaptor) i; Success (Some c, S i)
                     else Success (None, i));
      aTy ← deref (dyn_cast_VectorType (tvType a));
      bTy ← deref (dyn_cast_VectorType (tvType b));
      a0 ← at_index (vShape aTy) 0;
      b1 ← at_index (vShape bTy) 1;
      let resTy := mkVectorType [a0; b1] (vElem (getResultType op)) in
      '(rest, i'') ← forB op adaptor a bs' i';
      Success (mkNewTileMMAOp resTy a b tmpC :: rest, i'')
  end.

Fixpoint forA (op : TileMMAOp) (adaptor : OneToNOpAdaptor)
    (as_ : list TypedValue) (i : nat) : Outcome (list NewTileMMAOp) :=
  match as_ with
  | [] => Success []
  | a :: as' =>
      '(row, i') ← forB op adaptor a (getB adaptor) i;
      rest ← forA op adaptor as' i';
      Success (row ++ rest)
  end.

Definition matchAndRewrite (op : TileMMAOp) (adaptor : OneToNOpAdaptor)
  : Outcome (list NewTileMMAOp) :=
  if decide (length (vShape (getResultType op)) ≠ 2%nat) then Failure
  else forA op adaptor (getA adaptor) 0.

End WGToSGTileMMAOpPattern.

(** ** WGToSGSCFForOpPattern *)

Module WGToSGSCFForOpPattern.

Record ForOp := mkForOp { getBodyArgumentTypes : list MType }.

Record OneToNOpAdaptor := mkAdaptor { getInitArgs : list (list TypedValue) }.

(** The new [scf.for] with the id [newId]: its flat init args, the converted
    signature of the body and its results. *)
Record NewForOp := mkNewForOp {
  newId : nat;
  newInitArgs : list TypedValue;
  newBodyArgumentTypes : list MType }.

Definition getResults (f : NewForOp) : list Value :=
  OpResult (newId f) <$> seq 0 (length (newInitArgs f)).

(** [ValueRange::slice(offset, size)]. *)
Definition slice {A} (l : list A) (offset size : nat) : Outcome (list A) :=
  if decide (offset + size ≤ length l)%nat
  then Success (take size (drop offset l)) else Undefined.

(** The first loop: sizes and flattened init args. *)
Definition remappedArgSizes (remappedInitArgs : list (list TypedValue))
  : list nat := length <$> remappedInitArgs.

Definition flattenedRemappedInitArgs
    (remappedInitArgs : list (list TypedValue)) : list TypedValue :=
  concat remappedInitArgs.

(** The signature conversion: input 0 keeps its type, input [i] gets the
    types of [remappedInitArgs[i - 1]]. *)
Fixpoint addInputs_from (remappedInitArgs : list (list TypedValue))
    (i : nat) (count : nat) : Outcome (list (list MType)) :=
  match count with
  | O => Success []
  | S count' =>
      initArg ← at_index remappedInitArgs (i - 1);
      rest ← addInputs_from remappedInitArgs (S i) count';
      Success (map tvType initArg :: rest)
  end.

Definition signatureConversion (oldBodyArgTypes : list MType)
    (remappedInitArgs : list (list TypedValue)) : Outcome (list (list MType)) :=
  t0 ← at_index oldBodyArgTypes 0;
  rest ← addInputs_from remappedInitArgs 1 (length oldBodyArgTypes - 1);
  Success ([t0] :: rest).

(** The last loop: the results of the new loop cut into groups. *)
Fixpoint remapResults (results : list Value) (sizes : list nat)
    (newResultOffset : nat) : Outcome (list (list Value)) :=
  match sizes with
  | [] => Success []
  | remappedResultSize :: sizes' =>
      remappedResultValues ← slice results newResultOffset remappedResultSize;
      rest ← remapResults results sizes' (newResultOffset + remappedResultSize);
      Success (remappedResultValues :: rest)
  end.

Definition matchAndRewrite (freshId : nat) (op : ForOp)
    (adaptor : OneToNOpAdaptor)
  : Outcome (NewForOp * list (list Value)) :=
  let sizes := remappedArgSizes (getInitArgs adaptor) in
  let flat := flattenedRemappedInitArgs (getInitArgs adaptor) in
  sig ← signatureConversion (getBodyArgumentTypes op) (getInitArgs adaptor);
  let newForOp := mkNewForOp freshId flat (concat sig) in
  remappedResults ← remapResults (getResults newForOp) sizes 0;
  Success (newForOp, remappedResults).

End WGToSGSCFForOpPattern.

(** ** WGToSGXeTileConvertLayout *)

Module WGToSGXeTileConvertLayout.
Local Open Scope Z_scope.

(** [Type::getIntOrFloatBitWidth()]; it asserts on [index]. *)
Definition getIntOrFloatBitWidth (e : ElemType) : option Z :=
  match e with
  | F16 | BF16 | I16 => Some 16
  | F32 | I32 => Some 32
  | F64 | I64 => Some 64
  | I1 => Some 1
  | I8 => Some 8
  | IndexTy => None
  end.

(** [ShapedType::getNumElements()]. *)
Definition getNumElements (shape : list Z) : Z := foldr Z.mul 1 shape.

(** The ops the rule creates, in the order it creates them. *)
Inductive EmittedOp :=
| memref_AllocOp (sizeInBytes : Z)
| memref_ViewOp (shape : list Z) (e : ElemType)
| memref_TransposeOp
| arith_ConstantIndexOp (z : Z)
| gpu_SubgroupIdOp
| gpu_BarrierOp
| index_DivUOp (a b : IndexValue)
| index_RemUOp (a b : IndexValue)
| index_MulOp (a b : IndexValue)
| xetile_InitTileOp (ty : TileType) (onTransposedView : bool)
                    (offsetX offsetY : IndexValue)
| xetile_StoreTileOp (data : Value) (tileTy : TileType)
| xetile_LoadTileOp (resTy : VectorType) (tileTy : TileType).

(** The rewriter: the ops created so far, oldest first. *)
Definition Rewriter (A : Type) : Type := list EmittedOp -> A * list EmittedOp.

#[export] Instance Rewriter_ret : MRet Rewriter := fun _ a log => (a, log).
#[export] Instance Rewriter_bind : MBind Rewriter := fun _ _ k m log =>
  let '(a, log') := m log in k a log'.

Definition ret {A} (a : A) : Rewriter A := mret a.
Definition create (op : EmittedOp) : Rewriter unit :=
  fun log => (tt, log ++ [op]).

Definition createIndexConstant (value : Z) : Rewriter IndexValue :=
  create (arith_ConstantIndexOp value);; ret (IVConst value).

(** [rewriter.createOrFold<Op>]: the op is created unless the folder
    answers; a folded attribute is materialised as a constant. *)
Definition createOrFoldOp (folder : Folder) (op : EmittedOp) (e : IndexValue)
  : Rewriter IndexValue :=
  match folder e with
  | None => create op;; ret e
  | Some (FoldValue v) => ret v
  | Some (FoldAttr z) => create (arith_ConstantIndexOp z);; ret (IVConst z)
  end.

Record OpInfo := mkOpInfo {
  isLoadTileOp : bool;
  loadSourceWgMap : option WorkGroupMapAttr;
  mapAttr : option WorkGroupMapAttr }.

(** The op defining the source of the conversion. *)
Record DefOp := mkDefOp {
  defInfo : OpInfo;
  isTransposeOp : bool;
  hasOneUse : bool;
  operand0Def : option OpInfo;
  remappedOperand0 : Value }.

Record ConvertLayoutOp := mkConvertLayoutOp {
  getSourceRank : nat;
  getResultType : VectorType;
  getDefiningOp : option DefOp;
  wg_map_source : option WorkGroupMapAttr;
  wg_map_result : option WorkGroupMapAttr }.

Record OpAdaptor := mkAdaptor { getSource : Value }.

Record Rewrite := mkRewrite {
  emitted : list EmittedOp;
  erasesDefOp : bool }.

Definition getWorkGroupMapAttr (defOp : option OpInfo)
  : Outcome (option WorkGroupMapAttr) :=
  d ← deref defOp;
  if isLoadTileOp d then Success (loadSourceWgMap d) else Success (mapAttr d).

Definition isOneUseTranspose (op : option DefOp) : Outcome bool :=
  d ← deref op; Success (isTransposeOp d && hasOneUse d).

Section Rule.
Variable folder : Folder.

Definition getOffsets (sgLayout sgData : Z * Z)
  : Rewriter (IndexValue * IndexValue) :=
  dimY ← createIndexConstant sgLayout.2;
  sgIdX ← (create (index_DivUOp IVSubgroupId dimY);;
               ret (IVDivU IVSubgroupId dimY));
  sgIdY ← (create (index_RemUOp IVSubgroupId dimY);;
               ret (IVRemU IVSubgroupId dimY));
  cX ← createIndexConstant sgData.1;
  offsetX ← createOrFoldOp folder (index_MulOp sgIdX cX) (IVMul sgIdX cX);
  cY ← createIndexConstant sgData.2;
  offsetY ← createOrFoldOp folder (index_MulOp sgIdY cY) (IVMul sgIdY cY);
  ret (offsetX, offsetY).

(** Everything after [rewriter.setInsertionPoint(op)]. *)
Definition emit (op : ConvertLayoutOp) (adaptor : OpAdaptor)
    (oneUseTranspose : bool) (defOp : DefOp)
    (srcMapAttr dstMapAttr : WorkGroupMapAttr)
    (flattenFactor resShape0 resShape1 : Z) : Rewriter unit :=
  let resType := getResultType op in
  let elemTy := vElem resType in
  let slmSize := getNumElements (vShape resType) * flattenFactor in
  create (memref_AllocOp slmSize);;
  c0 ← createIndexConstant 0;
  create (memref_ViewOp (vShape resType) elemTy);;
  create gpu_SubgroupIdOp;;
  (* store to slm *)
  ('(offsetX, offsetY) ← getOffsets (sgLayout srcMapAttr) (sgData srcMapAttr);
   let data := if oneUseTranspose then remappedOperand0 defOp
               else getSource adaptor in
   let order := if oneUseTranspose then (0, 1) else (1, 0) in
   (if oneUseTranspose then create memref_TransposeOp else ret tt);;
   let tileTy := mkTileType [(sgData srcMapAttr).1; (sgData srcMapAttr).2]
                   elemTy order None false (Some 3) in
   create (xetile_InitTileOp tileTy oneUseTranspose offsetX offsetY);;
   create (xetile_StoreTileOp data tileTy));;
  create gpu_BarrierOp;;
  (* load from slm *)
  '(offsetX, offsetY) ← getOffsets (sgLayout dstMapAttr) (sgData dstMapAttr);
  r0 ← createIndexConstant resShape0;
  offsetX ← createOrFoldOp folder (index_RemUOp offsetX r0) (IVRemU offsetX r0);
  r1 ← createIndexConstant resShape1;
  offsetY ← createOrFoldOp folder (index_RemUOp offsetY r1) (IVRemU offsetY r1);
  let tileTy := mkTileType [(sgData dstMapAttr).1; (sgData dstMapAttr).2]
                  elemTy (1, 0) None false (Some 3) in
  let newResTy := mkVectorType [(sgData dstMapAttr).1; (sgData dstMapAttr).2]
                    elemTy in
  create (xetile_InitTileOp tileTy false offsetX offsetY);;
  create (xetile_LoadTileOp newResTy tileTy).

Definition matchAndRewrite (op : ConvertLayoutOp) (adaptor : OpAdaptor)
  : Outcome Rewrite :=
  if decide (getSourceRank op ≠ 2%nat) then Failure else
  let defOp := getDefiningOp op in
  let resType := getResultType op in
  oneUse ← isOneUseTranspose defOp;
  d ← deref defOp;
  srcMapAttr ← (if oneUse then getWorkGroupMapAttr (operand0Def d)
                else match wg_map_source op with
                     | Some a => Success (Some a)
                     | None => getWorkGroupMapAttr (Some (defInfo d))
                     end);
  let dstMapAttr := wg_map_result op in
  match srcMapAttr, dstMapAttr with
  | Some src, Some dst =>
      bitWidth ← deref (getIntOrFloatBitWidth (vElem resType));
      let flattenFactor := bitWidth ÷ 8 in
      r0 ← at_index (vShape resType) 0;
      r1 ← at_index (vShape resType) 1;
      Success (mkRewrite
                 (emit op adaptor oneUse d src dst flattenFactor r0 r1 []).2
                 oneUse)
  | _, _ => Failure
  end.

End Rule.
End WGToSGXeTileConvertLayout.

(** ** WGToSGElementWiseOpSameArgAndResultTypePattern *)

Module WGToSGElementWiseOpSameArgAndResultTypePattern.
Local Open Scope Z_scope.

Record ElementWiseOp := mkElementWiseOp {
  getResultType : MType;
  getMapAttr : option WorkGroupMapAttr }.

Record OneToNOpAdaptor := mkAdaptor { getOperands : list (list TypedValue) }.

(** A created op: its operands and the type set on its result. *)
Record NewOp := mkNewOp {
  newOperands : list TypedValue;
  newResultType : VectorType }.

(** [size_t numOps = ...]: the conversion of a signed value. *)
Definition to_size_t (z : Z) : nat := Z.to_nat (z mod 2 ^ 64).

(** [createOp<Op, numOperands>(rewriter, loc, operands, i)]. *)
Fixpoint createOp (operand : list (list TypedValue)) (i : nat)
  : Outcome (list TypedValue) :=
  match operand with
  | [] => Success []
  | o :: rest =>
      v ← at_index o i;
      vs ← createOp rest i;
      Success (v :: vs)
  end.

(** The slices of the operands: [operands[0]], then [operands[1]] and
    [operands[2]] as [numOperands] asks. *)
Definition operandSlices (numOperands : nat)
    (operands : list (list TypedValue)) : Outcome (list (list TypedValue)) :=
  if decide (numOperands = 1%nat) then
    o0 ← at_index operands 0; Success [o0]
  else if decide (numOperands = 2%nat) then
    o0 ← at_index operands 0; o1 ← at_index operands 1; Success [o0; o1]
  else
    o0 ← at_index operands 0; o1 ← at_index operands 1;
    o2 ← at_index operands 2; Success [o0; o1; o2].

(** [numOps], with the short-circuit evaluation of the test; the products
    of [sgLayout] and [sgData] entries are [int] products. *)
Definition computeNumOps (wgTileShape : list Z) (sgLayout sgData : Z * Z)
  : Outcome Z :=
  wg0 ← at_index wgTileShape 0;
  if decide (mul_int sgLayout.1 sgData.1 = wg0) then Success 1 else
  wg1 ← at_index wgTileShape 1;
  if decide (mul_int sgLayout.2 sgData.2 = wg1) then Success 1 else
  if decide (mul_int sgLayout.2 sgData.1 = wg0) then Success 1 else
  if decide (mul_int sgLayout.1 sgData.2 = wg1) then Success 1 else
  if decide (mul_int sgLayout.1 sgData.1 = 0) then Undefined else
  if decide (mul_int sgLayout.2 sgData.2 = 0) then Undefined else
  Success (wg0 ÷ mul_int sgLayout.1 sgData.1
           + wg1 ÷ mul_int sgLayout.2 sgData.2).

(** The loop [for (size_t i = 0; i < numOps; i++)], from [i] on. *)
Fixpoint createOps (operand : list (list TypedValue)) (newTy : VectorType)
    (i : nat) (count : nat) : Outcome (list NewOp) :=
  match count with
  | O => Success []
  | S count' =>
      vs ← createOp operand i;
      rest ← createOps operand newTy (S i) count';
      Success (mkNewOp vs newTy :: rest)
  end.

Definition matchAndRewrite (numOperands : nat) (op : ElementWiseOp)
    (adaptor : OneToNOpAdaptor) : Outcome (list NewOp) :=
  let resType := dyn_cast_VectorType (getResultType op) in
  match getMapAttr op with
  | None => Failure
  | Some mapAttr =>
      resTy ← deref resType;
      let wgTileShape := vShape resTy in
      let sgData := sgData mapAttr in
      let sgLayout := sgLayout mapAttr in
      let newTy := mkVectorType [sgData.1; sgData.2] (vElem resTy) in
      operand ← operandSlices numOperands (getOperands adaptor);
      numOps ← computeNumOps wgTileShape sgLayout sgData;
      createOps operand newTy 0 (to_size_t numOps)
  end.

End WGToSGElementWiseOpSameArgAndResultTypePattern.

(** ** WGToSGVectorTranspose *)

Module WGToSGVectorTranspose.
Local Open Scope Z_scope.

Record TransposeOp := mkTransposeOp {
  getVectorRank : nat;
  getResult : Value;
  getResultElemType : ElemType;
  getMapAttr : option WorkGroupMapAttr;
  getPermutation : list Z }.

Record OpAdaptor := mkAdaptor { getVector : Value }.

(** A created [vector.transpose]. *)
Record NewTransposeOp := mkNewTransposeOp {
  newResultType : VectorType;
  newVector : Value;
  newPermutation : list Z }.

Definition matchAndRewrite (sgLayoutMap : LayoutMap) (op : TransposeOp)
    (adaptor : OpAdaptor) : Outcome NewTransposeOp :=
  if decide (getVectorRank op ≠ 2%nat) then Failure else
  match getMapAttr op with
  | None => Failure
  | Some mapAttr =>
      match sgLayoutMap !! getResult op with
      | Some tag =>
          if decide (tag = (0, 1)) then
            let sgData := sgData mapAttr in
            let newTy := mkVectorType [sgData.1; sgData.2]
                           (getResultElemType op) in
            Success (mkNewTransposeOp newTy (getVector adaptor)
                       (getPermutation op))
          else Undefined
      | None => Failure
      end
  end.

End WGToSGVectorTranspose.

(** ** WGToSGArithConstantOpPattern *)

Module WGToSGArithConstantOpPattern.
Local Open Scope Z_scope.

(** A dense element array: its shaped type and its elements. *)
Record DenseElementsAttr := mkDense {
  getType : MType;
  getElementType : ElemType;
  getValues : list Z }.

Inductive Attribute :=
| ADense (d : DenseElementsAttr)
| AOther.

Definition dyn_cast_DenseElementsAttr (a : Attribute)
  : option DenseElementsAttr :=
  match a with ADense d => Some d | AOther => None end.

Record ConstantOp := mkConstantOp {
  getValue : Attribute;
  getMapAttr : option WorkGroupMapAttr }.

(** A created [arith.constant]. *)
Record NewConstantOp := mkNewConstantOp {
  newType : VectorType;
  newValues : list Z }.

(** [for (i = 0; i < sgData[0] * sgData[1]; i++) newValues.push_back(elems[i])]. *)
Fixpoint firstValues (elems : list Z) (i : nat) (count : nat)
  : Outcome (list Z) :=
  match count with
  | O => Success []
  | S count' =>
      e ← at_index elems i;
      rest ← firstValues elems (S i) count';
      Success (e :: rest)
  end.

Definition computeNumOps (wgTileShape : list Z) (sgLayout sgData : Z * Z)
  : Outcome Z :=
  if decide (length wgTileShape = 1%nat) then
    wg0 ← at_index wgTileShape 0;
    if decide (mul_int sgLayout.1 sgData.1 = wg0) then Success 1
    else if decide (mul_int sgLayout.2 sgData.2 = wg0) then Success 1
    else Failure
  else
    wg0 ← at_index wgTileShape 0;
    if decide (mul_int sgLayout.1 sgData.1 = wg0) then
      wg1 ← at_index wgTileShape 1;
      if decide (mul_int sgLayout.2 sgData.2 = wg1) then Success 1 else
      if decide (mul_int sgLayout.1 sgData.1 = 0) then Undefined else
      if decide (mul_int sgLayout.2 sgData.2 = 0) then Undefined else
      Success (wg0 ÷ mul_int sgLayout.1 sgData.1
               + wg1 ÷ mul_int sgLayout.2 sgData.2)
    else
      wg1 ← at_index wgTileShape 1;
      if decide (mul_int sgLayout.1 sgData.1 = 0) then Undefined else
      if decide (mul_int sgLayout.2 sgData.2 = 0) then Undefined else
      Success (wg0 ÷ mul_int sgLayout.1 sgData.1
               + wg1 ÷ mul_int sgLayout.2 sgData.2).

Definition matchAndRewrite (op : ConstantOp) : Outcome (list NewConstantOp) :=
  let value := dyn_cast_DenseElementsAttr (getValue op) in
  (* value.getType() *)
  v ← deref value;
  let valueType := dyn_cast_VectorType (getType v) in
  (* valueType.getShape() *)
  vt ← deref valueType;
  let wgTileShape := vShape vt in
  if decide (value = None) then Failure else
  match getMapAttr op with
  | None => Failure
  | Some mapAttr =>
      let sgData := sgData mapAttr in
      let sgLayout := sgLayout mapAttr in
      let outputShape :=
        if decide (length wgTileShape = 1%nat) then
          if decide (sgData.1 = 1) then [sgData.2] else [sgData.1]
        else [sgData.1; sgData.2] in
      let newTy := mkVectorType outputShape (getElementType v) in
      newValues ← firstValues (getValues v) 0 (Z.to_nat (sgData.1 * sgData.2));
      numOps ← computeNumOps wgTileShape sgLayout sgData;
      Success (replicate
                 (WGToSGElementWiseOpSameArgAndResultTypePattern.to_size_t numOps)
                 (mkNewConstantOp newTy newValues))
  end.

End WGToSGArithConstantOpPattern.

(** ** XeTileWgToSgPass: legality, registered patterns, conversion *)

Module XeTileWgToSgPass.

Inductive OpKind :=
| xetile_InitTileOp | xetile_LoadTileOp | xetile_LoadGatherOp
| xetile_TileMMAOp | xetile_StoreTileOp | xetile_StoreScatterOp
| xetile_UpdateTileOffsetOp | xetile_PrefetchTileOp | xetile_ConvertLayoutOp
| scf_ForOp | scf_YieldOp | scf_IfOp
| arith_ConstantOp | arith_AddFOp | math_ExpOp | math_SqrtOp
| arith_ExtFOp | arith_ExtSIOp | arith_ExtUIOp | arith_FPToSIOp
| arith_FPToUIOp | arith_UIToFPOp | arith_SIToFPOp | arith_TruncFOp
| arith_TruncIOp | arith_CmpIOp | arith_CmpFOp | arith_IndexCastUIOp
| arith_SelectOp | math_FPowIOp | arith_IndexCastOp | arith_BitcastOp
| vector_TransposeOp | vector_BroadcastOp | vector_MultiDimReductionOp
| vector_ShapeCastOp | vector_CreateMaskOp
| unknown_op.

#[export] Instance OpKind_eq_dec : EqDecision OpKind.
Proof. solve_decision. Defined.

(** The rule classes of the file; the templated ones carry the op they are
    instantiated with. *)
Inductive Pattern :=
| P_WGToSGInitTileOpPattern | P_WGToSGVectorTranspose
| P_WGToSGLoadTileOpPattern | P_WGToSGTileMMAOpPattern
| P_WGToSGStoreTileOpPattern | P_WGToSGSCFForOpPattern
| P_WGToSGUpdateTileOffsetOpPattern | P_WGToSGSCFYieldOpPattern
| P_WGToSGVectorBroadcast | P_WGToSGXeTileConvertLayout
| P_WGToSGPrefetchOpPattern | P_WGToSGVectorShapeCast
| P_WGToSGVectorMultiDimReductionOp | P_WGToSGArithSelectOpPattern
| P_WGToSGMathFPowIOpPattern | P_WGToSGLoadGatherOpPattern
| P_WGToSGStoreScatterOpPattern | P_WGToSGVectorCreateMask
| P_WGToSGElementWiseOpSameArgAndResultTypePattern (op : OpKind)
| P_WGToSGArithDifferentResultTypePattern (op : OpKind)
| P_WGToSGElementWiseOpComparisonOpsPattern (op : OpKind)
| P_WGToSGArithConstantOpPattern.

(** The op a rule class is declared for ([OpConversionPattern<Op>]). *)
Definition rootKind (p : Pattern) : OpKind :=
  match p with
  | P_WGToSGInitTileOpPattern => xetile_InitTileOp
  | P_WGToSGVectorTranspose => vector_TransposeOp
  | P_WGToSGLoadTileOpPattern => xetile_LoadTileOp
  | P_WGToSGTileMMAOpPattern => xetile_TileMMAOp
  | P_WGToSGStoreTileOpPattern => xetile_StoreTileOp
  | P_WGToSGSCFForOpPattern => scf_ForOp
  | P_WGToSGUpdateTileOffsetOpPattern => xetile_UpdateTileOffsetOp
  | P_WGToSGSCFYieldOpPattern => scf_YieldOp
  | P_WGToSGVectorBroadcast => vector_BroadcastOp
  | P_WGToSGXeTileConvertLayout => xetile_ConvertLayoutOp
  | P_WGToSGPrefetchOpPattern => xetile_PrefetchTileOp
  | P_WGToSGVectorShapeCast => vector_ShapeCastOp
  | P_WGToSGVectorMultiDimReductionOp => vector_MultiDimReductionOp
  | P_WGToSGArithSelectOpPattern => arith_SelectOp
  | P_WGToSGMathFPowIOpPattern => math_FPowIOp
  | P_WGToSGLoadGatherOpPattern => xetile_LoadGatherOp
  | P_WGToSGStoreScatterOpPattern => xetile_StoreScatterOp
  | P_WGToSGVectorCreateMask => vector_CreateMaskOp
  | P_WGToSGElementWiseOpSameArgAndResultTypePattern op => op
  | P_WGToSGArithDifferentResultTypePattern op => op
  | P_WGToSGElementWiseOpComparisonOpsPattern op => op
  | P_WGToSGArithConstantOpPattern => arith_ConstantOp
  end.

Definition populateXeTileWgToSgPatterns : list Pattern :=
  [ P_WGToSGInitTileOpPattern; P_WGToSGVectorTranspose ] ++
  [ P_WGToSGLoadTileOpPattern; P_WGToSGTileMMAOpPattern;
    P_WGToSGStoreTileOpPattern; P_WGToSGSCFForOpPattern;
    P_WGToSGUpdateTileOffsetOpPattern; P_WGToSGSCFYieldOpPattern;
    P_WGToSGVectorBroadcast; P_WGToSGXeTileConvertLayout;
    P_WGToSGPrefetchOpPattern; P_WGToSGVectorShapeCast;
    P_WGToSGVectorMultiDimReductionOp; P_WGToSGArithSelectOpPattern;
    P_WGToSGMathFPowIOpPattern; P_WGToSGVectorShapeCast;
    P_WGToSGVectorMultiDimReductionOp; P_WGToSGLoadGatherOpPattern;
    P_WGToSGStoreScatterOpPattern; P_WGToSGVectorCreateMask ] ++
  [ P_WGToSGElementWiseOpSameArgAndResultTypePattern math_ExpOp;
    P_WGToSGElementWiseOpSameArgAndResultTypePattern math_SqrtOp;
    P_WGToSGElementWiseOpSameArgAndResultTypePattern arith_AddFOp;
    P_WGToSGArithDifferentResultTypePattern arith_TruncFOp;
    P_WGToSGArithDifferentResultTypePattern arith_TruncIOp;
    P_WGToSGArithDifferentResultTypePattern arith_ExtFOp;
    P_WGToSGArithDifferentResultTypePattern arith_ExtSIOp;
    P_WGToSGArithDifferentResultTypePattern arith_ExtUIOp;
    P_WGToSGArithDifferentResultTypePattern arith_SIToFPOp;
    P_WGToSGArithDifferentResultTypePattern arith_UIToFPOp;
    P_WGToSGArithDifferentResultTypePattern arith_FPToSIOp;
    P_WGToSGArithDifferentResultTypePattern arith_FPToUIOp;
    P_WGToSGArithDifferentResultTypePattern arith_IndexCastUIOp;
    P_WGToSGArithDifferentResultTypePattern arith_IndexCastOp;
    P_WGToSGArithDifferentResultTypePattern arith_BitcastOp;
    P_WGToSGElementWiseOpComparisonOpsPattern arith_CmpIOp;
    P_WGToSGElementWiseOpComparisonOpsPattern arith_CmpFOp;
    P_WGToSGArithConstantOpPattern ].

(** A loop-carried value as the [scf.for]/[scf.yield] callbacks see it. *)
Inductive CarriedValue :=
| CarriedTile (hasWgMap : bool)
| CarriedVector (definingOpHasMap : bool)
| CarriedOther.

(** What the legality callbacks read of an op other than a transpose. *)
Record OpSummary := mkOpSummary {
  tileHasWgMap : bool;
  hasMapAttr : bool;
  hasWgMapA : bool;
  carried : list CarriedValue }.

Inductive Operation :=
| VectorTranspose (op : WGToSGVectorTranspose.TransposeOp)
                  (adaptor : WGToSGVectorTranspose.OpAdaptor)
| OtherOp (kind : OpKind) (summary : OpSummary).

Definition kindOf (o : Operation) : OpKind :=
  match o with
  | VectorTranspose _ _ => vector_TransposeOp
  | OtherOp k _ => k
  end.

Definition summaryOf (o : Operation) : OpSummary :=
  match o with
  | VectorTranspose op _ =>
      mkOpSummary false
        (bool_decide (is_Some (WGToSGVectorTranspose.getMapAttr op)))
        false []
  | OtherOp _ s => s
  end.

Definition carriedLegal (c : CarriedValue) : bool :=
  match c with
  | CarriedTile hasWgMap => negb hasWgMap
  | CarriedVector definingOpHasMap => negb definingOpHasMap
  | CarriedOther => true
  end.

(** The conversion target set up by [runOnOperation]. *)
Definition isLegal (o : Operation) : bool :=
  let s := summaryOf o in
  match kindOf o with
  | xetile_InitTileOp | xetile_LoadTileOp | xetile_LoadGatherOp
  | xetile_StoreTileOp | xetile_StoreScatterOp
  | xetile_UpdateTileOffsetOp | xetile_PrefetchTileOp =>
      negb (tileHasWgMap s)
  | xetile_TileMMAOp => negb (hasWgMapA s)
  | scf_ForOp | scf_YieldOp => forallb carriedLegal (carried s)
  | arith_ConstantOp | arith_AddFOp | math_ExpOp | math_SqrtOp
  | arith_ExtFOp | arith_ExtSIOp | arith_ExtUIOp | arith_FPToSIOp
  | arith_FPToUIOp | arith_UIToFPOp | arith_SIToFPOp | arith_TruncFOp
  | arith_TruncIOp | arith_CmpIOp | arith_CmpFOp | arith_IndexCastUIOp
  | arith_SelectOp | math_FPowIOp | arith_IndexCastOp | arith_BitcastOp
  | vector_TransposeOp | vector_BroadcastOp | vector_MultiDimReductionOp
  | vector_ShapeCastOp | vector_CreateMaskOp =>
      negb (hasMapAttr s)
  | scf_IfOp => true
  | xetile_ConvertLayoutOp => false
  | unknown_op => true
  end.

Section Driver.
(** Whether a rule other than the transpose rule succeeds on an op. *)
Variable otherRules : Pattern -> Operation -> bool.
(** The store as [analyzeTransposeOps] left it. *)
Variable sgLayoutMap : LayoutMap.

Definition applies (p : Pattern) (o : Operation) : bool :=
  match p, o with
  | P_WGToSGVectorTranspose, VectorTranspose op adaptor =>
      match WGToSGVectorTranspose.matchAndRewrite sgLayoutMap op adaptor with
      | Success _ => true
      | _ => false
      end
  | _, _ => otherRules p o
  end.

(** Modelled from the spec: the partial-conversion driver, which is the
    host framework's [applyPartialConversion] and not part of this
    repository.  For each op the legality oracle marks illegal it tries
    every registered rule for that op's kind until one succeeds; if none
    succeeds the op remains illegal and the conversion fails. *)
Definition legalize (o : Operation) : bool :=
  isLegal o ||
  existsb (fun p => applies p o)
    (filter (fun p => rootKind p = kindOf o) populateXeTileWgToSgPatterns).

(** Modelled from the spec: the conversion visits the ops of the program
    in order, a defining op before its users, and succeeds when every one
    of them is legal or could be legalized. *)
Definition applyPartialConversion (program : list Operation) : bool :=
  forallb legalize program.

Inductive PassResult := PassSucceeded | PassFailure.

Definition runOnOperation (isSupportedModule : bool)
    (program : list Operation) : PassResult :=
  if negb isSupportedModule then PassFailure
  else if applyPartialConversion program then PassSucceeded
  else PassFailure.

End Driver.
End XeTileWgToSgPass.

(** ** WGToSGLoadTileOpPattern and WGToSGLoadGatherOpPattern *)

Module WGToSGLoadTileOpPattern.

Record LoadTileOp := mkLoadTileOp { getValueType : MType }.

Record OneToNOpAdaptor := mkAdaptor { getSource : list TypedValue }.

(** A created [xetile.load_tile]. *)
Record NewLoadTileOp := mkNewLoadTileOp {
  newResultType : VectorType;
  newSource : TypedValue }.

Definition dyn_cast_TileType (t : MType) : option TileType :=
  match t with TTile ty => Some ty | _ => None end.

(** The loop over [sources]. *)
Fixpoint forSources (sources : list TypedValue) : Outcome (list NewLoadTileOp) :=
  match sources with
  | [] => Success []
  | src :: rest =>
      tileTy ← deref (dyn_cast_TileType (tvType src));
      s0 ← at_index (tShape tileTy) 0;
      s1 ← at_index (tShape tileTy) 1;
      let newResTy := mkVectorType [s0; s1] (tElem tileTy) in
      r ← forSources rest;
      Success (mkNewLoadTileOp newResTy src :: r)
  end.

Definition matchAndRewrite (op : LoadTileOp) (adaptor : OneToNOpAdaptor)
  : Outcome (list NewLoadTileOp) :=
  match dyn_cast_VectorType (getValueType op) with
  | None => Failure
  | Some resType =>
      if decide (length (vShape resType) ≠ 2%nat) then Failure
      else forSources (getSource adaptor)
  end.

End WGToSGLoadTileOpPattern.

Module WGToSGLoadGatherOpPattern.
Import WGToSGLoadTileOpPattern.

Record LoadGatherOp := mkLoadGatherOp { getValueType : VectorType }.

Record OneToNOpAdaptor := mkAdaptor {
  getTile : list TypedValue;
  getMask : list TypedValue }.

(** A created [xetile.load]. *)
Record NewLoadGatherOp := mkNewLoadGatherOp {
  newResultType : VectorType;
  newTile : TypedValue;
  newMask : TypedValue }.

(** The loop over [llvm::zip(sources, mask)], which ends with the shorter
    of the two ranges. *)
Fixpoint forZip (sources mask : list TypedValue)
  : Outcome (list NewLoadGatherOp) :=
  match sources, mask with
  | src :: sources', m :: mask' =>
      tileTy ← deref (dyn_cast_TileType (tvType src));
      s0 ← at_index (tShape tileTy) 0;
      s1 ← at_index (tShape tileTy) 1;
      let newResTy := mkVectorType [s0; s1] (tElem tileTy) in
      r ← forZip sources' mask';
      Success (mkNewLoadGatherOp newResTy src m :: r)
  | _, _ => Success []
  end.

Definition matchAndRewrite (op : LoadGatherOp) (adaptor : OneToNOpAdaptor)
  : Outcome (list NewLoadGatherOp) :=
  if decide (length (vShape (getValueType op)) ≠ 2%nat) then Failure
  else forZip (getTile adaptor) (getMask adaptor).

End WGToSGLoadGatherOpPattern.

(** ** WGToSGStoreTileOpPattern and WGToSGStoreScatterOpPattern *)

Module WGToSGStoreTileOpPattern.

Record OneToNOpAdaptor := mkAdaptor {
  getValue : list TypedValue;
  getTile : list TypedValue }.

(** A created [xetile.store_tile]. *)
Record NewStoreTileOp := mkNewStoreTileOp {
  newValue : TypedValue;
  newTile : TypedValue }.

(** [for (size_t i = 0; i < newValues.size(); i++)], from [i] on; [values]
    are [newValues[i ..]]. *)
Fixpoint forValues (values : list TypedValue) (newDstTiles : list TypedValue)
    (i : nat) : Outcome (list NewStoreTileOp) :=
  match values with
  | [] => Success []
  | v :: values' =>
      t ← at_index newDstTiles i;
      r ← forValues values' newDstTiles (S i);
      Success (mkNewStoreTileOp v t :: r)
  end.

(** The rule creates the stores and erases the op. *)
Definition matchAndRewrite (adaptor : OneToNOpAdaptor)
  : Outcome (list NewStoreTileOp) :=
  forValues (getValue adaptor) (getTile adaptor) 0.

End WGToSGStoreTileOpPattern.

Module WGToSGStoreScatterOpPattern.

Record OneToNOpAdaptor := mkAdaptor {
  getValue : list TypedValue;
  getTile : list TypedValue;
  getMask : list TypedValue }.

(** A created [xetile.store]. *)
Record NewStoreScatterOp := mkNewStoreScatterOp {
  newValue : TypedValue;
  newTile : TypedValue;
  newMask : TypedValue }.

Fixpoint forValues (values : list TypedValue)
    (newDstTiles mask : list TypedValue) (i : nat)
  : Outcome (list NewStoreScatterOp) :=
  match values with
  | [] => Success []
  | v :: values' =>
      t ← at_index newDstTiles i;
      m ← at_index mask i;
      r ← forValues values' newDstTiles mask (S i);
      Success (mkNewStoreScatterOp v t m :: r)
  end.

Definition matchAndRewrite (adaptor : OneToNOpAdaptor)
  : Outcome (list NewStoreScatterOp) :=
  forValues (getValue adaptor) (getTile adaptor) (getMask adaptor) 0.

End WGToSGStoreScatterOpPattern.

(** ** WGToSGSCFYieldOpPattern *)

Module WGToSGSCFYieldOpPattern.

Record OneToNOpAdaptor := mkAdaptor { getOperands : list (list TypedValue) }.

(** The operands the yield has after [modifyOpInPlace]. *)
Definition matchAndRewrite (adaptor : OneToNOpAdaptor)
  : Outcome (list TypedValue) :=
  Success (foldl (fun newYieldedValues yield => newYieldedValues ++ yield) []
             (getOperands adaptor)).

End WGToSGSCFYieldOpPattern.

(** ** WGToSGVectorBroadcast *)

Module WGToSGVectorBroadcast.
Local Open Scope Z_scope.

Record BroadcastOp := mkBroadcastOp {
  getResultType : VectorType;
  getMapAttr : option WorkGroupMapAttr }.

Record OpAdaptor := mkAdaptor { getSource : TypedValue }.

(** A created [vector.broadcast]. *)
Record NewBroadcastOp := mkNewBroadcastOp {
  newResultType : VectorType;
  newSource : TypedValue }.

Definition matchAndRewrite (op : BroadcastOp) (adaptor : OpAdaptor)
  : Outcome NewBroadcastOp :=
  if decide (length (vShape (getResultType op)) ≠ 2%nat) then Failure else
  let resType := getResultType op in
  let srcTy := dyn_cast_VectorType (tvType (getSource adaptor)) in
  (* srcTy.getShape() *)
  src ← deref srcTy;
  let srcShape := vShape src in
  match getMapAttr op with
  | None => Failure
  | Some mapAttr =>
      let sgData := sgData mapAttr in
      let newTy := mkVectorType [sgData.1; sgData.2] (vElem resType) in
      let new := mkNewBroadcastOp newTy (getSource adaptor) in
      s0 ← at_index srcShape 0;
      rowVector ← (if decide (s0 = 1)
                   then s1 ← at_index srcShape 1;
                        Success (bool_decide (s1 = sgData.2))
                   else Success false);
      if (rowVector : bool) then Success new else
      s1 ← at_index srcShape 1;
      if decide (s1 = 1) then
        if decide (s0 = sgData.1) then Success new else Failure
      else Failure
  end.

End WGToSGVectorBroadcast.

(** ** WGToSGVectorShapeCast *)

Module WGToSGVectorShapeCast.
Local Open Scope Z_scope.

(** [usersAreReductions] has one entry per user of the result: whether the
    user is a [vector.multi_reduction]. *)
Record ShapeCastOp := mkShapeCastOp {
  getResultType : VectorType;
  usersAreReductions : list bool;
  getMapAttr : option WorkGroupMapAttr }.

Record OpAdaptor := mkAdaptor { getSource : TypedValue }.

(** What the op is replaced with. *)
Inductive Replacement :=
| ReplaceWithSource (source : TypedValue)
| NewShapeCast (resultType : VectorType) (source : TypedValue).

Definition matchAndRewrite (op : ShapeCastOp) (adaptor : OpAdaptor)
  : Outcome Replacement :=
  let resType := getResultType op in
  let resShape := vShape resType in
  if decide (length resShape = 3%nat) then
    if forallb id (usersAreReductions op)
    then Success (ReplaceWithSource (getSource adaptor))
    else Failure
  else
  r0 ← at_index resShape 0;
  noUnitDim ← (if decide (r0 ≠ 1)
               then r1 ← at_index resShape 1; Success (bool_decide (r1 ≠ 1))
               else Success false);
  if (noUnitDim : bool) then Failure else
  match getMapAttr op with
  | None => Failure
  | Some mapAttr =>
      let sgData := sgData mapAttr in
      Success (NewShapeCast (mkVectorType [sgData.1; sgData.2] (vElem resType))
                 (getSource adaptor))
  end.

End WGToSGVectorShapeCast.

(** ** The legality callbacks of [scf.for] and [scf.yield], and [hasMap] *)

Module Legality.

(** What [hasMap] reads of an operation. *)
Record OpAttrs := mkOpAttrs {
  isLoadTileOp : bool;
  operand0Type : MType;
  hasMapAttr : bool;
  hasWgMapA : bool }.

Definition hasMap (op : option OpAttrs) : Outcome bool :=
  (* llvm::isa<LoadTileOp>(op) *)
  o ← deref op;
  if isLoadTileOp o then
    tileTy ← deref (WGToSGLoadTileOpPattern.dyn_cast_TileType (operand0Type o));
    match tWgMap tileTy with
    | Some _ => Success true
    | None => Success false
    end
  else
    if negb (hasMapAttr o) && negb (hasWgMapA o) then Success false
    else Success true.

(** An init arg of a loop, or a yielded value: its type and its defining
    op, absent for a block argument. *)
Record CarriedArg := mkCarriedArg {
  argType : MType;
  getDefiningOp : option OpAttrs }.

(** The callback given to [addDynamicallyLegalOp<scf::ForOp>] (over the
    init args) and to [addDynamicallyLegalOp<scf::YieldOp>] (over the
    yielded values). *)
Fixpoint isLegalLoop (args : list CarriedArg) : Outcome bool :=
  match args with
  | [] => Success true
  | arg :: rest =>
      match argType arg with
      | TTile tileTy =>
          match tWgMap tileTy with
          | Some _ => Success false
          | None => isLegalLoop rest
          end
      | TVector _ =>
          h ← hasMap (getDefiningOp arg);
          if (h : bool) then Success false else isLegalLoop rest
      | TOther => isLegalLoop rest
      end
  end.

End Legality.

(** * Vocabulary of the statements *)

Section InitTileCoordinateStatements.
Import WGToSGInitTileOpPattern.
Local Open Scope Z_scope.

Definition env_of_id (id : Z) : Env := mkEnv id (fun _ => 0).

Definition c1_op : InitTileOp :=
  mkInitTileOp (OpResult 0 0)
    (mkTileType [256; 256] F32 (1, 0) (Some (mkWgMap (4, 8) (64, 32))) false None)
    (OpResult 1 0) MemRefStatic [0; 0] [].

Definition c1_marked : LayoutMap := {[ OpResult 0 0 := (0, 1) ]}.

End InitTileCoordinateStatements.

Section TransposePassStatements.
Import WGToSGVectorTranspose XeTileWgToSgPass.
Local Open Scope Z_scope.

Definition c9_op : TransposeOp :=
  mkTransposeOp 2 (OpResult 5 0) F16 (Some (mkWgMap (4, 8) (32, 32))) [1; 0].

End TransposePassStatements.

Section TileMMAStatements.
Import WGToSGTileMMAOpPattern.
Local Open Scope Z_scope.

(** Rows and columns of a rank-2 vector value. *)
Definition rowsOf (v : TypedValue) : Z :=
  match tvType v with TVector vt => nth 0 (vShape vt) 0 | _ => 0 end.
Definition colsOf (v : TypedValue) : Z :=
  match tvType v with TVector vt => nth 1 (vShape vt) 0 | _ => 0 end.

Definition isMatrix (v : TypedValue) : Prop :=
  exists r c e, tvType v = TVector (mkVectorType [r; c] e).

(** The product the spec describes: one matmul per pair, left operand
    outermost, the accumulator taken at the position of the pair. *)
Definition mmaRow (op : TileMMAOp) (adaptor : OneToNOpAdaptor)
    (a : TypedValue) (bs : list TypedValue) (i : nat) : list NewTileMMAOp :=
  imap (fun j b =>
          mkNewTileMMAOp
            (mkVectorType [rowsOf a; colsOf b] (vElem (getResultType op)))
            a b (if hasC op then getC adaptor !! (i + j)%nat else None)) bs.

Definition mmaProduct (op : TileMMAOp) (adaptor : OneToNOpAdaptor)
  : list NewTileMMAOp :=
  concat (imap (fun k a =>
                  mmaRow op adaptor a (getB adaptor)
                    (k * length (getB adaptor))%nat)
               (getA adaptor)).

Definition c5_tile (id : nat) (r c : Z) : TypedValue :=
  mkTyped (OpResult id 0) (TVector (mkVectorType [r; c] F16)).

Definition c5_op : TileMMAOp := mkTileMMAOp (mkVectorType [64; 96] F32) false.

Definition c5_adaptor : OneToNOpAdaptor :=
  mkAdaptor [c5_tile 1 32 16; c5_tile 2 32 16]
            [c5_tile 3 16 32; c5_tile 4 16 32; c5_tile 5 16 32] [].

End TileMMAStatements.

Section SCFForStatements.
Import WGToSGSCFForOpPattern.

Definition c6_value (id : nat) : TypedValue :=
  mkTyped (OpResult id 0) (TVector (mkVectorType [32; 32]%Z F32)).

Definition c6_op : ForOp :=
  mkForOp [TOther; TVector (mkVectorType [96; 32]%Z F32);
           TVector (mkVectorType [32; 32]%Z F32)].

Definition c6_adaptor : OneToNOpAdaptor :=
  mkAdaptor [[c6_value 1; c6_value 2; c6_value 3]; [c6_value 4]].

End SCFForStatements.

Section ElementWiseStatements.
Import WGToSGElementWiseOpSameArgAndResultTypePattern.
Local Open Scope Z_scope.

(** The instance count the spec describes. *)
Definition numOpsSpec (wg0 wg1 : Z) (sgLayout sgData : Z * Z) : Z :=
  if decide (sgLayout.1 * sgData.1 = wg0 \/ sgLayout.2 * sgData.2 = wg1 \/
             sgLayout.2 * sgData.1 = wg0 \/ sgLayout.1 * sgData.2 = wg1)
  then 1
  else wg0 / (sgLayout.1 * sgData.1) + wg1 / (sgLayout.2 * sgData.2).

Definition c8_value (id : nat) : TypedValue :=
  mkTyped (OpResult id 0) (TVector (mkVectorType [32; 32] F16)).

(** wgShape 128x64, sgLayout [2,1], sgData [32,16]: no axis matches, and
    128 / 64 + 64 / 16 = 6. *)
Definition c8_op : ElementWiseOp :=
  mkElementWiseOp (TVector (mkVectorType [128; 64] F16))
                  (Some (mkWgMap (2, 1) (32, 16))).

Definition c8_adaptor : OneToNOpAdaptor :=
  mkAdaptor (map (map c8_value) [[1; 2; 3; 4; 5; 6]; [7; 8; 9; 10; 11; 12]]%nat).

(** wgShape 131072x196614, sgLayout [1,65538], sgData [65536,1]: none of
    the four products equals an extent, but 65538 * 65536 exceeds the range
    of [int]. *)
Definition c8_wide_op : ElementWiseOp :=
  mkElementWiseOp (TVector (mkVectorType [131072; 196614] F16))
                  (Some (mkWgMap (1, 65538) (65536, 1))).

Definition c8_wide_adaptor : OneToNOpAdaptor :=
  mkAdaptor (map (map c8_value) [[1; 2; 3; 4; 5]]%nat).

End ElementWiseStatements.

Section ConvertLayoutStatements.
Import WGToSGXeTileConvertLayout.
Local Open Scope Z_scope.





Definition c7_op : ConvertLayoutOp :=
  mkConvertLayoutOp 2 (mkVectorType [256; 256] F32)
    (Some (mkDefOp (mkOpInfo false None (Some (mkWgMap (8, 4) (32, 64))))
                   false true None (OpResult 1 0)))
    (Some (mkWgMap (8, 4) (32, 64)))
    (Some (mkWgMap (32, 1) (8, 256))).

Definition c7_adaptor : OpAdaptor := mkAdaptor (OpResult 2 0).

End ConvertLayoutStatements.

Section TransposeAnalysisStatements.
Import Analysis.
Local Open Scope Z_scope.

(** What one visit of a tile-init does to its entry. *)
Definition toggled (tag : option (Z * Z)) : option (Z * Z) :=
  match tag with None => Some (0, 1) | Some _ => None end.

(** The trace of one load: its source and the tile-inits found from it. *)
Definition loadTrace (fuel : nat) (ir : IR) (ld : nat) (initOps : list nat)
  : Prop :=
  exists loadOp loadSource,
    ir !! ld = Some loadOp /\
    getOperands loadOp !! 0%nat = Some loadSource /\
    findOps fuel ir xetile_init_tile loadSource = Success initOps.

Definition hasName (ir : IR) (OpType : OpName) (id : nat) : Prop :=
  exists op, ir !! id = Some op /\ opName op = OpType.

(** %0 = init_tile, %1 = load_tile %0, %2 = vector.transpose %1. *)
Definition c2_ir : IR :=
  [ mkOp xetile_init_tile [];
    mkOp xetile_load_tile [OpResult 0 0];
    mkOp vector_transpose [OpResult 1 0] ].

(** %0 = init_tile, %1 = load_tile %0, %2 = load_tile %0, %3 = op %1, %2,
    %4 = vector.transpose %3: the tile-init is reached through both
    loads. *)
Definition c2_twice_ir : IR :=
  [ mkOp xetile_init_tile [];
    mkOp xetile_load_tile [OpResult 0 0];
    mkOp xetile_load_tile [OpResult 0 0];
    mkOp other_op [OpResult 1 0; OpResult 2 0];
    mkOp vector_transpose [OpResult 3 0] ].

End TransposeAnalysisStatements.

Section InitTileAxisStatements.
Import WGToSGInitTileOpPattern.
Local Open Scope Z_scope.

(** A folder is sound when what it answers denotes the folded term. *)
Definition FolderSound (folder : Folder) : Prop :=
  forall env e,
    match folder e with
    | None => True
    | Some (FoldValue v) => eval env v = eval env e
    | Some (FoldAttr z) => eval env (IVConst z) = eval env e
    end.

(** The value pushed by one iteration of [calculateGlobalOffsets], for the
    loop counter [i] and [n = wgTileShape / sgTileShape]. *)
Definition globalOffset (folder : Folder) (n : Z)
    (sgDataDimConst sgId offset : IndexValue) (i : Z) : IndexValue :=
  let off := createOrFold folder (IVAdd (IVConst i) sgId) in
  let mod_ := createOrFold folder (IVRemU off (IVConst n)) in
  let localOffset := createOrFold folder (IVMul mod_ sgDataDimConst) in
  createOrFold folder (IVAdd offset localOffset).

End InitTileAxisStatements.

Section InitTileDecompositionStatements.
Import WGToSGInitTileOpPattern.
Local Open Scope Z_scope.









Definition nofold : Folder := fun _ => None.



End InitTileDecompositionStatements.

Section InitTileCoverageStatements.
Import WGToSGInitTileOpPattern.
Local Open Scope Z_scope.









End InitTileCoverageStatements.

Section InitTileEdgeStatements.
Import WGToSGInitTileOpPattern.
Local Open Scope Z_scope.

(** A non-scatter init-tile op with a workgroup map and order other than
    {0,1}, of shape [wg0; wg1], whose offsets end in [offX; offY] and whose
    entry in the store, if any, is {0,1}. *)
Record RuleInput (sgLayoutMap : LayoutMap) (op : InitTileOp)
    (wgMap : WorkGroupMapAttr) (wg0 wg1 : Z)
    (pre : list IndexValue) (offX offY : IndexValue) : Prop := {
  in_order : ~ ((tOrder (getType op)).1 = 0 /\ (tOrder (getType op)).2 = 1);
  in_wgMap : tWgMap (getType op) = Some wgMap;
  in_scatter : tScatter (getType op) = false;
  in_shape : tShape (getType op) = [wg0; wg1];
  in_offsets : mixedOffsets (getStaticOffsets op) (getOffsets op)
               = Success (pre ++ [offX; offY]);
  in_tag : forall tag, sgLayoutMap !! getResult op = Some tag -> tag = (0, 1) }.

(** The number of iterations of [for (i = 0; i < wg / sg; i += layout)]. *)
Definition axisCount (wg sg layout : Z) : nat :=
  Z.to_nat ((wg / sg + layout - 1) / layout).

(** The offsets a created op carries. *)
Definition offsetsOf (o : NewInitTileOp) : list IndexValue :=
  match o with
  | InitTile _ _ offsets _ => offsets
  | InitTileScatter _ _ _ => []
  end.

Definition c_edge_op (src : SourceType) (wg0 wg1 : Z) (L D : Z * Z)
  : InitTileOp :=
  mkInitTileOp (OpResult 0 0)
    (mkTileType [wg0; wg1] F32 (1, 0) (Some (mkWgMap L D)) false None)
    (OpResult 7 0) src [5; 0; kDynamic] [OpResult 8 0].

End InitTileEdgeStatements.

Section AnalysisTotalStatements.
Import Analysis.

(** A block argument is used after the op that carries its block, and a
    body argument of an [scf.for] is the induction variable or one of the
    loop-carried arguments. *)
Definition argOK (ir : IR) (user : nat) (v : Value) : Prop :=
  match v with
  | OpResult _ _ => True
  | BlockArgument parent k =>
      (parent < user)%nat /\
      forall op, ir !! parent = Some op -> opName op = scf_for ->
                 (k <= length (getInitArgs op))%nat
  end.

(** What the analysis relies on: operands obey [argOK], and transposes and
    tile loads have an operand. *)
Record WellFormed (ir : IR) : Prop := {
  wf_args : forall id op v,
    ir !! id = Some op -> v ∈ getOperands op -> argOK ir id v;
  wf_transpose : forall id op,
    ir !! id = Some op -> opName op = vector_transpose -> getOperands op <> [];
  wf_load : forall id op,
    ir !! id = Some op -> opName op = xetile_load_tile -> getOperands op <> [] }.

Definition allOperands (ir : IR) : list Value := ir ≫= getOperands.

Definition maxOperands (ir : IR) : nat :=
  max_list ((fun op => length (getOperands op)) <$> ir).

(** Enough steps for one search over [ir]. *)
Definition searchFuel (ir : IR) : nat :=
  length ir + 1 + S (maxOperands ir) * S (length (allOperands ir)).

(** The values of a list not yet in the visited set. *)
Definition unvisited (visited : gset Value) (l : list Value) : nat :=
  length (filter (fun v => v ∉ visited) l).

(** Whether a value has an entry in the store. *)
Definition marked (m : LayoutMap) (v : Value) : bool :=
  bool_decide (is_Some (m !! v)).

(** What the analysis writes: tag {0,1}, on result 0 of a transpose or of a
    tile-init. *)
Definition AnalysisStore (ir : IR) (m : LayoutMap) : Prop :=
  forall v tag,
    m !! v = Some tag ->
    tag = (0, 1)%Z /\
    exists id, v = OpResult id 0 /\
               (hasName ir vector_transpose id \/
                hasName ir xetile_init_tile id).

(** Three constants, a tile-init, a loop carrying the tile, and in its body
    a load of the carried tile and a transpose of the loaded vector. *)
Definition loop_ir : IR :=
  [ mkOp other_op [];
    mkOp other_op [];
    mkOp other_op [];
    mkOp xetile_init_tile [];
    mkOp scf_for [OpResult 0 0; OpResult 1 0; OpResult 2 0; OpResult 3 0];
    mkOp xetile_load_tile [BlockArgument 4 1];
    mkOp vector_transpose [OpResult 5 0] ].

End AnalysisTotalStatements.

Section PipelineStatements.
Local Open Scope Z_scope.

(** The result type of a created init-tile op. *)
Definition typeOfNew (o : WGToSGInitTileOpPattern.NewInitTileOp) : TileType :=
  match o with
  | WGToSGInitTileOpPattern.InitTile ty _ _ _ => ty
  | WGToSGInitTileOpPattern.InitTileScatter ty _ _ => ty
  end.

(** A value carrying the result of a created init-tile op. *)
Definition resultOf (o : WGToSGInitTileOpPattern.NewInitTileOp)
    (v : TypedValue) : Prop :=
  tvType v = TTile (typeOfNew o).

Definition pipe_tile (id : nat) : TypedValue :=
  mkTyped (OpResult id 0) (TTile (TileType_get [32; 32] F32)).

End PipelineStatements.

Section ConvertLayoutOffsetStatements.
Import WGToSGXeTileConvertLayout.
Local Open Scope Z_scope.

(** The offsets of the tile handles among the created ops, in creation
    order. *)
Definition tileOffsetsOf (ops : list EmittedOp)
  : list (IndexValue * IndexValue) :=
  ops ≫= (fun o => match o with
                   | xetile_InitTileOp _ _ x y => [(x, y)]
                   | _ => []
                   end).

(** The source map as the rule resolves it, for a source defined by [d]. *)
Definition srcMapAttrOf (op : ConvertLayoutOp) (d : DefOp)
  : Outcome (option WorkGroupMapAttr) :=
  if isTransposeOp d && hasOneUse d
  then getWorkGroupMapAttr (operand0Def d)
  else match wg_map_source op with
       | Some a => Success (Some a)
       | None => getWorkGroupMapAttr (Some (defInfo d))
       end.

(** Layout and data extents within the range of [int]. *)
Definition MapInRange (m : WorkGroupMapAttr) : Prop :=
  0 < (sgLayout m).2 < 2 ^ 31 /\
  0 <= (sgData m).1 < 2 ^ 31 /\ 0 <= (sgData m).2 < 2 ^ 31.

End ConvertLayoutOffsetStatements.

Section GatherStatements.

(** A value whose type is a tile of rank two or more. *)
Definition isTile (v : TypedValue) : Prop :=
  exists ty s0 s1 rest, tvType v = TTile ty /\ tShape ty = s0 :: s1 :: rest.

End GatherStatements.

(** * Properties *)

(** ** General facts *)

Lemma wrap_small (z : Z) : (0 <= z < 2 ^ 64)%Z -> wrap z = z.
Proof. intros H. unfold wrap, index_bitwidth. apply Z.mod_small. exact H. Qed.

Lemma to_int_small (z : Z) : (- 2 ^ 31 <= z < 2 ^ 31)%Z -> to_int z = z.
Proof. intros H. unfold to_int. rewrite Z.mod_small; lia. Qed.

Lemma mul_int_small (a b : Z) :
  (- 2 ^ 31 <= a * b < 2 ^ 31)%Z -> mul_int a b = (a * b)%Z.
Proof. apply to_int_small. Qed.

(** ** The subgroup coordinate of the init-tile rule *)

Section InitTileCoordinate.
Import WGToSGInitTileOpPattern.
Local Open Scope Z_scope.

(** C1, as stated, at sgLayout = [4, 8] and id = 9: for a result marked in
    the store the claim gives row 2 and column 1, but the rule feeds the row
    offsets with 9 mod 4 = 1 and the column offsets with 9 / 4 = 2. *)
Lemma C1_counterexample :
  (eval (env_of_id 9) (rowId c1_marked c1_op (4, 8)),
   eval (env_of_id 9) (colId c1_marked c1_op (4, 8))) <> (2, 1).
Proof. vm_compute. intros H. discriminate H. Qed.

(** C1 (amended): for a result that is not in the store the quotient and
    remainder of the id by sgLayout[1] are the row and the column
    coordinate; for a result in the store the divisor is sgLayout[0] and
    the roles are swapped: the remainder id mod sgLayout[0] is the row
    coordinate, the quotient id / sgLayout[0] the column coordinate.  At
    sgLayout = [4, 8], id = 9 the default split is (1, 1), the column-major
    split is (1, 2), and they differ. *)
Theorem C1_subgroup_coordinate (sgLayoutMap : LayoutMap) (op : InitTileOp)
    (L : Z * Z) (env : Env)
    (Hid : 0 <= envSubgroupId env < 2 ^ 64)
    (HL0 : 0 <= L.1 < 2 ^ 64) (HL1 : 0 <= L.2 < 2 ^ 64) :
  (sgLayoutMap !! getResult op = None ->
     rowId sgLayoutMap op L = sgIdY sgLayoutMap op L /\
     colId sgLayoutMap op L = sgIdX sgLayoutMap op L /\
     eval env (rowId sgLayoutMap op L) = envSubgroupId env / L.2 /\
     eval env (colId sgLayoutMap op L) = envSubgroupId env mod L.2) /\
  (is_Some (sgLayoutMap !! getResult op) ->
     rowId sgLayoutMap op L = sgIdX sgLayoutMap op L /\
     colId sgLayoutMap op L = sgIdY sgLayoutMap op L /\
     eval env (rowId sgLayoutMap op L) = envSubgroupId env mod L.1 /\
     eval env (colId sgLayoutMap op L) = envSubgroupId env / L.1) /\
  (eval (env_of_id 9) (rowId ∅ c1_op (4, 8)),
   eval (env_of_id 9) (colId ∅ c1_op (4, 8))) = (1, 1) /\
  (eval (env_of_id 9) (rowId c1_marked c1_op (4, 8)),
   eval (env_of_id 9) (colId c1_marked c1_op (4, 8))) = (1, 2) /\
  (1, 1) <> (1, 2).
Proof.
  split; [|split; [|split; [|split]]].
  - intros Hnone. unfold rowId, colId, sgIdX, sgIdY.
    destruct (decide (is_Some (sgLayoutMap !! getResult op))) as [Hs|_].
    { rewrite Hnone in Hs. destruct Hs as [? Hs]. discriminate Hs. }
    cbn [eval]. rewrite !wrap_small by assumption. repeat split; reflexivity.
  - intros Hsome. unfold rowId, colId, sgIdX, sgIdY.
    destruct (decide (is_Some (sgLayoutMap !! getResult op))) as [_|Hn];
      [|contradiction].
    cbn [eval]. rewrite !wrap_small by assumption. repeat split; reflexivity.
  - vm_compute. reflexivity.
  - vm_compute. reflexivity.
  - intros H. discriminate H.
Qed.

Lemma C1_subgroup_coordinate_witness :
  eval (env_of_id 9) (rowId c1_marked c1_op (4, 8)) = 9 mod 4 /\
  eval (env_of_id 9) (colId c1_marked c1_op (4, 8)) = 9 / 4.
Proof.
  assert (Hs : is_Some (c1_marked !! getResult c1_op)).
  { exists (0, 1). vm_compute. reflexivity. }
  exact (proj2 (proj2 (proj1 (proj2 (C1_subgroup_coordinate c1_marked c1_op (4, 8)
                         (env_of_id 9)
                         ltac:(simpl; lia) ltac:(simpl; lia) ltac:(simpl; lia)))
               Hs))).
Defined.

End InitTileCoordinate.

(** ** The constant rule *)

Section ArithConstant.
Import WGToSGArithConstantOpPattern.
Local Open Scope Z_scope.

(** C10: when the value of the constant is not a dense element array, the
    cast yields a null handle whose type is queried before the null check;
    the rule then ends in undefined behaviour and never in the decline of
    its [if (!value)] guard. *)
Theorem C10_constant_null_value (op : ConstantOp)
    (Hnull : dyn_cast_DenseElementsAttr (getValue op) = None) :
  matchAndRewrite op = Undefined /\ matchAndRewrite op <> Failure.
Proof.
  unfold matchAndRewrite. rewrite Hnull. cbn. split; [reflexivity|discriminate].
Qed.

Lemma C10_constant_null_value_witness :
  matchAndRewrite (mkConstantOp AOther (Some (mkWgMap (4, 8) (32, 32))))
    = Undefined /\
  matchAndRewrite (mkConstantOp AOther (Some (mkWgMap (4, 8) (32, 32))))
    <> Failure.
Proof.
  apply (C10_constant_null_value
           (mkConstantOp AOther (Some (mkWgMap (4, 8) (32, 32))))).
  reflexivity.
Defined.

End ArithConstant.

(** ** The transpose rule and the pass *)

Section TransposePass.
Import WGToSGVectorTranspose XeTileWgToSgPass.
Local Open Scope Z_scope.

Lemma transpose_rule_registered_once :
  filter (fun p => rootKind p = vector_TransposeOp) populateXeTileWgToSgPatterns
  = [P_WGToSGVectorTranspose].
Proof. vm_compute. reflexivity. Qed.

(** C9: a rank-2 [vector.transpose] with a map attribute whose result is
    not in the store makes the transpose rule decline; the op is illegal,
    the transpose rule is the only rule registered for its kind, and the
    pass fails on every program that contains it. *)
Theorem C9_unmarked_transpose_fails_pass
    (otherRules : Pattern -> Operation -> bool) (sgLayoutMap : LayoutMap)
    (op : TransposeOp) (adaptor : OpAdaptor)
    (isSupportedModule : bool) (program : list Operation)
    (Hrank : getVectorRank op = 2%nat)
    (Hmap : is_Some (getMapAttr op))
    (Hunmarked : sgLayoutMap !! getResult op = None)
    (Hin : VectorTranspose op adaptor ∈ program) :
  matchAndRewrite sgLayoutMap op adaptor = Failure /\
  isLegal (VectorTranspose op adaptor) = false /\
  filter (fun p => rootKind p = vector_TransposeOp)
    populateXeTileWgToSgPatterns = [P_WGToSGVectorTranspose] /\
  runOnOperation otherRules sgLayoutMap isSupportedModule program
    = PassFailure.
Proof.
  assert (Hdecl : matchAndRewrite sgLayoutMap op adaptor = Failure).
  { unfold matchAndRewrite. rewrite Hrank. destruct Hmap as [m Hm].
    rewrite Hm, Hunmarked. reflexivity. }
  assert (Hillegal : isLegal (VectorTranspose op adaptor) = false).
  { unfold isLegal. cbn. rewrite bool_decide_eq_true_2 by exact Hmap.
    reflexivity. }
  split; [exact Hdecl|]. split; [exact Hillegal|].
  split; [exact transpose_rule_registered_once|].
  unfold runOnOperation. destruct isSupportedModule; cbn; [|reflexivity].
  destruct (applyPartialConversion otherRules sgLayoutMap program) eqn:Happ;
    [|reflexivity].
  unfold applyPartialConversion in Happ.
  rewrite forallb_forall in Happ.
  apply list_elem_of_In in Hin. specialize (Happ _ Hin).
  unfold legalize in Happ. rewrite Hillegal in Happ. cbn [orb kindOf] in Happ.
  rewrite transpose_rule_registered_once in Happ.
  cbn in Happ. rewrite Hdecl in Happ. discriminate Happ.
Qed.

Lemma C9_unmarked_transpose_fails_pass_witness :
  runOnOperation (fun _ _ => true) ∅ true
    [VectorTranspose c9_op (mkAdaptor (OpResult 4 0))] = PassFailure.
Proof.
  refine (proj2 (proj2 (proj2
    (C9_unmarked_transpose_fails_pass (fun _ _ => true) ∅ c9_op
       (mkAdaptor (OpResult 4 0)) true
       [VectorTranspose c9_op (mkAdaptor (OpResult 4 0))] _ _ _ _)))).
  - reflexivity.
  - exists (mkWgMap (4, 8) (32, 32)). reflexivity.
  - reflexivity.
  - apply list_elem_of_here.
Defined.

End TransposePass.

(** ** The matrix-multiply rule *)

Section TileMMA.
Import WGToSGTileMMAOpPattern.
Local Open Scope Z_scope.

Lemma mmaRow_length op adaptor a bs i :
  length (mmaRow op adaptor a bs i) = length bs.
Proof. unfold mmaRow. apply length_imap. Qed.

Lemma mmaRow_cons op adaptor a b bs i :
  mmaRow op adaptor a (b :: bs) i =
  mkNewTileMMAOp (mkVectorType [rowsOf a; colsOf b] (vElem (getResultType op)))
    a b (if hasC op then getC adaptor !! i else None)
  :: mmaRow op adaptor a bs (S i).
Proof.
  unfold mmaRow. cbn [imap]. rewrite Nat.add_0_r. f_equal.
  apply imap_ext. intros j x _. cbn. rewrite Nat.add_succ_r. reflexivity.
Qed.

Lemma forB_spec op adaptor a bs :
  isMatrix a -> Forall isMatrix bs ->
  forall i,
    (hasC op = true -> (i + length bs <= length (getC adaptor))%nat) ->
    forB op adaptor a bs i =
    Success (mmaRow op adaptor a bs i,
             if hasC op then (i + length bs)%nat else i).
Proof.
  intros (ra & ca & ea & Ha) Hbs. induction Hbs as [|b bs Hb Hbs IH]; intros i HC.
  - cbn. destruct (hasC op); [rewrite Nat.add_0_r|]; reflexivity.
  - destruct Hb as (rb & cb & eb & Hb).
    rewrite mmaRow_cons. cbn [forB length] in *.
    assert (Hrows : rowsOf a = ra) by (unfold rowsOf; rewrite Ha; reflexivity).
    assert (Hcols : colsOf b = cb) by (unfold colsOf; rewrite Hb; reflexivity).
    destruct (hasC op) eqn:EC.
    + specialize (HC eq_refl).
      destruct (lookup_lt_is_Some_2 (getC adaptor) i ltac:(lia)) as [c Hc].
      unfold at_index. rewrite Hc, Ha, Hb. cbn.
      rewrite (IH (S i)) by (intros _; lia). cbn.
      rewrite Hrows, Hcols. repeat f_equal. lia.
    + unfold at_index. rewrite Ha, Hb. cbn.
      rewrite (IH i) by (intros HF; discriminate HF). cbn.
      rewrite Hrows, Hcols. unfold mmaRow. rewrite EC. reflexivity.
Qed.

Lemma forA_spec op adaptor as_ :
  Forall isMatrix as_ -> Forall isMatrix (getB adaptor) ->
  forall k,
    (hasC op = true ->
     ((k + length as_) * length (getB adaptor) <= length (getC adaptor))%nat) ->
    forA op adaptor as_
      (if hasC op then (k * length (getB adaptor))%nat else 0%nat) =
    Success (concat (imap (fun j a =>
                             mmaRow op adaptor a (getB adaptor)
                               ((k + j) * length (getB adaptor))%nat) as_)).
Proof.
  intros Has HB. induction Has as [|a as_ Ha Has IH]; intros k HC.
  - reflexivity.
  - cbn [forA imap concat].
    rewrite (forB_spec op adaptor a (getB adaptor) Ha HB).
    2:{ destruct (hasC op); [|intros HF; discriminate HF]. intros _.
        specialize (HC eq_refl). cbn [length] in HC. lia. }
    assert (Hnext : (if hasC op
                     then (if hasC op
                           then k * length (getB adaptor)
                           else 0) + length (getB adaptor)
                     else if hasC op
                          then k * length (getB adaptor)
                          else 0)%nat
                    = (if hasC op then S k * length (getB adaptor) else 0)%nat).
    { destruct (hasC op); [lia|reflexivity]. }
    unfold mbind at 1. unfold Outcome_bind at 1. cbv beta iota.
    rewrite Hnext. rewrite (IH (S k)).
    2:{ intros HT. specialize (HC HT). cbn [length] in HC. lia. }
    unfold mbind, Outcome_bind. cbv beta iota.
    f_equal. f_equal.
    + rewrite Nat.add_0_r.
      destruct (hasC op) eqn:EC; [reflexivity|].
      unfold mmaRow. rewrite EC. reflexivity.
    + f_equal. apply imap_ext. intros j x _. unfold compose.
      replace (k + S j)%nat with (S k + j)%nat by lia. reflexivity.
Qed.

Lemma length_concat_imap {A B} (f : nat -> A -> list B) (n : nat) (l : list A) :
  (forall k a, length (f k a) = n) ->
  length (concat (imap f l)) = (length l * n)%nat.
Proof.
  revert f. induction l as [|a l IH]; intros f Hf; [reflexivity|].
  cbn [imap concat length]. rewrite length_app, Hf.
  rewrite (IH (f ∘ S)) by (intros; apply Hf). lia.
Qed.

Lemma lookup_concat_imap_row {A B} (f : nat -> A -> list B) (n : nat)
    (l : list A) (i j : nat) (a : A) (y : B) :
  l !! i = Some a ->
  (forall k x, length (f k x) = n) ->
  f i a !! j = Some y ->
  concat (imap f l) !! (i * n + j)%nat = Some y.
Proof.
  revert f i. induction l as [|x l IH]; intros f i Hi Hlen Hj.
  - rewrite lookup_nil in Hi. discriminate Hi.
  - cbn [imap concat]. destruct i as [|i].
    + cbn in Hi. injection Hi as ->. cbn [Nat.mul Nat.add].
      rewrite lookup_app_l; [exact Hj|].
      apply lookup_lt_Some in Hj. exact Hj.
    + cbn in Hi. rewrite lookup_app_r by (rewrite Hlen; lia).
      rewrite Hlen. replace (S i * n + j - n)%nat with (i * n + j)%nat by lia.
      apply (IH (f ∘ S) i Hi); [intros; apply Hlen|exact Hj].
Qed.

Lemma mmaProduct_length op adaptor :
  length (mmaProduct op adaptor)
  = (length (getA adaptor) * length (getB adaptor))%nat.
Proof.
  unfold mmaProduct. apply length_concat_imap.
  intros k a. apply mmaRow_length.
Qed.

(** C5: with the left operand decomposed into m tiles and the right into n,
    the rule creates exactly m * n matmuls, one per pair in product order
    (left operand outermost), each of result shape rows(A_i) x cols(B_j);
    two left tiles and three right tiles without accumulator give six. *)
Theorem C5_mma_cartesian_product (op : TileMMAOp) (adaptor : OneToNOpAdaptor)
    (Hrank : length (vShape (getResultType op)) = 2%nat)
    (HA : Forall isMatrix (getA adaptor))
    (HB : Forall isMatrix (getB adaptor))
    (HC : hasC op = true ->
          (length (getA adaptor) * length (getB adaptor)
           <= length (getC adaptor))%nat) :
  matchAndRewrite op adaptor = Success (mmaProduct op adaptor) /\
  length (mmaProduct op adaptor)
    = (length (getA adaptor) * length (getB adaptor))%nat /\
  (forall i j a b,
     getA adaptor !! i = Some a -> getB adaptor !! j = Some b ->
     exists new,
       mmaProduct op adaptor !! (i * length (getB adaptor) + j)%nat = Some new /\
       newA new = a /\ newB new = b /\
       vShape (newResultType new) = [rowsOf a; colsOf b]) /\
  (hasC op = false -> length (getA adaptor) = 2%nat ->
   length (getB adaptor) = 3%nat -> length (mmaProduct op adaptor) = 6%nat).
Proof.
  split; [|split; [apply mmaProduct_length|split]].
  - unfold matchAndRewrite. rewrite Hrank.
    destruct (decide (2%nat <> 2%nat)) as [Hne|_]; [contradiction|].
    pose proof (forA_spec op adaptor (getA adaptor) HA HB 0%nat) as H.
    cbn [Nat.mul Nat.add] in H.
    assert (H0 : (if hasC op then 0%nat else 0%nat) = 0%nat)
      by (destruct (hasC op); reflexivity).
    rewrite H0 in H. rewrite H; [reflexivity|]. exact HC.
  - intros i j a b Hi Hj. unfold mmaProduct.
    eexists. split.
    + eapply lookup_concat_imap_row; [exact Hi| |].
      * intros k x. apply mmaRow_length.
      * unfold mmaRow. rewrite list_lookup_imap, Hj. reflexivity.
    + cbn. auto.
  - intros _ H2 H3. rewrite mmaProduct_length, H2, H3. reflexivity.
Qed.

Lemma C5_mma_cartesian_product_witness :
  matchAndRewrite c5_op c5_adaptor = Success (mmaProduct c5_op c5_adaptor) /\
  length (mmaProduct c5_op c5_adaptor) = 6%nat.
Proof.
  assert (HM : forall id r c, isMatrix (c5_tile id r c)).
  { intros id r c. exists r, c, F16. reflexivity. }
  destruct (C5_mma_cartesian_product c5_op c5_adaptor) as (H1 & _ & _ & H6).
  - reflexivity.
  - repeat constructor; apply HM.
  - repeat constructor; apply HM.
  - intros HF. discriminate HF.
  - split; [exact H1|]. apply H6; reflexivity.
Defined.

End TileMMA.

(** ** The loop rule *)

Section SCFFor.
Import WGToSGSCFForOpPattern.

Lemma addInputs_from_spec (remapped : list (list TypedValue)) (count i : nat) :
  (1 <= i)%nat -> (i - 1 + count <= length remapped)%nat ->
  addInputs_from remapped i count
  = Success (map (map tvType) (take count (drop (i - 1) remapped))).
Proof.
  revert i. induction count as [|count IH]; intros i Hi Hlen.
  - reflexivity.
  - cbn [addInputs_from].
    destruct (lookup_lt_is_Some_2 remapped (i - 1) ltac:(lia)) as [x Hx].
    unfold at_index. rewrite Hx. cbn.
    rewrite (IH (S i)) by lia. cbn.
    rewrite (drop_S _ _ _ Hx). cbn.
    replace (i - 0)%nat with (S (i - 1)) by lia. reflexivity.
Qed.

Lemma remapResults_spec (results : list Value) (sizes : list nat) :
  forall offset,
    (offset + sum_list sizes <= length results)%nat ->
    exists groups,
      remapResults results sizes offset = Success groups /\
      length <$> groups = sizes /\
      concat groups = take (sum_list sizes) (drop offset results).
Proof.
  induction sizes as [|n sizes IH]; intros offset Hlen.
  - exists []. repeat split.
  - simpl in Hlen.
    destruct (IH (offset + n)%nat ltac:(lia)) as (groups & Hg & Hl & Hc).
    exists (take n (drop offset results) :: groups).
    cbn [remapResults]. unfold slice.
    destruct (decide (offset + n <= length results)%nat) as [_|Hn]; [|lia].
    cbn. rewrite Hg. cbn. split; [reflexivity|]. split.
    + rewrite Hl. f_equal. rewrite length_take, length_drop. lia.
    + rewrite Hc. simpl sum_list_with. cbn [concat].
      rewrite <- (drop_drop results n offset). apply take_take_drop.
Qed.

(** C6: with the loop-carried values remapped to lists of sizes k1..kn, the
    new loop has k1 + ... + kn flat init args, its body has one more
    argument (the induction variable), and its results are cut into
    consecutive groups of sizes k1..kn, in the order of the original
    values; sizes 3 and 1 give 4 init args and groups of 3 and 1. *)
Theorem C6_for_flatten_and_regroup (freshId : nat) (op : ForOp)
    (adaptor : OneToNOpAdaptor)
    (Hargs : length (getBodyArgumentTypes op)
             = S (length (getInitArgs adaptor))) :
  exists newForOp groups,
    matchAndRewrite freshId op adaptor = Success (newForOp, groups) /\
    newInitArgs newForOp = concat (getInitArgs adaptor) /\
    length (newInitArgs newForOp) = sum_list (length <$> getInitArgs adaptor) /\
    length (newBodyArgumentTypes newForOp)
      = S (sum_list (length <$> getInitArgs adaptor)) /\
    length <$> groups = length <$> getInitArgs adaptor /\
    concat groups = getResults newForOp /\
    (length <$> getInitArgs adaptor = [3; 1]%nat ->
     length (newInitArgs newForOp) = 4%nat /\ length <$> groups = [3; 1]%nat).
Proof.
  unfold matchAndRewrite, signatureConversion, remappedArgSizes,
    flattenedRemappedInitArgs.
  destruct (getBodyArgumentTypes op) as [|t0 tys] eqn:Etys;
    [cbn in Hargs; lia|].
  cbn [length] in Hargs. injection Hargs as Hargs.
  unfold at_index. cbn [lookup list_lookup deref mbind Outcome_bind].
  rewrite addInputs_from_spec by (cbn; lia).
  cbn [mbind Outcome_bind].
  replace (length (t0 :: tys) - 1)%nat with (length (getInitArgs adaptor))
    by (cbn [length]; lia).
  cbn [Nat.sub]. rewrite drop_0, firstn_all.
  set (flat := concat (getInitArgs adaptor)).
  set (body := concat ([t0] :: map (map tvType) (getInitArgs adaptor))).
  assert (Hflat : length flat = sum_list (length <$> getInitArgs adaptor)).
  { unfold flat. rewrite length_concat. reflexivity. }
  destruct (remapResults_spec (getResults (mkNewForOp freshId flat body))
              (length <$> getInitArgs adaptor) 0) as (groups & Hg & Hl & Hc).
  { unfold getResults. cbn. rewrite length_fmap, length_seq. lia. }
  exists (mkNewForOp freshId flat body), groups.
  rewrite Hg. cbn [mbind Outcome_bind newInitArgs newBodyArgumentTypes].
  split; [reflexivity|]. split; [reflexivity|]. split; [exact Hflat|].
  split; [|split; [exact Hl|split]].
  - unfold body. cbn [concat]. cbn [length app]. f_equal.
    rewrite length_concat. f_equal.
    rewrite <- list_fmap_compose. apply list_fmap_ext.
    intros i x _. cbn. apply length_map.
  - rewrite Hc. cbn [drop]. rewrite <- Hflat.
    apply take_ge. unfold getResults. cbn.
    rewrite length_fmap, length_seq. lia.
  - intros Hs. rewrite Hflat, Hl, Hs. split; reflexivity.
Qed.

Lemma C6_for_flatten_and_regroup_witness :
  exists newForOp groups,
    matchAndRewrite 9 c6_op c6_adaptor = Success (newForOp, groups) /\
    length (newInitArgs newForOp) = 4%nat /\
    length <$> groups = [3; 1]%nat.
Proof.
  destruct (C6_for_flatten_and_regroup 9 c6_op c6_adaptor eq_refl)
    as (f & g & Hm & _ & _ & _ & _ & _ & Hex).
  exists f, g. split; [exact Hm|]. apply Hex. reflexivity.
Defined.

End SCFFor.

(** ** The elementwise rule *)

Section ElementWise.
Import WGToSGElementWiseOpSameArgAndResultTypePattern.
Local Open Scope Z_scope.

Lemma computeNumOps_spec (wg0 wg1 : Z) (L D : Z * Z) :
  0 <= wg0 -> 0 <= wg1 -> 0 < L.1 -> 0 < L.2 -> 0 < D.1 -> 0 < D.2 ->
  L.1 * D.1 < 2 ^ 31 -> L.2 * D.2 < 2 ^ 31 ->
  L.2 * D.1 < 2 ^ 31 -> L.1 * D.2 < 2 ^ 31 ->
  computeNumOps [wg0; wg1] L D = Success (numOpsSpec wg0 wg1 L D).
Proof.
  intros Hw0 Hw1 HL0 HL1 HD0 HD1 H00 H11 H10 H01.
  unfold computeNumOps, numOpsSpec, at_index.
  rewrite !mul_int_small by nia.
  cbn [lookup list_lookup deref mbind Outcome_bind].
  repeat (match goal with
          | |- context [decide ?P] => destruct (decide P)
          end; cbn [mbind Outcome_bind]); try reflexivity; try tauto; try nia.
  rewrite !Z.quot_div_nonneg by nia. reflexivity.
Qed.

Lemma createOp_spec (operand : list (list TypedValue)) (i : nat) :
  Forall (fun o => (i < length o)%nat) operand ->
  exists vs, createOp operand i = Success vs /\
             Forall2 (fun o v => o !! i = Some v) operand vs.
Proof.
  induction 1 as [|o operand Ho _ IH].
  - exists []. split; [reflexivity|constructor].
  - destruct IH as (vs & Hvs & HF).
    destruct (lookup_lt_is_Some_2 o i Ho) as [v Hv].
    exists (v :: vs). cbn [createOp]. unfold at_index. rewrite Hv. cbn.
    rewrite Hvs. cbn. split; [reflexivity|]. constructor; assumption.
Qed.

Lemma createOps_spec (operand : list (list TypedValue)) (newTy : VectorType)
    (count : nat) :
  forall i,
    Forall (fun o => (i + count <= length o)%nat) operand ->
    exists ops,
      createOps operand newTy i count = Success ops /\
      length ops = count /\
      forall k, (k < count)%nat ->
        exists new, ops !! k = Some new /\ newResultType new = newTy /\
          Forall2 (fun o v => o !! (i + k)%nat = Some v) operand (newOperands new).
Proof.
  induction count as [|count IH]; intros i Hlen.
  - exists []. split; [reflexivity|]. split; [reflexivity|]. intros k Hk. lia.
  - destruct (createOp_spec operand i) as (vs & Hvs & HF).
    { eapply Forall_impl; [exact Hlen|]. cbn. intros; lia. }
    destruct (IH (S i)) as (ops & Hops & Hl & Hk).
    { eapply Forall_impl; [exact Hlen|]. cbn. intros; lia. }
    exists (mkNewOp vs newTy :: ops). cbn [createOps]. rewrite Hvs. cbn.
    rewrite Hops. cbn. split; [reflexivity|]. split; [rewrite Hl; reflexivity|].
    intros [|k] Hlt.
    + exists (mkNewOp vs newTy). cbn. rewrite Nat.add_0_r. auto.
    + destruct (Hk k ltac:(lia)) as (new & Hnew & Hty & Hop).
      exists new. cbn. split; [exact Hnew|]. split; [exact Hty|].
      replace (i + S k)%nat with (S i + k)%nat by lia. exact Hop.
Qed.

(** C8, as stated, at wgShape 131072x196614, sgLayout [1,65538] and sgData
    [65536,1]: no product of a layout and a data entry equals an extent,
    so the claim gives 131072 / 65536 + 196614 / 65538 = 5 instances; but
    the rule multiplies in [int], 65538 * 65536 wraps around to 131072 =
    wgShape[0], the third test holds and the rule creates one instance. *)
Lemma C8_counterexample :
  numOpsSpec 131072 196614 (1, 65538) (65536, 1) = 5 /\
  exists ops,
    matchAndRewrite 1 c8_wide_op c8_wide_adaptor = Success ops /\
    length ops = 1%nat.
Proof.
  split; [vm_compute; reflexivity|].
  eexists. split; [vm_compute; reflexivity|reflexivity].
Qed.

(** C8 (amended): for a same-shape elementwise op with a map attribute
    whose four products sgLayout[i] * sgData[j] fit in a 32-bit [int] (the
    rule takes them in [int]), the rule creates one instance when sgLayout
    x sgData matches the workgroup shape on either axis (also with the two
    axes of sgLayout swapped), and otherwise wgShape[0] / (sgLayout[0] *
    sgData[0]) + wgShape[1] / (sgLayout[1] * sgData[1]) instances (a sum);
    instance i takes entry i of every remapped operand and its result type
    is set to the sgData shape. *)
Theorem C8_elementwise_instances (numOperands : nat) (op : ElementWiseOp)
    (adaptor : OneToNOpAdaptor) (mapAttr : WorkGroupMapAttr)
    (resTy : VectorType) (wg0 wg1 : Z)
    (Hmap : getMapAttr op = Some mapAttr)
    (Hty : getResultType op = TVector resTy)
    (Hshape : vShape resTy = [wg0; wg1])
    (Hwg0 : 0 <= wg0 < 2 ^ 62) (Hwg1 : 0 <= wg1 < 2 ^ 62)
    (HL0 : 0 < (sgLayout mapAttr).1) (HL1 : 0 < (sgLayout mapAttr).2)
    (HD0 : 0 < (sgData mapAttr).1) (HD1 : 0 < (sgData mapAttr).2)
    (Hint00 : (sgLayout mapAttr).1 * (sgData mapAttr).1 < 2 ^ 31)
    (Hint11 : (sgLayout mapAttr).2 * (sgData mapAttr).2 < 2 ^ 31)
    (Hint10 : (sgLayout mapAttr).2 * (sgData mapAttr).1 < 2 ^ 31)
    (Hint01 : (sgLayout mapAttr).1 * (sgData mapAttr).2 < 2 ^ 31)
    (Hnum : (1 <= numOperands <= 3)%nat)
    (Harity : length (getOperands adaptor) = numOperands)
    (Hslices :
       Forall (fun o => numOpsSpec wg0 wg1 (sgLayout mapAttr) (sgData mapAttr)
                        <= Z.of_nat (length o)) (getOperands adaptor)) :
  exists ops,
    matchAndRewrite numOperands op adaptor = Success ops /\
    Z.of_nat (length ops)
      = numOpsSpec wg0 wg1 (sgLayout mapAttr) (sgData mapAttr) /\
    forall i, (i < length ops)%nat ->
      exists new, ops !! i = Some new /\
        newResultType new
          = mkVectorType [(sgData mapAttr).1; (sgData mapAttr).2] (vElem resTy) /\
        Forall2 (fun o v => o !! i = Some v) (getOperands adaptor)
                (newOperands new).
Proof.
  set (n := numOpsSpec wg0 wg1 (sgLayout mapAttr) (sgData mapAttr)) in *.
  assert (Hn : 0 <= n < 2 ^ 64).
  { unfold n, numOpsSpec.
    destruct (decide _); [lia|].
    assert (0 <= wg0 / ((sgLayout mapAttr).1 * (sgData mapAttr).1) <= wg0).
    { split; [apply Z.div_pos; nia|]. apply Z.div_le_upper_bound; nia. }
    assert (0 <= wg1 / ((sgLayout mapAttr).2 * (sgData mapAttr).2) <= wg1).
    { split; [apply Z.div_pos; nia|]. apply Z.div_le_upper_bound; nia. }
    lia. }
  assert (Hslice : operandSlices numOperands (getOperands adaptor)
                   = Success (getOperands adaptor)).
  { unfold operandSlices, at_index.
    destruct (getOperands adaptor) as [|o0 [|o1 [|o2 [|o3 os]]]];
      cbn [length] in Harity; subst numOperands; try lia; reflexivity. }
  unfold matchAndRewrite. rewrite Hmap, Hty. cbn [dyn_cast_VectorType deref].
  cbn [mbind Outcome_bind]. rewrite Hslice. cbn [mbind Outcome_bind].
  rewrite Hshape, computeNumOps_spec by lia. cbn [mbind Outcome_bind].
  fold n. unfold to_size_t. rewrite Z.mod_small by exact Hn.
  destruct (createOps_spec (getOperands adaptor)
              (mkVectorType [(sgData mapAttr).1; (sgData mapAttr).2] (vElem resTy))
              (Z.to_nat n) 0%nat) as (ops & Hops & Hlen & Hk).
  { eapply Forall_impl; [exact Hslices|]. cbn. intros o Ho. lia. }
  exists ops. split; [exact Hops|]. split; [rewrite Hlen; lia|].
  intros i Hi. rewrite Hlen in Hi. exact (Hk i Hi).
Qed.

Lemma C8_elementwise_instances_witness :
  exists ops, matchAndRewrite 2 c8_op c8_adaptor = Success ops /\
              Z.of_nat (length ops) = 6.
Proof.
  destruct (C8_elementwise_instances 2 c8_op c8_adaptor
              (mkWgMap (2, 1) (32, 16)) (mkVectorType [128; 64] F16) 128 64)
    as (ops & Hops & Hlen & _).
  - reflexivity.
  - reflexivity.
  - reflexivity.
  - lia.
  - lia.
  - simpl; lia.
  - simpl; lia.
  - simpl; lia.
  - simpl; lia.
  - simpl; lia.
  - simpl; lia.
  - simpl; lia.
  - simpl; lia.
  - lia.
  - reflexivity.
  - repeat constructor; vm_compute; discriminate.
  - exists ops. split; [exact Hops|]. rewrite Hlen. vm_compute. reflexivity.
Defined.

End ElementWise.

(** ** The layout-conversion rule *)

Section ConvertLayout.
Import WGToSGXeTileConvertLayout.
Local Open Scope Z_scope.



Lemma createIndexConstant_log (z : Z) (log : list EmittedOp) :
  createIndexConstant z log = (IVConst z, log ++ [arith_ConstantIndexOp z]).
Proof. reflexivity. Qed.










End ConvertLayout.

(** ** The transpose analysis *)

Section TransposeAnalysis.
Import Analysis.
Local Open Scope Z_scope.

Lemma markInitOp_lookup (m : LayoutMap) (i : nat) (v : Value) :
  markInitOp m i !! v
  = if decide (v = OpResult i 0) then toggled (m !! v) else m !! v.
Proof.
  unfold markInitOp.
  destruct (decide (is_Some (m !! OpResult i 0))) as [[t Ht]|Hn].
  - destruct (decide (v = OpResult i 0)) as [->|Hne].
    + rewrite lookup_delete_eq, Ht. reflexivity.
    + rewrite lookup_delete_ne by congruence. reflexivity.
  - destruct (decide (v = OpResult i 0)) as [->|Hne].
    + rewrite lookup_insert_eq.
      destruct (m !! OpResult i 0) as [t|] eqn:E; [|reflexivity].
      exfalso. apply Hn. exists t. reflexivity.
    + rewrite lookup_insert_ne by congruence. reflexivity.
Qed.

Lemma markInitOps_other (initOps : list nat) (m : LayoutMap) (v : Value) :
  (forall i, i ∈ initOps -> v <> OpResult i 0) ->
  markInitOps m initOps !! v = m !! v.
Proof.
  revert m. induction initOps as [|i initOps IH]; intros m Hv; [reflexivity|].
  unfold markInitOps in *. cbn [foldl].
  rewrite IH by (intros j Hj; apply Hv; right; exact Hj).
  rewrite markInitOp_lookup.
  destruct (decide (v = OpResult i 0)) as [E|_]; [|reflexivity].
  exfalso. apply (Hv i); [left|exact E].
Qed.

Lemma markInitOps_visited (initOps : list nat) (m : LayoutMap) (i : nat) :
  NoDup initOps -> i ∈ initOps ->
  markInitOps m initOps !! OpResult i 0 = toggled (m !! OpResult i 0).
Proof.
  revert m. induction initOps as [|j initOps IH]; intros m Hnd Hi.
  - inversion Hi.
  - apply NoDup_cons in Hnd as [Hj Hnd].
    unfold markInitOps in *. cbn [foldl].
    apply elem_of_cons in Hi as [->|Hi].
    + fold (markInitOps (markInitOp m j) initOps).
      rewrite markInitOps_other.
      * rewrite markInitOp_lookup.
        destruct (decide (OpResult j 0 = OpResult j 0)); [reflexivity|congruence].
      * intros k Hk E. injection E as ->. contradiction.
    + rewrite (IH _ Hnd Hi). rewrite markInitOp_lookup.
      destruct (decide (OpResult i 0 = OpResult j 0)) as [E|_]; [|reflexivity].
      injection E as ->. contradiction.
Qed.

Lemma forLoadOps_spec (fuel : nat) (ir : IR) (transposeId : nat)
    (loadOps : list nat) (initOpss : list (list nat)) :
  Forall2 (loadTrace fuel ir) loadOps initOpss ->
  NoDup (concat initOpss) ->
  transposeId ∉ concat initOpss ->
  forall m,
  exists m',
    forLoadOps fuel ir transposeId loadOps m = Success m' /\
    (concat initOpss <> [] -> m' !! OpResult transposeId 0 = Some (0, 1)) /\
    (m !! OpResult transposeId 0 = Some (0, 1) ->
     m' !! OpResult transposeId 0 = Some (0, 1)) /\
    (forall i, i ∈ concat initOpss ->
       m' !! OpResult i 0 = toggled (m !! OpResult i 0)) /\
    (forall v, v <> OpResult transposeId 0 ->
       (forall i, i ∈ concat initOpss -> v <> OpResult i 0) ->
       m' !! v = m !! v).
Proof.
  induction 1 as [|ld initOps loadOps initOpss Htrace _ IH]; intros Hnd Ht m.
  - exists m. split; [reflexivity|]. split; [intros H; contradiction|].
    split; [tauto|].
    split; [intros i Hi; inversion Hi|]. intros; reflexivity.
  - cbn [concat] in *.
    apply NoDup_app in Hnd as (Hnd1 & Hdisj & Hnd2).
    apply not_elem_of_app in Ht as [Ht1 Ht2].
    destruct Htrace as (loadOp & loadSource & Hld & Hsrc & Hfind).
    cbn [forLoadOps]. unfold at_index. rewrite Hld. cbn [deref mbind Outcome_bind].
    rewrite Hsrc. cbn [deref mbind Outcome_bind]. rewrite Hfind.
    cbn [mbind Outcome_bind].
    destruct initOps as [|i0 initOps].
    + destruct (IH Hnd2 Ht2 m) as (m' & Hm' & Hres & Hkeep & Hin & Hout).
      exists m'. cbn [app]. repeat split; assumption.
    + set (inits := i0 :: initOps) in *.
      set (m1 := markInitOps (<[OpResult transposeId 0 := (0, 1)]> m) inits).
      destruct (IH Hnd2 Ht2 m1) as (m' & Hm' & Hres & Hkeep & Hin & Hout).
      assert (Hm1_res : m1 !! OpResult transposeId 0 = Some (0, 1)).
      { unfold m1. rewrite markInitOps_other.
        - apply lookup_insert_eq.
        - intros i Hi E. injection E as ->. contradiction. }
      assert (Hm1_in : forall i, i ∈ inits ->
                 m1 !! OpResult i 0 = toggled (m !! OpResult i 0)).
      { intros i Hi. unfold m1. rewrite markInitOps_visited by assumption.
        rewrite lookup_insert_ne; [reflexivity|].
        intros E. injection E as ->. contradiction. }
      assert (Hm1_out : forall v, v <> OpResult transposeId 0 ->
                 (forall i, i ∈ inits -> v <> OpResult i 0) ->
                 m1 !! v = m !! v).
      { intros v Hv Hni. unfold m1. rewrite markInitOps_other by exact Hni.
        rewrite lookup_insert_ne by congruence. reflexivity. }
      exists m'. split; [exact Hm'|].
      split; [intros _; exact (Hkeep Hm1_res)|].
      split; [intros _; exact (Hkeep Hm1_res)|]. split.
      * intros i Hi. apply elem_of_app in Hi as [Hi|Hi].
        -- rewrite Hout; [apply Hm1_in; exact Hi| |].
           ++ intros E. injection E as ->. contradiction.
           ++ intros j Hj E. injection E as ->. exact (Hdisj _ Hi Hj).
        -- rewrite (Hin i Hi). f_equal. apply Hm1_out.
           ++ intros E. injection E as ->. contradiction.
           ++ intros j Hj E. injection E as ->. exact (Hdisj _ Hj Hi).
      * intros v Hv Hni. rewrite Hout.
        -- apply Hm1_out; [exact Hv|].
           intros i Hi. apply Hni. apply elem_of_app. left. exact Hi.
        -- exact Hv.
        -- intros i Hi. apply Hni. apply elem_of_app. right. exact Hi.
Qed.

Lemma findOps_loop_names (ir : IR) (OpType : OpName) (fuel : nat) :
  forall worklist visited matchedOps res,
    findOps_loop fuel ir OpType worklist visited matchedOps = Success res ->
    Forall (hasName ir OpType) matchedOps ->
    Forall (hasName ir OpType) res.
Proof.
  induction fuel as [|fuel IH]; intros worklist visited matchedOps res Hrun Hm.
  - destruct worklist; cbn in Hrun; [|discriminate Hrun].
    injection Hrun as <-. exact Hm.
  - destruct worklist as [|current worklist].
    { cbn in Hrun. injection Hrun as <-. exact Hm. }
    cbn [findOps_loop] in Hrun.
    destruct (decide (current ∈ visited)); [exact (IH _ _ _ _ Hrun Hm)|].
    match type of Hrun with
    | mbind _ ?c = _ => destruct c as [current'| | |]; try discriminate Hrun
    end.
    cbn [mbind Outcome_bind] in Hrun.
    destruct (getDefiningOp ir current') as [[id defOp]|] eqn:Edef;
      [|exact (IH _ _ _ _ Hrun Hm)].
    apply (IH _ _ _ _ Hrun).
    destruct (decide (opName defOp = OpType)) as [Hn|_]; [|exact Hm].
    apply Forall_app. split; [exact Hm|]. constructor; [|constructor].
    exists defOp. split; [|exact Hn].
    unfold getDefiningOp in Edef. destruct current' as [owner idx|]; [|discriminate Edef].
    destruct (ir !! owner) as [o|] eqn:Eo; cbn in Edef; [|discriminate Edef].
    injection Edef as <- <-. exact Eo.
Qed.

Lemma loadTrace_names (fuel : nat) (ir : IR) (loadOps : list nat)
    (initOpss : list (list nat)) :
  Forall2 (loadTrace fuel ir) loadOps initOpss ->
  Forall (hasName ir xetile_init_tile) (concat initOpss).
Proof.
  induction 1 as [|ld initOps loadOps initOpss Htrace _ IH]; [constructor|].
  cbn [concat]. apply Forall_app. split; [|exact IH].
  destruct Htrace as (loadOp & loadSource & _ & _ & Hfind).
  unfold findOps in Hfind.
  refine (findOps_loop_names _ _ _ _ _ _ _ Hfind _). constructor.
Qed.

Lemma getPreLoopValue_fuel (ir : IR) (fuel : nat) :
  forall fuel' val r,
    getPreLoopValue fuel ir val = Success r -> (fuel <= fuel')%nat ->
    getPreLoopValue fuel' ir val = Success r.
Proof.
  induction fuel as [|fuel IH]; intros fuel' val r Hrun Hle.
  - destruct val as [o i|parent argIndex].
    + destruct fuel'; exact Hrun.
    + destruct fuel' as [|fuel'']; [exact Hrun|].
      cbn [getPreLoopValue] in *.
      destruct (ir !! parent) as [parentOp|]; [|discriminate Hrun].
      cbn [deref mbind Outcome_bind] in *.
      destruct (decide (opName parentOp = scf_for)); [|exact Hrun].
      destruct (decide _); [discriminate Hrun|exact Hrun].
  - destruct fuel' as [|fuel'']; [lia|].
    destruct val as [o i|parent argIndex]; [exact Hrun|].
    cbn [getPreLoopValue] in *.
    destruct (ir !! parent) as [parentOp|]; [|discriminate Hrun].
    cbn [deref mbind Outcome_bind] in *.
    destruct (decide (opName parentOp = scf_for)); [|exact Hrun].
    destruct (decide _); [|exact Hrun].
    destruct (at_index (getInitArgs parentOp) _) as [v| | |];
      try discriminate Hrun.
    cbn [mbind Outcome_bind] in *. apply (IH fuel'' v r Hrun). lia.
Qed.

Lemma findOps_loop_fuel (ir : IR) (OpType : OpName) (fuel : nat) :
  forall fuel' worklist visited matchedOps res,
    findOps_loop fuel ir OpType worklist visited matchedOps = Success res ->
    (fuel <= fuel')%nat ->
    findOps_loop fuel' ir OpType worklist visited matchedOps = Success res.
Proof.
  induction fuel as [|fuel IH]; intros fuel' worklist visited matchedOps res Hrun Hle.
  - destruct worklist; cbn in Hrun; [|discriminate Hrun].
    destruct fuel'; exact Hrun.
  - destruct fuel' as [|fuel'']; [lia|].
    destruct worklist as [|current worklist]; [exact Hrun|].
    cbn [findOps_loop] in *.
    destruct (decide (current ∈ visited)); [apply (IH _ _ _ _ _ Hrun); lia|].
    assert (Hcur : forall c,
               match current with
               | BlockArgument _ _ => getPreLoopValue (S fuel) ir current
               | OpResult _ _ => Success current
               end = Success c ->
               match current with
               | BlockArgument _ _ => getPreLoopValue (S fuel'') ir current
               | OpResult _ _ => Success current
               end = Success c).
    { intros c Hc. destruct current; [exact Hc|].
      apply (getPreLoopValue_fuel ir (S fuel) (S fuel'') _ _ Hc). lia. }
    match type of Hrun with
    | mbind _ ?c = _ => destruct c as [current'| | |] eqn:Ec;
                          try discriminate Hrun
    end.
    rewrite (Hcur current' eq_refl).
    cbn [mbind Outcome_bind] in *.
    destruct (getDefiningOp ir current') as [[id defOp]|];
      apply (IH _ _ _ _ _ Hrun); lia.
Qed.

Lemma loadTrace_fuel (ir : IR) (fuel fuel' : nat) (ld : nat)
    (initOps : list nat) :
  (fuel <= fuel')%nat -> loadTrace fuel ir ld initOps ->
  loadTrace fuel' ir ld initOps.
Proof.
  intros Hle (loadOp & loadSource & Hld & Hsrc & Hfind).
  exists loadOp, loadSource. split; [exact Hld|]. split; [exact Hsrc|].
  unfold findOps in *. exact (findOps_loop_fuel _ _ _ _ _ _ _ _ Hfind Hle).
Qed.

Lemma markInitOps_toggles (initOps : list nat) :
  forall (m : LayoutMap) (i : nat),
    markInitOps m initOps !! OpResult i 0
    = Nat.iter (count_occ Nat.eq_dec initOps i) toggled (m !! OpResult i 0).
Proof.
  unfold markInitOps.
  induction initOps as [|j initOps IH]; intros m i; [reflexivity|].
  cbn [foldl count_occ]. rewrite IH, markInitOp_lookup.
  destruct (Nat.eq_dec j i) as [->|Hne].
  - destruct (decide (OpResult i 0 = OpResult i 0)); [|congruence].
    rewrite Nat.iter_succ_r. reflexivity.
  - destruct (decide (OpResult i 0 = OpResult j 0)) as [E|_]; [|reflexivity].
    injection E as ->. contradiction.
Qed.

(** The loop over the loads in general: every tile-init is toggled once
    for each time it is found. *)
Lemma forLoadOps_toggles (fuel : nat) (ir : IR) (transposeId : nat)
    (loadOps : list nat) (initOpss : list (list nat)) :
  Forall2 (loadTrace fuel ir) loadOps initOpss ->
  transposeId ∉ concat initOpss ->
  forall m,
  exists m',
    forLoadOps fuel ir transposeId loadOps m = Success m' /\
    (concat initOpss <> [] -> m' !! OpResult transposeId 0 = Some (0, 1)) /\
    (concat initOpss = [] -> m' = m) /\
    (m !! OpResult transposeId 0 = Some (0, 1) ->
     m' !! OpResult transposeId 0 = Some (0, 1)) /\
    (forall i, i <> transposeId ->
       m' !! OpResult i 0
       = Nat.iter (count_occ Nat.eq_dec (concat initOpss) i) toggled
           (m !! OpResult i 0)) /\
    (forall v, v <> OpResult transposeId 0 ->
       (forall i, i ∈ concat initOpss -> v <> OpResult i 0) ->
       m' !! v = m !! v).
Proof.
  induction 1 as [|ld initOps loadOps initOpss Htrace _ IH]; intros Ht m.
  - exists m. split; [reflexivity|]. split; [intros H; contradiction|].
    split; [reflexivity|]. split; [tauto|]. split; intros; reflexivity.
  - cbn [concat] in *.
    apply not_elem_of_app in Ht as [Ht1 Ht2].
    destruct Htrace as (loadOp & loadSource & Hld & Hsrc & Hfind).
    cbn [forLoadOps]. unfold at_index. rewrite Hld.
    cbn [deref mbind Outcome_bind]. rewrite Hsrc.
    cbn [deref mbind Outcome_bind]. rewrite Hfind.
    cbn [mbind Outcome_bind].
    destruct initOps as [|i0 initOps].
    + destruct (IH Ht2 m) as (m' & Hm' & Hres & Hsame & Hkeep & Hin & Hout).
      exists m'. cbn [app]. repeat split; assumption.
    + set (inits := i0 :: initOps) in *.
      set (m1 := markInitOps (<[OpResult transposeId 0 := (0, 1)]> m) inits).
      destruct (IH Ht2 m1) as (m' & Hm' & Hres & Hsame & Hkeep & Hin & Hout).
      assert (Hm1_res : m1 !! OpResult transposeId 0 = Some (0, 1)).
      { unfold m1. rewrite markInitOps_other.
        - apply lookup_insert_eq.
        - intros i Hi E. injection E as ->. contradiction. }
      exists m'. split; [exact Hm'|].
      split; [intros _; exact (Hkeep Hm1_res)|].
      split; [intros E; discriminate E|].
      split; [intros _; exact (Hkeep Hm1_res)|]. split.
      * intros i Hi. rewrite (Hin i Hi). unfold m1.
        rewrite markInitOps_toggles.
        rewrite lookup_insert_ne by (intros E; injection E as ->; congruence).
        rewrite count_occ_app, Nat.add_comm, Nat.iter_add. reflexivity.
      * intros v Hv Hni. rewrite Hout.
        -- unfold m1. rewrite markInitOps_other.
           ++ rewrite lookup_insert_ne by congruence. reflexivity.
           ++ intros i Hi. apply Hni. apply elem_of_app. left. exact Hi.
        -- exact Hv.
        -- intros i Hi. apply Hni. apply elem_of_app. right. exact Hi.
Qed.

(** C2, as stated, on a program where one tile-init feeds two loads that
    both reach the transpose: the tile-init result is reached backward
    through the feeding loads and is not in the store, so the claim has the
    analysis add {0,1} for it; but the marking loop runs once for each
    load, the second run removes what the first one added, and the store
    ends with the transpose alone. *)
Lemma C2_counterexample :
  findOps 20 c2_twice_ir xetile_load_tile (OpResult 3 0)
  = Success [2; 1]%nat /\
  findOps 20 c2_twice_ir xetile_init_tile (OpResult 0 0) = Success [0%nat] /\
  analyzeTransposeOps 20 c2_twice_ir ∅
  = Success {[ OpResult 4 0 := (0, 1) ]} /\
  ({[ OpResult 4 0 := (0, 1) ]} : LayoutMap) !! OpResult 0 0 = None.
Proof. vm_compute. repeat split; reflexivity. Qed.

(** C2 (amended): analysing a transpose toggles the entry of a tile-init
    result once for every pair of a feeding load and a tile-init found
    backward from that load: a toggle adds the tag {0,1} when the result is
    not in the store and removes the entry when it is.  A tile-init found
    n times is toggled n times; only when each tile-init is found once does
    the store after the analysis hold {0,1} for the tile-inits that were
    unmarked and nothing for those that were marked.  The result of the
    transpose is marked {0,1} when at least one tile-init is found, and the
    store is left as it was when none is; every other entry is unchanged.
    The traces are those found with a step budget [fuel0]; the analysis
    returns this result with every budget from [fuel0] on. *)
Theorem C2_transpose_analysis (fuel0 fuel : nat) (ir : IR) (transposeId : nat)
    (transposeOp : Operation) (transposeInput : Value)
    (loadOps : list nat) (initOpss : list (list nat)) (m : LayoutMap)
    (Hop : ir !! transposeId = Some transposeOp)
    (Hname : opName transposeOp = vector_transpose)
    (Hinput : getOperands transposeOp !! 0%nat = Some transposeInput)
    (Hloads : findOps fuel0 ir xetile_load_tile transposeInput = Success loadOps)
    (Hinits : Forall2 (loadTrace fuel0 ir) loadOps initOpss)
    (Hfuel : (fuel0 <= fuel)%nat) :
  (forall (store : LayoutMap) (initOp : nat),
     (store !! OpResult initOp 0 = None ->
      markInitOp store initOp !! OpResult initOp 0 = Some (0, 1)) /\
     (is_Some (store !! OpResult initOp 0) ->
      markInitOp store initOp !! OpResult initOp 0 = None)) /\
  exists m',
    analyzeTransposeOp fuel ir transposeId transposeOp m = Success m' /\
    (concat initOpss <> [] -> m' !! OpResult transposeId 0 = Some (0, 1)) /\
    (concat initOpss = [] -> m' = m) /\
    (forall i, i ∈ concat initOpss ->
       m' !! OpResult i 0
       = Nat.iter (count_occ Nat.eq_dec (concat initOpss) i) toggled
           (m !! OpResult i 0)) /\
    (NoDup (concat initOpss) ->
     (forall i, i ∈ concat initOpss -> m !! OpResult i 0 = None ->
        m' !! OpResult i 0 = Some (0, 1)) /\
     (forall i, i ∈ concat initOpss -> is_Some (m !! OpResult i 0) ->
        m' !! OpResult i 0 = None)) /\
    (forall v, v <> OpResult transposeId 0 ->
       (forall i, i ∈ concat initOpss -> v <> OpResult i 0) ->
       m' !! v = m !! v).
Proof.
  split.
  { intros store initOp. rewrite markInitOp_lookup.
    destruct (decide (OpResult initOp 0 = OpResult initOp 0)); [|congruence].
    split; [intros ->; reflexivity|intros [t ->]; reflexivity]. }
  assert (Hloads' : findOps fuel ir xetile_load_tile transposeInput
                    = Success loadOps).
  { unfold findOps in *. exact (findOps_loop_fuel _ _ _ _ _ _ _ _ Hloads Hfuel). }
  assert (Hinits' : Forall2 (loadTrace fuel ir) loadOps initOpss).
  { eapply Forall2_impl; [exact Hinits|].
    intros ld initOps. apply loadTrace_fuel. exact Hfuel. }
  clear Hloads Hinits.
  assert (Hnot : transposeId ∉ concat initOpss).
  { intros Hin.
    pose proof (loadTrace_names _ _ _ _ Hinits') as Hnames.
    rewrite Forall_forall in Hnames.
    destruct (Hnames _ Hin) as (op & Hop' & Hn).
    rewrite Hop in Hop'. injection Hop' as <-. rewrite Hname in Hn.
    discriminate Hn. }
  destruct (forLoadOps_toggles fuel ir transposeId loadOps initOpss Hinits'
              Hnot m) as (m' & Hm' & Hres & Hsame & _ & Hin & Hout).
  assert (Hrun : analyzeTransposeOp fuel ir transposeId transposeOp m
                 = Success m').
  { unfold analyzeTransposeOp, at_index. rewrite Hinput.
    cbn [deref mbind Outcome_bind]. rewrite Hloads'. cbn [mbind Outcome_bind].
    destruct loadOps as [|ld loadOps]; [|exact Hm'].
    inversion Hinits'; subst. cbn in Hm'. exact Hm'. }
  assert (Htog : forall i, i ∈ concat initOpss ->
            m' !! OpResult i 0
            = Nat.iter (count_occ Nat.eq_dec (concat initOpss) i) toggled
                (m !! OpResult i 0)).
  { intros i Hi. apply Hin. intros ->. contradiction. }
  exists m'. split; [exact Hrun|]. split; [exact Hres|].
  split; [exact Hsame|]. split; [exact Htog|]. split; [|exact Hout].
  intros Honce.
  assert (Hone : forall i, i ∈ concat initOpss ->
            count_occ Nat.eq_dec (concat initOpss) i = 1%nat).
  { intros i Hi. apply NoDup_ListNoDup in Honce.
    apply (proj1 (NoDup_count_occ' Nat.eq_dec _) Honce).
    apply list_elem_of_In. exact Hi. }
  split.
  - intros i Hi Hnone. rewrite (Htog i Hi), (Hone i Hi), Hnone. reflexivity.
  - intros i Hi [t Ht]. rewrite (Htog i Hi), (Hone i Hi), Ht. reflexivity.
Qed.

Lemma c2_unmarked_adds :
  analyzeTransposeOps 8 c2_ir ∅
  = Success (<[OpResult 0 0 := (0, 1)]> (<[OpResult 2 0 := (0, 1)]> ∅)).
Proof. vm_compute. reflexivity. Qed.

Lemma c2_marked_removes :
  analyzeTransposeOps 8 c2_ir {[ OpResult 0 0 := (0, 1) ]}
  = Success {[ OpResult 2 0 := (0, 1) ]}.
Proof. vm_compute. reflexivity. Qed.

Lemma C2_transpose_analysis_witness :
  exists m',
    analyzeTransposeOp 8 c2_ir 2 (mkOp vector_transpose [OpResult 1 0])
      {[ OpResult 0 0 := (0, 1) ]} = Success m' /\
    m' !! OpResult 2 0 = Some (0, 1) /\
    m' !! OpResult 0 0 = None.
Proof.
  destruct (C2_transpose_analysis 4 8 c2_ir 2
              (mkOp vector_transpose [OpResult 1 0]) (OpResult 1 0)
              [1%nat] [[0%nat]] {[ OpResult 0 0 := (0, 1) ]})
    as (_ & m' & Hm' & Hres & _ & _ & Honce & _).
  - reflexivity.
  - reflexivity.
  - reflexivity.
  - vm_compute. reflexivity.
  - constructor; [|constructor].
    exists (mkOp xetile_load_tile [OpResult 0 0]), (OpResult 0 0).
    split; [reflexivity|]. split; [reflexivity|]. vm_compute. reflexivity.
  - lia.
  - exists m'. split; [exact Hm'|].
    split; [apply Hres; cbn; discriminate|].
    destruct Honce as [_ Hrem]; [cbn; apply NoDup_singleton|].
    apply Hrem.
    + cbn. apply list_elem_of_here.
    + exists (0, 1). vm_compute. reflexivity.
Defined.

End TransposeAnalysis.

(** ** The init-tile rule: offsets along one axis *)

Section InitTileAxis.
Import WGToSGInitTileOpPattern.
Local Open Scope Z_scope.

Lemma eval_createOrFold (folder : Folder) (env : Env) (e : IndexValue) :
  FolderSound folder -> eval env (createOrFold folder e) = eval env e.
Proof.
  intros Hs. specialize (Hs env e). unfold createOrFold.
  destruct (folder e) as [[v|z]|]; [exact Hs|exact Hs|reflexivity].
Qed.




End InitTileAxis.

(** ** The init-tile rule: decomposition *)

Section InitTileDecomposition.
Import WGToSGInitTileOpPattern.
Local Open Scope Z_scope.








Lemma coord_range (s L : Z) :
  0 <= s -> 0 < L -> 0 <= s / L <= s /\ 0 <= s mod L <= s.
Proof.
  intros Hs HL. pose proof (Z.mod_pos_bound s L HL).
  pose proof (Z.div_pos s L Hs HL).
  pose proof (Z.div_mod s L ltac:(lia)). split; nia.
Qed.







Lemma nofold_sound : FolderSound nofold.
Proof. intros env e. exact I. Qed.



End InitTileDecomposition.

(** ** The init-tile rule: coverage of the workgroup tile *)

Section InitTileCoverage.
Import WGToSGInitTileOpPattern.
Local Open Scope Z_scope.



























End InitTileCoverage.

(** ** The init-tile rule: edge behaviour *)

Section InitTileEdge.
Import WGToSGInitTileOpPattern.
Local Open Scope Z_scope.

(** The rule on such an op: the two axes, then the creation loop. *)
Lemma matchAndRewrite_ruleInput (folder : Folder) (sgLayoutMap : LayoutMap)
    (fuel : nat) (op : InitTileOp) (adaptor : OneToNOpAdaptor)
    (wgMap : WorkGroupMapAttr) (wg0 wg1 : Z)
    (pre : list IndexValue) (offX offY : IndexValue) :
  RuleInput sgLayoutMap op wgMap wg0 wg1 pre offX offY ->
  matchAndRewrite folder sgLayoutMap fuel op adaptor
  = (globalOffsetsX ← calculateGlobalOffsets folder fuel wg0 (sgData wgMap).1
                        (sgLayout wgMap).1 (IVConst (sgData wgMap).1)
                        (rowId sgLayoutMap op (sgLayout wgMap)) offX;
     globalOffsetsY ← calculateGlobalOffsets folder fuel wg1 (sgData wgMap).2
                        (sgLayout wgMap).2 (IVConst (sgData wgMap).2)
                        (colId sgLayoutMap op (sgLayout wgMap)) offY;
     createInitTiles op
       (TileType_get [(sgData wgMap).1; (sgData wgMap).2] (tElem (getType op)))
       pre (offsetPermutations globalOffsetsX globalOffsetsY)).
Proof.
  intros []. unfold matchAndRewrite.
  destruct (decide _) as [Ho|_]; [contradiction|].
  rewrite in_wgMap0. cbn [deref mbind Outcome_bind].
  rewrite in_scatter0, in_offsets0. cbn [mbind Outcome_bind].
  set (offsets := pre ++ [offX; offY]).
  assert (Hlen : length offsets = (length pre + 2)%nat).
  { unfold offsets. rewrite length_app. reflexivity. }
  assert (HX : offsets !! (length offsets - 2)%nat = Some offX).
  { rewrite Hlen. unfold offsets. rewrite lookup_app_r by lia.
    replace (length pre + 2 - 2 - length pre)%nat with 0%nat by lia.
    reflexivity. }
  assert (HY : offsets !! (length offsets - 1)%nat = Some offY).
  { rewrite Hlen. unfold offsets. rewrite lookup_app_r by lia.
    replace (length pre + 2 - 1 - length pre)%nat with 1%nat by lia.
    reflexivity. }
  assert (Hpre : take (length offsets - 2) offsets = pre).
  { replace (length offsets - 2)%nat with (length pre) by lia.
    apply take_app_length. }
  destruct (decide (length offsets < 2)%nat) as [Hlt|_]; [lia|].
  assert (Htag : match sgLayoutMap !! getResult op with
                 | Some tag => if decide (tag = (0, 1)) then Success ()
                               else Undefined
                 | None => Success ()
                 end = Success ()).
  { destruct (sgLayoutMap !! getResult op) as [tag|] eqn:E; [|reflexivity].
    rewrite (in_tag0 tag eq_refl).
    destruct (decide ((0, 1) = (0, 1))); [reflexivity|contradiction]. }
  rewrite Htag. cbn [mbind Outcome_bind].
  rewrite in_shape0. unfold at_index. rewrite HX, HY, Hpre.
  cbn [lookup list_lookup deref mbind Outcome_bind]. reflexivity.
Qed.



Lemma c_edge_ruleInput (src : SourceType) (wg0 wg1 : Z) (L D : Z * Z) :
  RuleInput ∅ (c_edge_op src wg0 wg1 L D) (mkWgMap L D) wg0 wg1
    [IVConst 5] (IVConst 0) (IVOrig (OpResult 8 0)).
Proof.
  constructor; try reflexivity.
  - cbn. intros [H _]. discriminate H.
  - intros tag H. rewrite lookup_empty in H. discriminate H.
Qed.


(** The offset loop in general: with a positive layout and a positive
    subgroup extent it runs [axisCount] times, as long as the counter stays
    within [int]. *)
Lemma calculateGlobalOffsets_from_count (folder : Folder) (wg D L : Z)
    (c sgId off : IndexValue) :
  0 < L -> 0 < D -> 0 <= wg ->
  forall (fuel : nat) (i : Z),
    0 <= i ->
    (Z.to_nat ((wg / D - i + L - 1) / L) <= fuel)%nat ->
    i + (wg / D - i + L - 1) / L * L < 2 ^ 31 ->
    exists l,
      calculateGlobalOffsets_from folder fuel i wg D L c sgId off = Success l /\
      length l = Z.to_nat ((wg / D - i + L - 1) / L).
Proof.
  intros HL HD Hwg.
  assert (Hq : wg ÷ D = wg / D) by (apply Z.quot_div_nonneg; lia).
  induction fuel as [|fuel IH]; intros i Hi Hfuel Hint.
  - cbn [calculateGlobalOffsets_from].
    destruct (decide (D = 0)); [lia|].
    destruct (decide (i < wg ÷ D)) as [Hlt|Hge].
    + exfalso. rewrite Hq in Hlt.
      assert (1 <= (wg / D - i + L - 1) / L)
        by (apply Z.div_le_lower_bound; lia).
      lia.
    + exists []. split; [reflexivity|]. rewrite Hq in Hge.
      assert ((wg / D - i + L - 1) / L <= 0).
      { apply Z.lt_succ_r. apply Z.div_lt_upper_bound; lia. }
      cbn [length]. lia.
  - cbn [calculateGlobalOffsets_from].
    destruct (decide (D = 0)); [lia|].
    destruct (decide (i < wg ÷ D)) as [Hlt|Hge].
    + rewrite Hq in Hlt.
      assert (Estep : (wg / D - i + L - 1) / L
                      = (wg / D - (i + L) + L - 1) / L + 1).
      { rewrite <- Z.div_add by lia. f_equal. ring. }
      assert (0 <= (wg / D - (i + L) + L - 1) / L)
        by (apply Z.div_pos; lia).
      rewrite Estep in Hint.
      destruct (decide (- 2 ^ 31 <= i + L < 2 ^ 31)) as [_|Hov];
        [|exfalso; apply Hov; nia].
      destruct (IH (i + L)) as (l & Hl & Hlen); [lia|lia|nia|].
      rewrite Hl. cbn [mbind Outcome_bind]. eexists. split; [reflexivity|].
      cbn [length]. rewrite Hlen. lia.
    + exists []. split; [reflexivity|]. rewrite Hq in Hge.
      assert ((wg / D - i + L - 1) / L <= 0).
      { apply Z.lt_succ_r. apply Z.div_lt_upper_bound; lia. }
      cbn [length]. lia.
Qed.

Lemma calculateGlobalOffsets_count (folder : Folder) (fuel : nat) (wg D L : Z)
    (c sgId off : IndexValue) :
  0 < L -> 0 < D -> 0 <= wg < 2 ^ 31 -> (axisCount wg D L <= fuel)%nat ->
  Z.of_nat (axisCount wg D L) * L < 2 ^ 31 ->
  exists l,
    calculateGlobalOffsets folder fuel wg D L c sgId off = Success l /\
    length l = axisCount wg D L.
Proof.
  intros HL HD Hwg Hfuel Hint. unfold calculateGlobalOffsets, axisCount in *.
  rewrite to_int_small by lia.
  assert (0 <= (wg / D + L - 1) / L).
  { apply Z.div_pos; [|lia]. pose proof (Z.div_pos wg D). lia. }
  rewrite Z2Nat.id in Hint by assumption.
  destruct (calculateGlobalOffsets_from_count folder wg D L c sgId off
              HL HD ltac:(lia) fuel 0 ltac:(lia)) as (l & Hl & Hlen).
  - rewrite Z.sub_0_r. exact Hfuel.
  - rewrite Z.sub_0_r. lia.
  - exists l. split; [exact Hl|]. rewrite Hlen, Z.sub_0_r. reflexivity.
Qed.





End InitTileEdge.

(** ** The init-tile rule: declining, empty results, leading offsets *)

Section InitTileDecline.
Import WGToSGInitTileOpPattern.
Local Open Scope Z_scope.

Lemma bind_Failure {A B : Type} (m : Outcome A) (f : A -> Outcome B) :
  m ≫= f = Failure ->
  m = Failure \/ exists x, m = Success x /\ f x = Failure.
Proof.
  destruct m as [x| | |]; cbn [mbind Outcome_bind]; intros H;
    try discriminate H; [right; eauto | left; reflexivity].
Qed.

Lemma deref_not_Failure {A : Type} (o : option A) : deref o <> Failure.
Proof. destruct o; discriminate. Qed.

Lemma at_index_not_Failure {A : Type} (l : list A) (i : nat) :
  at_index l i <> Failure.
Proof. unfold at_index. apply deref_not_Failure. Qed.

Lemma mixedOffsets_not_Failure (staticOffsets : list Z) :
  forall dynamicOffsets,
    mixedOffsets staticOffsets dynamicOffsets <> Failure.
Proof.
  induction staticOffsets as [|s rest IH]; intros dyn; cbn [mixedOffsets];
    [discriminate|].
  destruct (decide (s = kDynamic)).
  - destruct dyn as [|d dyn']; [discriminate|].
    intros H. apply bind_Failure in H as [H|(x & _ & H)];
      [exact (IH _ H)|discriminate H].
  - intros H. apply bind_Failure in H as [H|(x & _ & H)];
      [exact (IH _ H)|discriminate H].
Qed.

Lemma calculateGlobalOffsets_not_Failure (folder : Folder) (fuel : nat)
    (wg D L : Z) (c sgId off : IndexValue) :
  calculateGlobalOffsets folder fuel wg D L c sgId off <> Failure.
Proof.
  unfold calculateGlobalOffsets. generalize 0 as i.
  induction fuel as [|fuel IH]; intros i; cbn [calculateGlobalOffsets_from];
    destruct (decide (D = 0)); try discriminate;
    destruct (decide (i < to_int wg ÷ D)); try discriminate.
  destruct (decide (- 2 ^ 31 <= i + L < 2 ^ 31)); [|discriminate].
  intros H. apply bind_Failure in H as [H|(x & _ & H)];
    [exact (IH _ H)|discriminate H].
Qed.

Lemma createInitTiles_Failure (op : InitTileOp) (newTy : TileType)
    (perms : list (IndexValue * IndexValue)) :
  forall pre,
    createInitTiles op newTy pre perms = Failure ->
    getSourceType op = NotMemRef.
Proof.
  induction perms as [|[y x] perms IH]; intros pre H; [discriminate H|].
  cbn [createInitTiles] in H.
  destruct (getSourceType op); [| |reflexivity];
    apply bind_Failure in H as [H|(r & _ & H)];
    solve [exact (IH _ H) | discriminate H].
Qed.

(** X3: the init-tile rule declines only for order {0,1} or for a source
    that is not a memref; every other input makes it succeed, hit
    undefined behaviour or not return. *)
Theorem X3_init_tile_declines_only (folder : Folder) (sgLayoutMap : LayoutMap)
    (fuel : nat) (op : InitTileOp) (adaptor : OneToNOpAdaptor)
    (Hfail : matchAndRewrite folder sgLayoutMap fuel op adaptor = Failure) :
  ((tOrder (getType op)).1 = 0 /\ (tOrder (getType op)).2 = 1) \/
  getSourceType op = NotMemRef.
Proof.
  unfold matchAndRewrite in Hfail.
  destruct (decide _) as [Ho|_]; [left; exact Ho|]. right.
  apply bind_Failure in Hfail as [H|(wgMap & _ & H)];
    [destruct (deref_not_Failure _ H)|].
  destruct (tScatter (getType op)).
  { apply bind_Failure in H as [H|(idx & _ & H)];
      [destruct (at_index_not_Failure _ _ H)|].
    destruct (getSourceType op); [| |reflexivity];
      destruct (dyn_cast_VectorType (tvType idx)); discriminate H. }
  apply bind_Failure in H as [H|(offsets & _ & H)];
    [destruct (mixedOffsets_not_Failure _ _ H)|].
  destruct (decide (length offsets < 2)%nat); [discriminate H|].
  apply bind_Failure in H as [H|(u & _ & H)].
  { destruct (sgLayoutMap !! getResult op) as [tag|]; [|discriminate H].
    destruct (decide (tag = (0, 1))); discriminate H. }
  apply bind_Failure in H as [H|(wg0 & _ & H)];
    [destruct (at_index_not_Failure _ _ H)|].
  apply bind_Failure in H as [H|(offX & _ & H)];
    [destruct (at_index_not_Failure _ _ H)|].
  apply bind_Failure in H as [H|(gx & _ & H)];
    [destruct (calculateGlobalOffsets_not_Failure _ _ _ _ _ _ _ _ H)|].
  apply bind_Failure in H as [H|(wg1 & _ & H)];
    [destruct (at_index_not_Failure _ _ H)|].
  apply bind_Failure in H as [H|(offY & _ & H)];
    [destruct (at_index_not_Failure _ _ H)|].
  apply bind_Failure in H as [H|(gy & _ & H)];
    [destruct (calculateGlobalOffsets_not_Failure _ _ _ _ _ _ _ _ H)|].
  exact (createInitTiles_Failure _ _ _ _ H).
Qed.

Lemma X3_init_tile_declines_only_witness :
  ((tOrder (getType (c_edge_op NotMemRef 64 64 (2, 2) (32, 32)))).1 = 0 /\
   (tOrder (getType (c_edge_op NotMemRef 64 64 (2, 2) (32, 32)))).2 = 1) \/
  getSourceType (c_edge_op NotMemRef 64 64 (2, 2) (32, 32)) = NotMemRef.
Proof.
  apply (X3_init_tile_declines_only nofold ∅ 4
           (c_edge_op NotMemRef 64 64 (2, 2) (32, 32)) (mkAdaptor [])).
  vm_compute. reflexivity.
Defined.

(** X4: when the workgroup tile has fewer rows than sg_data, the rule
    creates nothing and still succeeds: the op is replaced by an empty
    list of values, and the memref test on the source, which sits inside
    the creation loop, is never reached.  The column loop still runs, so
    its [int] counter must not overflow: its number of iterations times
    sgLayout[1] is below 2^31. *)
Theorem X4_init_tile_smaller_than_sg_data (folder : Folder)
    (sgLayoutMap : LayoutMap) (fuel : nat) (op : InitTileOp)
    (adaptor : OneToNOpAdaptor) (wgMap : WorkGroupMapAttr) (wg0 wg1 : Z)
    (pre : list IndexValue) (offX offY : IndexValue)
    (Hin : RuleInput sgLayoutMap op wgMap wg0 wg1 pre offX offY)
    (Hwg0 : 0 <= wg0 < (sgData wgMap).1) (H31 : (sgData wgMap).1 <= 2 ^ 31)
    (HL1 : 0 < (sgLayout wgMap).2) (HD1 : 0 < (sgData wgMap).2)
    (Hwg1 : 0 <= wg1 < 2 ^ 31)
    (Hf1 : (axisCount wg1 (sgData wgMap).2 (sgLayout wgMap).2 <= fuel)%nat)
    (Hi1 : Z.of_nat (axisCount wg1 (sgData wgMap).2 (sgLayout wgMap).2)
           * (sgLayout wgMap).2 < 2 ^ 31) :
  matchAndRewrite folder sgLayoutMap fuel op adaptor = Success [].
Proof.
  rewrite (matchAndRewrite_ruleInput folder sgLayoutMap fuel op adaptor
             wgMap wg0 wg1 pre offX offY Hin).
  assert (HX : calculateGlobalOffsets folder fuel wg0 (sgData wgMap).1
                 (sgLayout wgMap).1 (IVConst (sgData wgMap).1)
                 (rowId sgLayoutMap op (sgLayout wgMap)) offX = Success []).
  { unfold calculateGlobalOffsets. rewrite to_int_small by lia.
    assert (Hq : wg0 ÷ (sgData wgMap).1 = 0) by (apply Z.quot_small; lia).
    destruct fuel; cbn [calculateGlobalOffsets_from];
      (destruct (decide (_ = 0)); [lia|]); rewrite Hq;
      (destruct (decide (0 < 0)); [lia|reflexivity]). }
  rewrite HX. cbn [mbind Outcome_bind].
  destruct (calculateGlobalOffsets_count folder fuel wg1 (sgData wgMap).2
              (sgLayout wgMap).2 (IVConst (sgData wgMap).2)
              (colId sgLayoutMap op (sgLayout wgMap)) offY HL1 HD1 Hwg1 Hf1
              Hi1)
    as (gy & Hgy & _).
  rewrite Hgy. reflexivity.
Qed.

Lemma X4_init_tile_smaller_than_sg_data_witness :
  matchAndRewrite nofold ∅ 4
    (c_edge_op NotMemRef 16 64 (2, 2) (32, 32)) (mkAdaptor []) = Success [].
Proof.
  apply (X4_init_tile_smaller_than_sg_data nofold ∅ 4 _ _
           (mkWgMap (2, 2) (32, 32)) 16 64 [IVConst 5] (IVConst 0)
           (IVOrig (OpResult 8 0)) (c_edge_ruleInput _ _ _ _ _));
    try (simpl; lia).
  - vm_compute. lia.
  - vm_compute. reflexivity.
Defined.

Lemma createInitTiles_cleared (op : InitTileOp) (newTy : TileType)
    (perms : list (IndexValue * IndexValue)) :
  forall ops,
    createInitTiles op newTy [] perms = Success ops ->
    Forall (fun o => exists y x, offsetsOf o = [y; x]) ops.
Proof.
  induction perms as [|[y x] perms IH]; intros ops H.
  - injection H as <-. constructor.
  - cbn [createInitTiles] in H.
    destruct (getSourceType op); try discriminate H;
      destruct (createInitTiles op newTy [] perms) as [r| | |] eqn:E;
      try discriminate H; injection H as <-;
      (constructor; [exists y, x; reflexivity | exact (IH r eq_refl)]).
Qed.

(** X5: only the first op the init-tile rule creates carries the leading
    offsets of the original op (those before the last two): the offset
    list is cleared after each creation, so every later op has exactly two
    offsets. *)
Theorem X5_init_tile_leading_offsets_first_only (folder : Folder)
    (sgLayoutMap : LayoutMap) (fuel : nat) (op : InitTileOp)
    (adaptor : OneToNOpAdaptor) (wgMap : WorkGroupMapAttr) (wg0 wg1 : Z)
    (pre : list IndexValue) (offX offY : IndexValue) (ops : list NewInitTileOp)
    (Hin : RuleInput sgLayoutMap op wgMap wg0 wg1 pre offX offY)
    (Hops : matchAndRewrite folder sgLayoutMap fuel op adaptor = Success ops) :
  (forall o, ops !! 0%nat = Some o ->
     exists y x, offsetsOf o = pre ++ [y; x]) /\
  (forall i o, ops !! S i = Some o -> exists y x, offsetsOf o = [y; x]).
Proof.
  rewrite (matchAndRewrite_ruleInput folder sgLayoutMap fuel op adaptor
             wgMap wg0 wg1 pre offX offY Hin) in Hops.
  destruct (calculateGlobalOffsets _ _ wg0 _ _ _ _ _) as [gx| | |];
    try discriminate Hops.
  cbn [mbind Outcome_bind] in Hops.
  destruct (calculateGlobalOffsets _ _ wg1 _ _ _ _ _) as [gy| | |];
    try discriminate Hops.
  cbn [mbind Outcome_bind] in Hops.
  destruct (offsetPermutations gx gy) as [|[y x] perms].
  { injection Hops as <-. split; intros; discriminate. }
  cbn [createInitTiles] in Hops.
  destruct (getSourceType op); try discriminate Hops;
    destruct (createInitTiles op _ [] perms) as [r| | |] eqn:E;
    try discriminate Hops; injection Hops as <-;
    pose proof (createInitTiles_cleared _ _ _ _ E) as Hr;
    (split;
     [ intros o [= <-]; exists y, x; reflexivity
     | intros i o Hi; cbn [lookup list_lookup] in Hi;
       exact (proj1 (Forall_lookup _ _) Hr i o Hi) ]).
Qed.

Lemma X5_init_tile_leading_offsets_first_only_witness :
  exists ops,
    matchAndRewrite nofold ∅ 4
      (c_edge_op MemRefStatic 64 64 (1, 1) (32, 32)) (mkAdaptor [])
    = Success ops /\
    (forall o, ops !! 0%nat = Some o ->
       exists y x, offsetsOf o = [IVConst 5] ++ [y; x]) /\
    (forall i o, ops !! S i = Some o -> exists y x, offsetsOf o = [y; x]).
Proof.
  eexists. split; [vm_compute; reflexivity|].
  apply (X5_init_tile_leading_offsets_first_only nofold ∅ 4
           (c_edge_op MemRefStatic 64 64 (1, 1) (32, 32)) (mkAdaptor [])
           (mkWgMap (1, 1) (32, 32)) 64 64 [IVConst 5] (IVConst 0)
           (IVOrig (OpResult 8 0)) _ (c_edge_ruleInput _ _ _ _ _)).
  vm_compute. reflexivity.
Defined.

End InitTileDecline.

(** ** The transpose analysis: termination *)

Section AnalysisTotal.
Import Analysis.

Lemma argOK_mono (ir : IR) (user user' : nat) (v : Value) :
  argOK ir user v -> (user <= user')%nat -> argOK ir user' v.
Proof.
  destruct v as [o i|p k]; [intros; exact I|].
  intros [Hp Hk] Hle. split; [lia|exact Hk].
Qed.

Lemma unvisited_le (c : Value) (visited : gset Value) (l : list Value) :
  (unvisited ({[c]} ∪ visited) l <= unvisited visited l)%nat.
Proof.
  unfold unvisited. induction l as [|x l IH]; [reflexivity|].
  rewrite !filter_cons.
  destruct (decide (x ∉ {[c]} ∪ visited)) as [Hx|Hx];
    destruct (decide (x ∉ visited)) as [Hv|Hv]; cbn [length]; try lia.
  exfalso. apply Hv. intros Hin. apply Hx. apply elem_of_union. right.
  exact Hin.
Qed.

Lemma unvisited_lt (c : Value) (visited : gset Value) (l : list Value) :
  c ∈ l -> c ∉ visited ->
  (unvisited ({[c]} ∪ visited) l < unvisited visited l)%nat.
Proof.
  intros Hc Hv. induction l as [|x l IH]; [inversion Hc|].
  pose proof (unvisited_le c visited l) as Hle.
  unfold unvisited in *. rewrite !filter_cons.
  destruct (decide (x = c)) as [->|Hne].
  - destruct (decide (c ∉ {[c]} ∪ visited)) as [Hx|_].
    + exfalso. apply Hx. apply elem_of_union. left. apply elem_of_singleton.
      reflexivity.
    + destruct (decide (c ∉ visited)); [|contradiction]. cbn [length]. lia.
  - apply elem_of_cons in Hc as [E|Hc]; [congruence|]. specialize (IH Hc).
    destruct (decide (x ∉ {[c]} ∪ visited)) as [Hx|Hx];
      destruct (decide (x ∉ visited)) as [Hxv|Hxv]; cbn [length]; try lia.
    exfalso. apply Hxv. intros Hin. apply Hx. apply elem_of_union. right.
    exact Hin.
Qed.

Lemma elem_of_zip_seq (ir : IR) :
  forall start id op,
    (id, op) ∈ zip (seq start (length ir)) ir ->
    (start <= id)%nat /\ ir !! (id - start)%nat = Some op.
Proof.
  induction ir as [|o ir IH]; intros start id op H; [inversion H|].
  cbn [length seq zip zip_with] in H. apply elem_of_cons in H as [E|H].
  - injection E as -> ->. split; [lia|]. rewrite Nat.sub_diag. reflexivity.
  - fold (zip (seq (S start) (length ir)) ir) in H.
    destruct (IH _ _ _ H) as [Hle Hl]. split; [lia|].
    replace (id - start)%nat with (S (id - S start)) by lia. exact Hl.
Qed.

Section Search.
Variable ir : IR.
Hypothesis Hwf : WellFormed ir.

Lemma getPreLoopValue_total :
  forall (fuel user : nat) (v : Value),
    (user <= fuel)%nat -> (user <= length ir)%nat -> argOK ir user v ->
    exists r, getPreLoopValue fuel ir v = Success r.
Proof using Hwf.
  induction fuel as [|fuel IH]; intros user v Hu Hl Hok;
    destruct v as [o i|p k]; try (eexists; reflexivity).
  { destruct Hok as [Hp _]. lia. }
  destruct Hok as [Hp Hk].
  destruct (lookup_lt_is_Some_2 ir p ltac:(lia)) as [pop Hpop].
  cbn [getPreLoopValue]. rewrite Hpop. cbn [deref mbind Outcome_bind].
  destruct (decide (opName pop = scf_for)) as [Hfor|_];
    [|eexists; reflexivity].
  destruct (decide _) as [Hfirst|_]; [|eexists; reflexivity].
  specialize (Hk pop Hpop Hfor). unfold numRegionArguments in *.
  destruct (lookup_lt_is_Some_2 (getInitArgs pop)
              (k - (S (length (getInitArgs pop))
                    - length (getInitArgs pop))) ltac:(lia)) as [v' Hv'].
  unfold at_index. rewrite Hv'. cbn [deref mbind Outcome_bind].
  apply (IH p v'); [lia|lia|].
  apply (wf_args ir Hwf p pop v' Hpop).
  apply (subseteq_drop 3). exact (list_elem_of_lookup_2 _ _ _ Hv').
Qed.

Variable OpType : OpName.
Variable U : list Value.
Hypothesis HU_ops : forall id op v,
  ir !! id = Some op -> v ∈ getOperands op -> v ∈ U.
Hypothesis HU_ok : forall v, v ∈ U -> argOK ir (length ir) v.

Lemma findOps_loop_total :
  forall (fuel : nat) (worklist : list Value) (visited : gset Value)
         (matchedOps : list nat),
    (forall v, v ∈ worklist -> v ∈ U) ->
    (length ir + length worklist
     + S (maxOperands ir) * unvisited visited U <= fuel)%nat ->
    exists res,
      findOps_loop fuel ir OpType worklist visited matchedOps = Success res.
Proof using Hwf HU_ops HU_ok.
  induction fuel as [|fuel IH]; intros worklist visited matchedOps Hwl Hfuel;
    destruct worklist as [|c worklist]; try (eexists; reflexivity).
  { cbn [length] in Hfuel. lia. }
  cbn [length] in Hfuel. cbn [findOps_loop].
  destruct (decide (c ∈ visited)) as [Hvis|Hvis].
  { apply IH; [intros v Hv; apply Hwl; right; exact Hv|lia]. }
  assert (HcU : c ∈ U) by (apply Hwl; left).
  pose proof (unvisited_lt c visited U HcU Hvis) as Hlt.
  assert (Hstep : (S (maxOperands ir) * unvisited ({[c]} ∪ visited) U
                   + S (maxOperands ir)
                   <= S (maxOperands ir) * unvisited visited U)%nat).
  { rewrite <- Nat.mul_succ_r. apply Nat.mul_le_mono_l. lia. }
  assert (Hpre : exists c',
             match c with
             | OpResult _ _ => Success c
             | BlockArgument _ _ => getPreLoopValue (S fuel) ir c
             end = Success c').
  { destruct c as [o i|p k]; [eexists; reflexivity|].
    apply (getPreLoopValue_total (S fuel) (length ir)); [lia|lia|].
    apply HU_ok. exact HcU. }
  destruct Hpre as [c' ->]. cbn [mbind Outcome_bind].
  destruct (getDefiningOp ir c') as [[id defOp]|] eqn:Edef.
  - assert (Hid : ir !! id = Some defOp).
    { unfold getDefiningOp in Edef. destruct c' as [owner idx|];
        [|discriminate Edef].
      destruct (ir !! owner) as [o|] eqn:Eo; cbn in Edef; [|discriminate Edef].
      injection Edef as <- <-. exact Eo. }
    assert (Hmax : (length (getOperands defOp) <= maxOperands ir)%nat).
    { unfold maxOperands. apply max_list_elem_of_le.
      apply (list_elem_of_fmap_2 (fun op => length (getOperands op))).
      exact (list_elem_of_lookup_2 _ _ _ Hid). }
    apply IH.
    + intros v Hv. apply elem_of_app in Hv as [Hv|Hv].
      * apply (HU_ops id defOp v Hid). apply list_elem_of_In, in_rev.
        apply list_elem_of_In. exact Hv.
      * apply Hwl. right. exact Hv.
    + rewrite length_app, length_rev. lia.
  - apply IH; [intros v Hv; apply Hwl; right; exact Hv|lia].
Qed.

End Search.

Lemma findOps_total (ir : IR) (OpType : OpName) (fuel : nat) (val : Value) :
  WellFormed ir -> argOK ir (length ir) val ->
  (searchFuel ir <= fuel)%nat ->
  exists res, findOps fuel ir OpType val = Success res.
Proof.
  intros Hwf Hval Hfuel. unfold findOps.
  apply (findOps_loop_total ir Hwf OpType (val :: allOperands ir)).
  - intros id op v Hid Hv. right. unfold allOperands.
    apply list_elem_of_bind. exists op. split; [exact Hv|].
    exact (list_elem_of_lookup_2 _ _ _ Hid).
  - intros v Hv. apply elem_of_cons in Hv as [->|Hv]; [exact Hval|].
    unfold allOperands in Hv. apply list_elem_of_bind in Hv as (op & Hv & Hop).
    apply list_elem_of_lookup_1 in Hop as [id Hid].
    apply (argOK_mono ir id); [exact (wf_args ir Hwf id op v Hid Hv)|].
    apply Nat.lt_le_incl. exact (lookup_lt_Some _ _ _ Hid).
  - intros v Hv. apply list_elem_of_singleton in Hv as ->. left.
  - unfold searchFuel in Hfuel. cbn [length]. etrans; [|exact Hfuel].
    apply Nat.add_le_mono_l, Nat.mul_le_mono_l. unfold unvisited.
    apply (length_filter _ (val :: allOperands ir)).
Qed.

Lemma operand0_ok (ir : IR) (id : nat) (op : Operation) :
  WellFormed ir -> ir !! id = Some op -> getOperands op <> [] ->
  exists v, getOperands op !! 0%nat = Some v /\ argOK ir (length ir) v.
Proof.
  intros Hwf Hid Hne. destruct (getOperands op) as [|v l] eqn:E;
    [contradiction|].
  exists v. split; [reflexivity|].
  apply (argOK_mono ir id).
  - apply (wf_args ir Hwf id op v Hid). rewrite E. left.
  - apply Nat.lt_le_incl. exact (lookup_lt_Some _ _ _ Hid).
Qed.

Lemma forLoadOps_total (fuel : nat) (ir : IR) (transposeId : nat) :
  WellFormed ir -> (searchFuel ir <= fuel)%nat ->
  forall loadOps m,
    Forall (hasName ir xetile_load_tile) loadOps ->
    exists m', forLoadOps fuel ir transposeId loadOps m = Success m'.
Proof.
  intros Hwf Hfuel. induction loadOps as [|ld rest IH]; intros m Hn;
    [eexists; reflexivity|].
  apply Forall_cons in Hn as [(loadOp & Hld & Hname) Hn].
  destruct (operand0_ok ir ld loadOp Hwf Hld
              (wf_load ir Hwf ld loadOp Hld Hname)) as (src & Hsrc & Hok).
  destruct (findOps_total ir xetile_init_tile fuel src Hwf Hok Hfuel)
    as [initOps Hfind].
  cbn [forLoadOps]. unfold at_index. rewrite Hld.
  cbn [deref mbind Outcome_bind]. rewrite Hsrc.
  cbn [deref mbind Outcome_bind]. rewrite Hfind. cbn [mbind Outcome_bind].
  destruct initOps; apply IH; exact Hn.
Qed.

(** X6: on a well-formed program (block arguments used after the op that
    carries them, loop-carried arguments within the loop's init args,
    transposes and tile loads with an operand) the transpose analysis
    terminates without an error, whatever the store it starts from and
    whatever cycles the use-def graph has, given [searchFuel] steps per
    search. *)
Theorem X6_transpose_analysis_terminates (fuel : nat) (ir : IR)
    (sgLayoutMap : LayoutMap)
    (Hwf : WellFormed ir) (Hfuel : (searchFuel ir <= fuel)%nat) :
  exists sgLayoutMap',
    analyzeTransposeOps fuel ir sgLayoutMap = Success sgLayoutMap'.
Proof.
  unfold analyzeTransposeOps.
  assert (Hops : forall id op,
            (id, op) ∈ zip (seq 0 (length ir)) ir -> ir !! id = Some op).
  { intros id op H. destruct (elem_of_zip_seq ir 0 id op H) as [_ Hl].
    rewrite Nat.sub_0_r in Hl. exact Hl. }
  revert sgLayoutMap Hops. generalize (zip (seq 0 (length ir)) ir) as ops.
  induction ops as [|[id op] ops IH]; intros m Hops; [eexists; reflexivity|].
  assert (Hrest : forall id' op', (id', op') ∈ ops -> ir !! id' = Some op')
    by (intros id' op' H; apply Hops; right; exact H).
  cbn [walk].
  destruct (decide (opName op = vector_transpose)) as [Ht|_];
    [|exact (IH m Hrest)].
  assert (Hid : ir !! id = Some op) by (apply Hops; left).
  destruct (operand0_ok ir id op Hwf Hid (wf_transpose ir Hwf id op Hid Ht))
    as (input & Hinput & Hok).
  destruct (findOps_total ir xetile_load_tile fuel input Hwf Hok Hfuel)
    as [loadOps Hfind].
  unfold analyzeTransposeOp, at_index. rewrite Hinput.
  cbn [deref mbind Outcome_bind]. rewrite Hfind. cbn [mbind Outcome_bind].
  destruct loadOps as [|ld loadOps]; [exact (IH m Hrest)|].
  destruct (forLoadOps_total fuel ir id Hwf Hfuel (ld :: loadOps) m)
    as [m' Hm'].
  { unfold findOps in Hfind.
    refine (findOps_loop_names _ _ _ _ _ _ _ Hfind _). constructor. }
  rewrite Hm'. cbn [mbind Outcome_bind]. exact (IH m' Hrest).
Qed.

End AnalysisTotal.

(** ** The transpose analysis: the store it builds *)

Section AnalysisStoreEntries.
Import Analysis.
Local Open Scope Z_scope.

Lemma loop_ir_wellFormed : WellFormed loop_ir.
Proof.
  constructor.
  - intros id op v Hid Hv.
    do 7 (destruct id as [|id];
          [ injection Hid as <-; cbn [getOperands] in Hv;
            repeat (apply elem_of_cons in Hv as [->|Hv]);
            try (inversion Hv; fail); try exact I;
            (split; [lia|]);
            intros op Hop _; injection Hop as <-; cbn; lia |]).
    discriminate Hid.
  - intros id op Hid Hn.
    do 7 (destruct id as [|id];
          [ injection Hid as <-; cbn in Hn |- *;
            first [discriminate Hn | discriminate] |]).
    discriminate Hid.
  - intros id op Hid Hn.
    do 7 (destruct id as [|id];
          [ injection Hid as <-; cbn in Hn |- *;
            first [discriminate Hn | discriminate] |]).
    discriminate Hid.
Qed.

Lemma X6_transpose_analysis_terminates_witness :
  exists sgLayoutMap',
    analyzeTransposeOps 50 loop_ir ∅ = Success sgLayoutMap'.
Proof.
  apply (X6_transpose_analysis_terminates 50 loop_ir ∅ loop_ir_wellFormed).
  vm_compute. lia.
Defined.

Lemma markInitOps_store (ir : IR) (initOps : list nat) :
  Forall (hasName ir xetile_init_tile) initOps ->
  forall m, AnalysisStore ir m -> AnalysisStore ir (markInitOps m initOps).
Proof.
  unfold markInitOps.
  induction 1 as [|i initOps Hi _ IH]; intros m Hm; [exact Hm|].
  cbn [foldl]. apply IH. intros v tag Hv. rewrite markInitOp_lookup in Hv.
  destruct (decide (v = OpResult i 0)) as [->|_]; [|exact (Hm v tag Hv)].
  destruct (m !! OpResult i 0); [discriminate Hv|].
  injection Hv as <-. split; [reflexivity|]. exists i. split; [reflexivity|].
  right. exact Hi.
Qed.

Lemma forLoadOps_store (fuel : nat) (ir : IR) (transposeId : nat) :
  hasName ir vector_transpose transposeId ->
  forall loadOps m m',
    AnalysisStore ir m ->
    forLoadOps fuel ir transposeId loadOps m = Success m' ->
    AnalysisStore ir m'.
Proof.
  intros Ht. induction loadOps as [|ld rest IH]; intros m m' Hm Hrun.
  { injection Hrun as <-. exact Hm. }
  cbn [forLoadOps] in Hrun.
  destruct (at_index ir ld) as [loadOp| | |]; try discriminate Hrun.
  cbn [mbind Outcome_bind] in Hrun.
  destruct (at_index (getOperands loadOp) 0) as [src| | |];
    try discriminate Hrun.
  cbn [mbind Outcome_bind] in Hrun.
  destruct (findOps fuel ir xetile_init_tile src) as [initOps| | |] eqn:Hfind;
    try discriminate Hrun.
  cbn [mbind Outcome_bind] in Hrun.
  destruct initOps as [|i0 initOps]; [exact (IH m m' Hm Hrun)|].
  refine (IH _ m' _ Hrun). apply markInitOps_store.
  - unfold findOps in Hfind.
    refine (findOps_loop_names _ _ _ _ _ _ _ Hfind _). constructor.
  - intros v tag Hv.
    destruct (decide (v = OpResult transposeId 0)) as [->|Hne].
    + rewrite lookup_insert_eq in Hv. injection Hv as <-.
      split; [reflexivity|]. exists transposeId. split; [reflexivity|].
      left. exact Ht.
    + rewrite lookup_insert_ne in Hv by congruence. exact (Hm v tag Hv).
Qed.

(** X7: every entry the transpose analysis leaves in the store holds the
    tag {0,1} and is keyed by result 0 of a vector.transpose or of a
    tile-init of the program, provided the store it started from was of
    that form (the empty store of the pass is); so the tag assertion of the
    init-tile rule cannot fire on a store built by the analysis. *)
Theorem X7_analysis_store_entries (fuel : nat) (ir : IR)
    (sgLayoutMap sgLayoutMap' : LayoutMap)
    (Hstart : AnalysisStore ir sgLayoutMap)
    (Hrun : analyzeTransposeOps fuel ir sgLayoutMap = Success sgLayoutMap') :
  AnalysisStore ir sgLayoutMap'.
Proof.
  unfold analyzeTransposeOps in Hrun.
  assert (Hops : forall id op,
            (id, op) ∈ zip (seq 0 (length ir)) ir -> ir !! id = Some op).
  { intros id op H. destruct (elem_of_zip_seq ir 0 id op H) as [_ Hl].
    rewrite Nat.sub_0_r in Hl. exact Hl. }
  revert sgLayoutMap Hstart Hrun Hops.
  generalize (zip (seq 0 (length ir)) ir) as ops.
  induction ops as [|[id op] ops IH]; intros m Hm Hrun Hops.
  { injection Hrun as <-. exact Hm. }
  assert (Hrest : forall id' op', (id', op') ∈ ops -> ir !! id' = Some op')
    by (intros id' op' H; apply Hops; right; exact H).
  cbn [walk] in Hrun.
  destruct (decide (opName op = vector_transpose)) as [Ht|_];
    [|exact (IH m Hm Hrun Hrest)].
  destruct (analyzeTransposeOp fuel ir id op m) as [m1| | |] eqn:E;
    try discriminate Hrun.
  cbn [mbind Outcome_bind] in Hrun. refine (IH m1 _ Hrun Hrest).
  unfold analyzeTransposeOp in E.
  destruct (at_index (getOperands op) 0) as [input| | |]; try discriminate E.
  cbn [mbind Outcome_bind] in E.
  destruct (findOps fuel ir xetile_load_tile input) as [loadOps| | |];
    try discriminate E.
  cbn [mbind Outcome_bind] in E.
  destruct loadOps as [|ld loadOps]; [injection E as <-; exact Hm|].
  refine (forLoadOps_store fuel ir id _ _ m m1 Hm E).
  exists op. split; [apply Hops; left|exact Ht].
Qed.

Lemma X7_analysis_store_entries_witness :
  exists sgLayoutMap',
    analyzeTransposeOps 50 loop_ir ∅ = Success sgLayoutMap' /\
    AnalysisStore loop_ir sgLayoutMap'.
Proof.
  eexists. split; [vm_compute; reflexivity|].
  apply (X7_analysis_store_entries 50 loop_ir ∅).
  - intros v tag Hv. rewrite lookup_empty in Hv. discriminate Hv.
  - vm_compute. reflexivity.
Defined.

(** X8: marking toggles: after the loop over the tile-inits found for one
    load, a tile-init result has an entry exactly when it had one before and
    was found an even number of times, or had none and was found an odd
    number of times. A tile-init found twice is left as it was. *)
Theorem X8_marking_is_by_parity (sgLayoutMap : LayoutMap)
    (initOps : list nat) (initOp : nat) :
  marked (markInitOps sgLayoutMap initOps) (OpResult initOp 0)
  = xorb (marked sgLayoutMap (OpResult initOp 0))
         (Nat.odd (count_occ Nat.eq_dec initOps initOp)).
Proof.
  unfold markInitOps. revert sgLayoutMap.
  induction initOps as [|i initOps IH]; intros m.
  { cbn. rewrite xorb_false_r. reflexivity. }
  cbn [foldl count_occ]. rewrite IH. unfold marked.
  rewrite markInitOp_lookup.
  destruct (Nat.eq_dec i initOp) as [->|Hne].
  - destruct (decide (OpResult initOp 0 = OpResult initOp 0)); [|congruence].
    rewrite Nat.odd_succ, <- Nat.negb_odd.
    destruct (m !! OpResult initOp 0) as [t|]; cbn [toggled].
    + rewrite (bool_decide_eq_false_2 (is_Some None))
        by (intros [x Hx]; discriminate Hx).
      rewrite (bool_decide_eq_true_2 (is_Some (Some t))) by eauto.
      destruct (Nat.odd _); reflexivity.
    + rewrite (bool_decide_eq_true_2 (is_Some (Some (0, 1)))) by eauto.
      rewrite (bool_decide_eq_false_2 (is_Some None))
        by (intros [x Hx]; discriminate Hx).
      destruct (Nat.odd _); reflexivity.
  - destruct (decide (OpResult initOp 0 = OpResult i 0)) as [E|_];
      [congruence|reflexivity].
Qed.

(** X9: the value [getPreLoopValue] returns is final: it is not a
    loop-carried argument of an scf.for any more, so resolving it again
    returns it unchanged, whatever the step budget. *)
Theorem X9_pre_loop_value_is_final (fuel fuel' : nat) (ir : IR)
    (val r : Value)
    (Hrun : getPreLoopValue fuel ir val = Success r) :
  getPreLoopValue fuel' ir r = Success r.
Proof.
  revert val Hrun. induction fuel as [|fuel IH]; intros val Hrun;
    destruct val as [o i|p k]; cbn [getPreLoopValue] in Hrun;
    try (injection Hrun as <-; destruct fuel'; reflexivity).
  - destruct (ir !! p) as [pop|] eqn:Ep; [|discriminate Hrun].
    cbn [deref mbind Outcome_bind] in Hrun.
    destruct (decide (opName pop = scf_for)) as [Hfor|Hfor].
    + destruct (decide _) as [Hge|Hlt]; [discriminate Hrun|].
      injection Hrun as <-.
      destruct fuel'; cbn [getPreLoopValue]; rewrite Ep;
        cbn [deref mbind Outcome_bind];
        (destruct (decide (opName pop = scf_for)); [|reflexivity]);
        (destruct (decide _); [contradiction|reflexivity]).
    + injection Hrun as <-.
      destruct fuel'; cbn [getPreLoopValue]; rewrite Ep;
        cbn [deref mbind Outcome_bind];
        (destruct (decide (opName pop = scf_for)); [contradiction|]);
        reflexivity.
  - destruct (ir !! p) as [pop|] eqn:Ep; [|discriminate Hrun].
    cbn [deref mbind Outcome_bind] in Hrun.
    destruct (decide (opName pop = scf_for)) as [Hfor|Hfor].
    + destruct (decide _) as [Hge|Hlt].
      * destruct (at_index _ _) as [v| | |]; try discriminate Hrun.
        cbn [mbind Outcome_bind] in Hrun. exact (IH v Hrun).
      * injection Hrun as <-.
        destruct fuel'; cbn [getPreLoopValue]; rewrite Ep;
          cbn [deref mbind Outcome_bind];
          (destruct (decide (opName pop = scf_for)); [|reflexivity]);
          (destruct (decide _); [contradiction|reflexivity]).
    + injection Hrun as <-.
      destruct fuel'; cbn [getPreLoopValue]; rewrite Ep;
        cbn [deref mbind Outcome_bind];
        (destruct (decide (opName pop = scf_for)); [contradiction|]);
        reflexivity.
Qed.

Lemma X9_pre_loop_value_is_final_witness :
  getPreLoopValue 0 loop_ir (OpResult 3 0) = Success (OpResult 3 0).
Proof.
  apply (X9_pre_loop_value_is_final 2 0 loop_ir (BlockArgument 4 1)).
  vm_compute. reflexivity.
Defined.

End AnalysisStoreEntries.

(** ** From the init-tile rule to the rules that consume its tiles *)

Section Pipeline.
Import WGToSGInitTileOpPattern.
Local Open Scope Z_scope.

Lemma bind_Success {A B : Type} (m : Outcome A) (f : A -> Outcome B) (y : B) :
  m ≫= f = Success y -> exists x, m = Success x /\ f x = Success y.
Proof.
  destruct m as [x| | |]; cbn [mbind Outcome_bind]; intros H;
    try discriminate H. exists x. split; [reflexivity|exact H].
Qed.

Lemma createInitTiles_types (op : InitTileOp) (newTy : TileType)
    (perms : list (IndexValue * IndexValue)) :
  forall pre ops,
    createInitTiles op newTy pre perms = Success ops ->
    Forall (fun o => typeOfNew o = newTy) ops.
Proof.
  induction perms as [|[y x] perms IH]; intros pre ops H.
  - injection H as <-. constructor.
  - cbn [createInitTiles] in H.
    destruct (getSourceType op); try discriminate H;
      apply bind_Success in H as (r & Hr & H); injection H as <-;
      (constructor; [reflexivity|exact (IH _ _ Hr)]).
Qed.

(** Every op the rule creates has the sgData shape and the element type of
    the original tile. *)
Lemma matchAndRewrite_types (folder : Folder) (sgLayoutMap : LayoutMap)
    (fuel : nat) (op : InitTileOp) (adaptor : OneToNOpAdaptor)
    (wgMap : WorkGroupMapAttr) (ops : list NewInitTileOp) :
  tWgMap (getType op) = Some wgMap ->
  matchAndRewrite folder sgLayoutMap fuel op adaptor = Success ops ->
  Forall (fun o => tShape (typeOfNew o) = [(sgData wgMap).1; (sgData wgMap).2]
                   /\ tElem (typeOfNew o) = tElem (getType op)) ops.
Proof.
  intros Hmap H. unfold matchAndRewrite in H.
  destruct (decide _) as [|_]; [discriminate H|].
  rewrite Hmap in H. cbn [deref mbind Outcome_bind] in H.
  destruct (tScatter (getType op)).
  { apply bind_Success in H as (idx & _ & H).
    destruct (getSourceType op);
      destruct (dyn_cast_VectorType (tvType idx)); try discriminate H;
      injection H as <-; (constructor; [split; reflexivity|constructor]). }
  apply bind_Success in H as (offsets & _ & H).
  destruct (decide (length offsets < 2)%nat); [discriminate H|].
  apply bind_Success in H as (u & _ & H).
  apply bind_Success in H as (wg0 & _ & H).
  apply bind_Success in H as (offX & _ & H).
  apply bind_Success in H as (gx & _ & H).
  apply bind_Success in H as (wg1 & _ & H).
  apply bind_Success in H as (offY & _ & H).
  apply bind_Success in H as (gy & _ & H).
  eapply Forall_impl; [exact (createInitTiles_types _ _ _ _ _ H)|].
  intros o ->. split; reflexivity.
Qed.

Lemma forSources_typed (d0 d1 : Z) (e : ElemType)
    (sources : list TypedValue) :
  Forall (fun s => exists ty, tvType s = TTile ty /\ tShape ty = [d0; d1] /\
                              tElem ty = e) sources ->
  WGToSGLoadTileOpPattern.forSources sources
  = Success ((fun s => WGToSGLoadTileOpPattern.mkNewLoadTileOp
                         (mkVectorType [d0; d1] e) s) <$> sources).
Proof.
  induction 1 as [|s sources (ty & Hty & Hshape & He) _ IH]; [reflexivity|].
  cbn [WGToSGLoadTileOpPattern.forSources]. rewrite Hty.
  cbn [WGToSGLoadTileOpPattern.dyn_cast_TileType deref mbind Outcome_bind].
  rewrite Hshape. unfold at_index.
  cbn [lookup list_lookup deref mbind Outcome_bind]. rewrite IH, He.
  reflexivity.
Qed.

(** X10: the tile-load rule composed with the init-tile rule: whenever the
    init-tile rule succeeded on a tile with a workgroup map, the load rule
    applied to the values of the created tiles succeeds and creates one
    load per created tile, in the same order, each producing a vector of
    the sgData shape with the element type of the tile. *)
Theorem X10_loads_of_created_tiles (folder : Folder) (sgLayoutMap : LayoutMap)
    (fuel : nat) (op : InitTileOp) (adaptor : OneToNOpAdaptor)
    (wgMap : WorkGroupMapAttr) (ops : list NewInitTileOp)
    (loadOp : WGToSGLoadTileOpPattern.LoadTileOp) (resTy : VectorType)
    (sources : list TypedValue)
    (Hmap : tWgMap (getType op) = Some wgMap)
    (Hinit : matchAndRewrite folder sgLayoutMap fuel op adaptor = Success ops)
    (Hres : WGToSGLoadTileOpPattern.getValueType loadOp = TVector resTy)
    (Hrank : length (vShape resTy) = 2%nat)
    (Hsources : Forall2 resultOf ops sources) :
  WGToSGLoadTileOpPattern.matchAndRewrite loadOp
    (WGToSGLoadTileOpPattern.mkAdaptor sources)
  = Success ((fun s => WGToSGLoadTileOpPattern.mkNewLoadTileOp
                         (mkVectorType [(sgData wgMap).1; (sgData wgMap).2]
                            (tElem (getType op))) s) <$> sources) /\
  length sources = length ops.
Proof.
  split; [|symmetry; exact (Forall2_length _ _ _ Hsources)].
  unfold WGToSGLoadTileOpPattern.matchAndRewrite. rewrite Hres.
  cbn [dyn_cast_VectorType].
  destruct (decide _) as [Hne|_]; [contradiction|].
  cbn [WGToSGLoadTileOpPattern.getSource]. apply forSources_typed.
  pose proof (matchAndRewrite_types folder sgLayoutMap fuel op adaptor wgMap
                ops Hmap Hinit) as Hty.
  clear Hinit. induction Hsources as [|o s ops sources Hos _ IH];
    [constructor|].
  apply Forall_cons in Hty as [[Hshape He] Hty].
  constructor; [|exact (IH Hty)].
  exists (typeOfNew o). split; [exact Hos|]. split; assumption.
Qed.

Lemma X10_loads_of_created_tiles_witness :
  exists ops,
    matchAndRewrite nofold ∅ 4
      (c_edge_op MemRefStatic 64 64 (1, 1) (32, 32)) (mkAdaptor [])
    = Success ops /\
    (WGToSGLoadTileOpPattern.matchAndRewrite
       (WGToSGLoadTileOpPattern.mkLoadTileOp
          (TVector (mkVectorType [64; 64] F32)))
       (WGToSGLoadTileOpPattern.mkAdaptor (pipe_tile <$> [1; 2; 3; 4]%nat))
     = Success ((fun s => WGToSGLoadTileOpPattern.mkNewLoadTileOp
                            (mkVectorType [32; 32] F32) s)
                <$> (pipe_tile <$> [1; 2; 3; 4]%nat)) /\
     length (pipe_tile <$> [1; 2; 3; 4]%nat) = length ops).
Proof.
  eexists. split; [vm_compute; reflexivity|].
  refine (X10_loads_of_created_tiles nofold ∅ 4
            (c_edge_op MemRefStatic 64 64 (1, 1) (32, 32)) (mkAdaptor [])
            (mkWgMap (1, 1) (32, 32)) _
            (WGToSGLoadTileOpPattern.mkLoadTileOp
               (TVector (mkVectorType [64; 64] F32)))
            (mkVectorType [64; 64] F32)
            (pipe_tile <$> [1; 2; 3; 4]%nat) eq_refl _ eq_refl eq_refl _).
  - vm_compute. reflexivity.
  - repeat constructor.
Defined.

End Pipeline.

(** ** Instance counts across rules *)

Section InstanceCounts.
Import WGToSGInitTileOpPattern.
Local Open Scope Z_scope.




End InstanceCounts.

(** ** The store rule *)

Section StoreTile.
Import WGToSGStoreTileOpPattern.

Lemma forValues_spec (newDstTiles : list TypedValue)
    (values : list TypedValue) :
  forall i,
    forValues values newDstTiles i
    = if decide (i + length values <= length newDstTiles
                 \/ values = [])%nat
      then Success (zip_with mkNewStoreTileOp values (drop i newDstTiles))
      else Undefined.
Proof.
  induction values as [|v values IH]; intros i.
  - cbn [forValues]. destruct (decide _) as [_|Hn]; [reflexivity|].
    exfalso. apply Hn. right. reflexivity.
  - cbn [forValues length]. unfold at_index.
    destruct (newDstTiles !! i) as [t|] eqn:Et.
    + cbn [deref mbind Outcome_bind]. rewrite IH.
      pose proof (lookup_lt_Some _ _ _ Et) as Hlt.
      rewrite (drop_S _ _ _ Et). cbn [zip_with].
      destruct (decide (S i + length values <= length newDstTiles
                        \/ values = [])%nat) as [Hok|Hno].
      * cbn [mbind Outcome_bind].
        destruct (decide _) as [_|Hn]; [reflexivity|].
        exfalso. apply Hn. left. destruct Hok as [Hok| ->]; cbn [length]; lia.
      * cbn [mbind Outcome_bind].
        destruct (decide _) as [[Hok|Hok]|_]; [| |reflexivity].
        -- exfalso. apply Hno. left. lia.
        -- discriminate Hok.
    + cbn [deref mbind Outcome_bind].
      apply lookup_ge_None in Et.
      destruct (decide _) as [[Hok|Hok]|_]; [| |reflexivity].
      * lia.
      * discriminate Hok.
Qed.

(** X12: the store rule pairs value i with destination tile i and creates
    one store per value: with at least as many tiles as values the stores
    are the values zipped with the first tiles, and the remaining tiles
    receive no store; with fewer tiles than values the rule reads past the
    end of the tile list. *)
Theorem X12_store_pairs_values_with_tiles (adaptor : OneToNOpAdaptor) :
  matchAndRewrite adaptor
  = if decide (length (getValue adaptor) <= length (getTile adaptor))%nat
    then Success (zip_with mkNewStoreTileOp (getValue adaptor)
                    (getTile adaptor))
    else Undefined.
Proof.
  unfold matchAndRewrite. rewrite forValues_spec, drop_0. cbn [Nat.add].
  destruct (decide (length (getValue adaptor) <= length (getTile adaptor)
                    \/ getValue adaptor = [])%nat) as [Hok|Hno];
    destruct (decide (length (getValue adaptor)
                      <= length (getTile adaptor))%nat) as [Hle|Hgt];
    try reflexivity.
  - destruct Hok as [Hok|Hnil]; [contradiction|].
    rewrite Hnil in Hgt. cbn [length] in Hgt. lia.
  - exfalso. apply Hno. left. exact Hle.
Qed.

End StoreTile.

(** ** The matrix-multiply rule: accumulators *)

Section TileMMAAccumulators.
Import WGToSGTileMMAOpPattern.
Local Open Scope Z_scope.

Lemma forB_short (op : TileMMAOp) (adaptor : OneToNOpAdaptor) (a : TypedValue)
    (bs : list TypedValue) :
  isMatrix a -> Forall isMatrix bs -> hasC op = true ->
  forall i,
    (i <= length (getC adaptor))%nat ->
    (length (getC adaptor) < i + length bs)%nat ->
    forB op adaptor a bs i = Undefined.
Proof.
  intros (ra & ca & ea & Ha) Hbs HC.
  induction Hbs as [|b bs (rb & cb & eb & Hb) _ IH]; intros i Hle Hlt.
  { cbn [length] in Hlt. lia. }
  cbn [forB length] in *. rewrite HC. unfold at_index.
  destruct (getC adaptor !! i) as [c|] eqn:Ec; [|reflexivity].
  cbn [deref mbind Outcome_bind]. rewrite Ha, Hb.
  cbn [dyn_cast_VectorType deref mbind Outcome_bind vShape lookup list_lookup].
  apply lookup_lt_Some in Ec. rewrite (IH (S i)) by lia. reflexivity.
Qed.

(** X13: with an accumulator operand, the matrix-multiply rule takes one
    accumulator per pair of tiles: when the accumulator was decomposed into
    fewer values than there are pairs, the rule reads past the end of the
    accumulator list instead of declining. *)
Theorem X13_mma_too_few_accumulators (op : TileMMAOp)
    (adaptor : OneToNOpAdaptor)
    (Hrank : length (vShape (getResultType op)) = 2%nat)
    (HA : Forall isMatrix (getA adaptor))
    (HB : Forall isMatrix (getB adaptor))
    (HC : hasC op = true)
    (Hfew : (length (getC adaptor)
             < length (getA adaptor) * length (getB adaptor))%nat) :
  matchAndRewrite op adaptor = Undefined.
Proof.
  unfold matchAndRewrite. destruct (decide _) as [Hne|_]; [contradiction|].
  assert (Hgen : forall as_ i,
            Forall isMatrix as_ ->
            (i <= length (getC adaptor))%nat ->
            (length (getC adaptor) < i + length as_ * length (getB adaptor))%nat ->
            forA op adaptor as_ i = Undefined).
  { induction as_ as [|a as_ IH]; intros i Has Hle Hlt.
    { cbn [length] in Hlt. lia. }
    apply Forall_cons in Has as [Ha Has]. cbn [forA length] in *.
    destruct (decide (i + length (getB adaptor)
                      <= length (getC adaptor))%nat) as [Hfit|Hshort].
    - rewrite (forB_spec op adaptor a (getB adaptor) Ha HB i (fun _ => Hfit)).
      rewrite HC. cbn [mbind Outcome_bind].
      rewrite (IH (i + length (getB adaptor))%nat Has Hfit) by lia.
      reflexivity.
    - rewrite (forB_short op adaptor a (getB adaptor) Ha HB HC i Hle) by lia.
      reflexivity. }
  apply Hgen; [exact HA|lia|lia].
Qed.

Lemma X13_mma_too_few_accumulators_witness :
  matchAndRewrite (mkTileMMAOp (mkVectorType [64; 96] F32) true)
    (mkAdaptor [c5_tile 1 32 16; c5_tile 2 32 16]
               [c5_tile 3 16 32; c5_tile 4 16 32; c5_tile 5 16 32]
               [c5_tile 6 32 32; c5_tile 7 32 32; c5_tile 8 32 32;
                c5_tile 9 32 32])
  = Undefined.
Proof.
  apply X13_mma_too_few_accumulators.
  - reflexivity.
  - repeat constructor; eexists _, _, _; reflexivity.
  - repeat constructor; eexists _, _, _; reflexivity.
  - reflexivity.
  - cbn. lia.
Defined.

End TileMMAAccumulators.

(** ** The loop rule and the yield rule together *)

Section ForAndYield.
Import WGToSGSCFForOpPattern.

Lemma foldl_app_concat {A : Type} (groups : list (list A)) :
  forall acc, foldl (fun acc g => acc ++ g) acc groups = acc ++ concat groups.
Proof.
  induction groups as [|g groups IH]; intros acc; cbn [foldl concat].
  - rewrite app_nil_r. reflexivity.
  - rewrite IH, app_assoc. reflexivity.
Qed.

Lemma concat_types (groups : list (list TypedValue)) :
  tvType <$> concat groups = concat (map (map tvType) groups).
Proof.
  induction groups as [|g groups IH]; [reflexivity|].
  cbn [concat map]. rewrite fmap_app, IH. reflexivity.
Qed.

(** X14: the loop rule and the yield rule flatten in the same way: when
    the yielded values were decomposed into groups of the same types as the
    init args, the operands the yield rule gives the terminator have, in
    order, the types of the new loop's init args, and the new body takes
    the induction variable followed by exactly these types. *)
Theorem X14_for_and_yield_agree (freshId : nat) (op : ForOp)
    (adaptor : OneToNOpAdaptor) (yields : list (list TypedValue))
    (Hargs : length (getBodyArgumentTypes op)
             = S (length (getInitArgs adaptor)))
    (Htypes : Forall2 (fun init yield => tvType <$> init = tvType <$> yield)
                (getInitArgs adaptor) yields) :
  exists newForOp groups newYieldedValues t0,
    matchAndRewrite freshId op adaptor = Success (newForOp, groups) /\
    WGToSGSCFYieldOpPattern.matchAndRewrite
      (WGToSGSCFYieldOpPattern.mkAdaptor yields) = Success newYieldedValues /\
    getBodyArgumentTypes op !! 0%nat = Some t0 /\
    tvType <$> newYieldedValues = tvType <$> newInitArgs newForOp /\
    newBodyArgumentTypes newForOp = t0 :: (tvType <$> newYieldedValues) /\
    length newYieldedValues = length (getResults newForOp).
Proof.
  unfold matchAndRewrite, signatureConversion, remappedArgSizes,
    flattenedRemappedInitArgs.
  destruct (getBodyArgumentTypes op) as [|t0 tys] eqn:Etys;
    [cbn in Hargs; lia|].
  cbn [length] in Hargs. injection Hargs as Hargs.
  unfold at_index. cbn [lookup list_lookup deref mbind Outcome_bind].
  rewrite addInputs_from_spec by (cbn; lia).
  cbn [mbind Outcome_bind].
  replace (length (t0 :: tys) - 1)%nat with (length (getInitArgs adaptor))
    by (cbn [length]; lia).
  cbn [Nat.sub]. rewrite drop_0, firstn_all.
  set (flat := concat (getInitArgs adaptor)).
  set (body := concat ([t0] :: map (map tvType) (getInitArgs adaptor))).
  destruct (remapResults_spec (getResults (mkNewForOp freshId flat body))
              (length <$> getInitArgs adaptor) 0) as (groups & Hg & _ & _).
  { unfold getResults. cbn. rewrite length_fmap, length_seq.
    unfold flat. rewrite length_concat. reflexivity. }
  assert (Hsame : tvType <$> concat yields = tvType <$> flat).
  { unfold flat. rewrite !concat_types. f_equal.
    clear -Htypes. induction Htypes as [|i y is_ ys Hiy _ IH]; [reflexivity|].
    cbn [map]. rewrite IH. f_equal. symmetry. exact Hiy. }
  exists (mkNewForOp freshId flat body), groups, (concat yields), t0.
  rewrite Hg. cbn [mbind Outcome_bind newInitArgs newBodyArgumentTypes].
  split; [reflexivity|]. split.
  { unfold WGToSGSCFYieldOpPattern.matchAndRewrite.
    cbn [WGToSGSCFYieldOpPattern.getOperands].
    rewrite foldl_app_concat. reflexivity. }
  split; [reflexivity|]. split; [exact Hsame|]. split.
  - unfold body. cbn [concat app]. rewrite Hsame. unfold flat.
    rewrite concat_types. reflexivity.
  - unfold getResults. cbn [newInitArgs]. rewrite length_fmap, length_seq.
    rewrite <- (length_fmap tvType (concat yields)), Hsame, length_fmap.
    reflexivity.
Qed.

Lemma X14_for_and_yield_agree_witness :
  exists newForOp groups newYieldedValues t0,
    matchAndRewrite 9 c6_op c6_adaptor = Success (newForOp, groups) /\
    WGToSGSCFYieldOpPattern.matchAndRewrite
      (WGToSGSCFYieldOpPattern.mkAdaptor (getInitArgs c6_adaptor))
    = Success newYieldedValues /\
    getBodyArgumentTypes c6_op !! 0%nat = Some t0 /\
    tvType <$> newYieldedValues = tvType <$> newInitArgs newForOp /\
    newBodyArgumentTypes newForOp = t0 :: (tvType <$> newYieldedValues) /\
    length newYieldedValues = length (getResults newForOp).
Proof.
  apply (X14_for_and_yield_agree 9 c6_op c6_adaptor (getInitArgs c6_adaptor)).
  - reflexivity.
  - apply Forall2_same_length_lookup_2; [reflexivity|].
    intros i x y Hx Hy. rewrite Hx in Hy. injection Hy as <-. reflexivity.
Defined.

End ForAndYield.

(** ** The layout-conversion rule: where each subgroup stores and loads *)

Section ConvertLayoutOffsets.
Import WGToSGXeTileConvertLayout.
Local Open Scope Z_scope.

Lemma tileOffsetsOf_app (l1 l2 : list EmittedOp) :
  tileOffsetsOf (l1 ++ l2) = tileOffsetsOf l1 ++ tileOffsetsOf l2.
Proof. unfold tileOffsetsOf. apply bind_app. Qed.

Lemma createOrFoldOp_tiles (folder : Folder) (o : EmittedOp) (e : IndexValue)
    (log : list EmittedOp) :
  tileOffsetsOf [o] = [] ->
  exists l, createOrFoldOp folder o e log = (createOrFold folder e, log ++ l) /\
            tileOffsetsOf l = [].
Proof.
  intros Ho. unfold createOrFoldOp, createOrFold.
  destruct (folder e) as [[v|z]|].
  - exists []. rewrite app_nil_r. split; reflexivity.
  - exists [arith_ConstantIndexOp z]. split; reflexivity.
  - exists [o]. split; [reflexivity|exact Ho].
Qed.

Lemma getOffsets_tiles (folder : Folder) (L D : Z * Z) (log : list EmittedOp) :
  exists l,
    getOffsets folder L D log
    = ((createOrFold folder
          (IVMul (IVDivU IVSubgroupId (IVConst L.2)) (IVConst D.1)),
        createOrFold folder
          (IVMul (IVRemU IVSubgroupId (IVConst L.2)) (IVConst D.2))),
       log ++ l) /\
    tileOffsetsOf l = [].
Proof.
  cbv beta iota zeta delta [getOffsets mbind Rewriter_bind ret mret
                             Rewriter_ret createIndexConstant create].
  match goal with
  | |- context [createOrFoldOp folder ?o ?e ?lg] =>
      destruct (createOrFoldOp_tiles folder o e lg eq_refl) as (lx & Ex & Hx);
        rewrite Ex
  end.
  cbv beta iota zeta.
  match goal with
  | |- context [createOrFoldOp folder ?o ?e ?lg] =>
      destruct (createOrFoldOp_tiles folder o e lg eq_refl) as (ly & Ey & Hy);
        rewrite Ey
  end.
  exists ([arith_ConstantIndexOp L.2;
           index_DivUOp IVSubgroupId (IVConst L.2);
           index_RemUOp IVSubgroupId (IVConst L.2);
           arith_ConstantIndexOp D.1] ++ lx ++ [arith_ConstantIndexOp D.2]
          ++ ly).
  split.
  - rewrite <- !app_assoc. reflexivity.
  - rewrite !tileOffsetsOf_app, Hx, Hy. reflexivity.
Qed.

Lemma emit_tiles (folder : Folder) (op : ConvertLayoutOp) (adaptor : OpAdaptor)
    (oneUse : bool) (d : DefOp) (src dst : WorkGroupMapAttr) (ff r0 r1 : Z) :
  tileOffsetsOf (emit folder op adaptor oneUse d src dst ff r0 r1 []).2
  = [ (createOrFold folder
         (IVMul (IVDivU IVSubgroupId (IVConst (sgLayout src).2))
                (IVConst (sgData src).1)),
       createOrFold folder
         (IVMul (IVRemU IVSubgroupId (IVConst (sgLayout src).2))
                (IVConst (sgData src).2)));
      (createOrFold folder
         (IVRemU (createOrFold folder
                    (IVMul (IVDivU IVSubgroupId (IVConst (sgLayout dst).2))
                           (IVConst (sgData dst).1)))
                 (IVConst r0)),
       createOrFold folder
         (IVRemU (createOrFold folder
                    (IVMul (IVRemU IVSubgroupId (IVConst (sgLayout dst).2))
                           (IVConst (sgData dst).2)))
                 (IVConst r1))) ].
Proof.
  cbv beta iota zeta delta [emit mbind Rewriter_bind ret mret Rewriter_ret
                             createIndexConstant create].
  match goal with
  | |- context [getOffsets folder ?L ?D ?lg] =>
      destruct (getOffsets_tiles folder L D lg) as (la & Ea & Ha);
        rewrite Ea; clear Ea; cbv beta iota zeta
  end.
  destruct oneUse; cbv beta iota zeta;
    (match goal with
     | |- context [getOffsets folder ?L ?D ?lg] =>
         destruct (getOffsets_tiles folder L D lg) as (lb & Eb & Hb);
           rewrite Eb; clear Eb; cbv beta iota zeta
     end);
    (match goal with
     | |- context [createOrFoldOp folder ?o ?e ?lg] =>
         destruct (createOrFoldOp_tiles folder o e lg eq_refl)
           as (lc & Ec & Hc); rewrite Ec; clear Ec; cbv beta iota zeta
     end);
    (match goal with
     | |- context [createOrFoldOp folder ?o ?e ?lg] =>
         destruct (createOrFoldOp_tiles folder o e lg eq_refl)
           as (ld & Ed & Hd); rewrite Ed; clear Ed; cbv beta iota zeta
     end);
    cbn [snd]; rewrite !tileOffsetsOf_app, Ha, Hb, Hc, Hd; reflexivity.
Qed.

Lemma eval_slm_offsets (env : Env) (m : WorkGroupMapAttr) :
  0 <= envSubgroupId env < 2 ^ 32 -> MapInRange m ->
  eval env (IVMul (IVDivU IVSubgroupId (IVConst (sgLayout m).2))
                  (IVConst (sgData m).1))
  = envSubgroupId env / (sgLayout m).2 * (sgData m).1 /\
  eval env (IVMul (IVRemU IVSubgroupId (IVConst (sgLayout m).2))
                  (IVConst (sgData m).2))
  = envSubgroupId env mod (sgLayout m).2 * (sgData m).2.
Proof.
  intros Hs (HL & HD0 & HD1). cbn [eval].
  destruct (coord_range (envSubgroupId env) (sgLayout m).2) as [Hq Hr];
    [lia|lia|].
  rewrite (wrap_small (envSubgroupId env)) by lia.
  rewrite (wrap_small (sgLayout m).2) by lia.
  rewrite (wrap_small (sgData m).1) by lia.
  rewrite (wrap_small (sgData m).2) by lia.
  split; apply wrap_small; nia.
Qed.

(** X15: where the layout conversion stores and loads.  For a rank-2
    source with a defining op, resolved source and result maps and a
    rank-2 result, the rule succeeds and creates exactly two tile handles
    on the scratch buffer: subgroup s stores its data at
    (s / srcLayout[1] * srcData[0], s mod srcLayout[1] * srcData[1]) and
    loads from ((s / dstLayout[1] * dstData[0]) mod resShape[0],
    (s mod dstLayout[1] * dstData[1]) mod resShape[1]); only the load
    offsets are reduced modulo the shape. *)
Theorem X15_convert_layout_offsets (folder : Folder) (op : ConvertLayoutOp)
    (adaptor : OpAdaptor) (d : DefOp) (src dst : WorkGroupMapAttr)
    (r0 r1 bitWidth : Z) (env : Env)
    (Hfold : FolderSound folder)
    (Hrank : getSourceRank op = 2%nat)
    (Hdef : getDefiningOp op = Some d)
    (Hsrc : srcMapAttrOf op d = Success (Some src))
    (Hdst : wg_map_result op = Some dst)
    (Hshape : vShape (getResultType op) = [r0; r1])
    (Hbw : getIntOrFloatBitWidth (vElem (getResultType op)) = Some bitWidth)
    (Hs : 0 <= envSubgroupId env < 2 ^ 32)
    (Hsrc_range : MapInRange src) (Hdst_range : MapInRange dst)
    (Hr0 : 0 < r0 < 2 ^ 63) (Hr1 : 0 < r1 < 2 ^ 63) :
  exists r st ld,
    matchAndRewrite folder op adaptor = Success r /\
    tileOffsetsOf (emitted r) = [st; ld] /\
    eval env st.1 = envSubgroupId env / (sgLayout src).2 * (sgData src).1 /\
    eval env st.2 = envSubgroupId env mod (sgLayout src).2 * (sgData src).2 /\
    eval env ld.1
    = (envSubgroupId env / (sgLayout dst).2 * (sgData dst).1) mod r0 /\
    eval env ld.2
    = (envSubgroupId env mod (sgLayout dst).2 * (sgData dst).2) mod r1.
Proof.
  unfold srcMapAttrOf in Hsrc.
  unfold matchAndRewrite, isOneUseTranspose.
  destruct (decide _) as [Hne|_]; [contradiction|].
  rewrite Hdef. cbn [deref mbind Outcome_bind]. rewrite Hsrc.
  cbn [mbind Outcome_bind]. rewrite Hdst, Hbw, Hshape. unfold at_index.
  cbn [lookup list_lookup deref mbind Outcome_bind].
  eexists _, _, _. split; [reflexivity|]. cbn [emitted].
  split; [apply emit_tiles|]. cbn [fst snd].
  destruct (eval_slm_offsets env src Hs Hsrc_range) as [Esx Esy].
  destruct (eval_slm_offsets env dst Hs Hdst_range) as [Edx Edy].
  rewrite !eval_createOrFold by exact Hfold.
  split; [exact Esx|]. split; [exact Esy|].
  cbn [eval]. rewrite !eval_createOrFold by exact Hfold.
  rewrite Edx, Edy.
  rewrite (wrap_small r0), (wrap_small r1) by lia. split; reflexivity.
Qed.

Lemma X15_convert_layout_offsets_witness :
  exists r st ld,
    matchAndRewrite nofold c7_op c7_adaptor = Success r /\
    tileOffsetsOf (emitted r) = [st; ld] /\
    eval (env_of_id 9) st.1 = 9 / 4 * 32 /\
    eval (env_of_id 9) st.2 = 9 mod 4 * 64 /\
    eval (env_of_id 9) ld.1 = (9 / 1 * 8) mod 256 /\
    eval (env_of_id 9) ld.2 = (9 mod 1 * 256) mod 256.
Proof.
  refine (X15_convert_layout_offsets nofold c7_op c7_adaptor _
            (mkWgMap (8, 4) (32, 64)) (mkWgMap (32, 1) (8, 256))
            256 256 32 (env_of_id 9) nofold_sound eq_refl eq_refl eq_refl
            eq_refl eq_refl eq_refl _ _ _ _ _).
  - cbn; lia.
  - repeat split; cbn; lia.
  - repeat split; cbn; lia.
  - lia.
  - lia.
Defined.

End ConvertLayoutOffsets.

(** ** The conversion target and the registered rules *)

Section TargetAndRules.
Import XeTileWgToSgPass.

(** X16: the conversion target and the rule set agree: every op the
    target can mark illegal has a registered rule for its kind, and every
    registered rule is for a kind of op the target can mark illegal (none
    is registered for scf.if or for an op the target leaves legal). *)
Theorem X16_target_and_rules_agree :
  (forall o, isLegal o = false ->
     exists p, p ∈ populateXeTileWgToSgPatterns /\ rootKind p = kindOf o) /\
  (forall p, p ∈ populateXeTileWgToSgPatterns ->
     exists o, kindOf o = rootKind p /\ isLegal o = false).
Proof.
  split.
  - intros o Hill.
    assert (H : existsb (fun p => bool_decide (rootKind p = kindOf o))
                  populateXeTileWgToSgPatterns = true).
    { destruct o as [op adaptor|k s]; [reflexivity|].
      destruct k; try reflexivity; cbn in Hill; discriminate Hill. }
    apply existsb_exists in H as (p & Hin & Hp).
    exists p. split; [apply list_elem_of_In; exact Hin|].
    exact (bool_decide_eq_true_1 _ Hp).
  - apply Forall_forall. unfold populateXeTileWgToSgPatterns. cbn [app].
    repeat (constructor;
            [eexists (OtherOp _ (mkOpSummary true true true
                                   [CarriedTile true]));
             split; reflexivity|]).
    constructor.
Qed.

End TargetAndRules.

(** ** The legality callback of loops *)

Section LoopLegality.
Import Legality.

Lemma isLegalLoop_app (pre rest : list CarriedArg) :
  isLegalLoop pre = Success true ->
  isLegalLoop (pre ++ rest) = isLegalLoop rest.
Proof.
  induction pre as [|arg pre IH]; intros H; [reflexivity|].
  cbn [isLegalLoop app] in *.
  destruct (argType arg) as [vt|tileTy|].
  - destruct (hasMap (getDefiningOp arg)) as [h| | |]; try discriminate H.
    cbn [mbind Outcome_bind] in *. destruct h; [discriminate H|exact (IH H)].
  - destruct (tWgMap tileTy); [discriminate H|exact (IH H)].
  - exact (IH H).
Qed.

(** X17: the legality callback of scf.for and scf.yield asks [hasMap] for
    the defining op of every vector-typed carried value without testing
    that there is one: when the values before it are all legal and a
    vector-typed value is a block argument (an argument of the function or
    of an enclosing loop), the callback dereferences a null op. *)
Theorem X17_loop_legality_on_block_argument (pre post : list CarriedArg)
    (arg : CarriedArg) (vt : VectorType)
    (Hpre : isLegalLoop pre = Success true)
    (Hty : argType arg = TVector vt)
    (Hdef : getDefiningOp arg = None) :
  isLegalLoop (pre ++ arg :: post) = Undefined.
Proof.
  rewrite (isLegalLoop_app pre (arg :: post) Hpre).
  cbn [isLegalLoop]. rewrite Hty, Hdef. reflexivity.
Qed.

Lemma X17_loop_legality_on_block_argument_witness :
  isLegalLoop
    ([mkCarriedArg (TTile (TileType_get [32; 32]%Z F16)) None]
     ++ mkCarriedArg (TVector (mkVectorType [32; 32]%Z F32)) None :: [])
  = Undefined.
Proof.
  apply (X17_loop_legality_on_block_argument _ _ _
           (mkVectorType [32; 32]%Z F32)); reflexivity.
Defined.

End LoopLegality.

(** ** The broadcast rule *)

Section VectorBroadcast.
Import WGToSGVectorBroadcast.
Local Open Scope Z_scope.

(** X18: the broadcast rule reads the shape of its source as that of a
    rank-2 vector before any test: for a rank-2 result, a source that is
    not a vector (a scalar) makes it dereference a null type, with or
    without a map attribute, and a vector source of rank below two on an
    op with a map attribute makes it read past the end of the shape;
    the rule does not decline in either case. *)
Theorem X18_broadcast_low_rank_source (op : BroadcastOp) (adaptor : OpAdaptor)
    (Hrank : length (vShape (getResultType op)) = 2%nat)
    (Hsrc : match tvType (getSource adaptor) with
            | TVector vt =>
                (length (vShape vt) < 2)%nat /\ is_Some (getMapAttr op)
            | _ => True
            end) :
  matchAndRewrite op adaptor = Undefined.
Proof.
  unfold matchAndRewrite. destruct (decide _) as [Hne|_]; [contradiction|].
  destruct (tvType (getSource adaptor)) as [vt|ty|]; try reflexivity.
  destruct Hsrc as [Hlen [m Hm]].
  cbn [dyn_cast_VectorType deref mbind Outcome_bind]. rewrite Hm.
  unfold at_index.
  destruct (vShape vt) as [|s0 [|s1 l]]; cbn [length] in Hlen; try lia;
    cbn [lookup list_lookup deref mbind Outcome_bind]; [reflexivity|].
  destruct (decide (s0 = 1)); reflexivity.
Qed.

Lemma X18_broadcast_low_rank_source_witness :
  matchAndRewrite
    (mkBroadcastOp (mkVectorType [32; 64] F32)
       (Some (mkWgMap (4, 1) (8, 64))))
    (mkAdaptor (mkTyped (OpResult 1 0) (TVector (mkVectorType [64] F32))))
  = Undefined.
Proof.
  apply X18_broadcast_low_rank_source; [reflexivity|].
  cbn. split; [lia|eauto].
Defined.

End VectorBroadcast.

(** ** The constant rule: replicas *)

Section ConstantReplicas.
Import WGToSGArithConstantOpPattern.
Local Open Scope Z_scope.

Lemma firstValues_spec (elems : list Z) (count : nat) :
  forall i l,
    firstValues elems i count = Success l ->
    l = take count (drop i elems) /\ length l = count.
Proof.
  induction count as [|count IH]; intros i l H.
  - injection H as <-. split; reflexivity.
  - cbn [firstValues] in H. unfold at_index in H.
    destruct (elems !! i) as [e|] eqn:Ee; [|discriminate H].
    cbn [deref mbind Outcome_bind] in H.
    destruct (firstValues elems (S i) count) as [rest| | |] eqn:Er;
      try discriminate H.
    injection H as <-. destruct (IH _ _ Er) as [-> Hlen].
    rewrite (drop_S _ _ _ Ee). cbn [take length]. rewrite Hlen.
    split; reflexivity.
Qed.

(** X19: every constant the constant rule creates is the same: it holds
    the first sgData[0] * sgData[1] elements of the original dense value
    (which therefore has at least that many), whatever subgroup tile it
    stands for; the replicas are not slices of the original. *)
Theorem X19_constant_replicas_hold_leading_elements (op : ConstantOp)
    (v : DenseElementsAttr) (mapAttr : WorkGroupMapAttr)
    (newOps : list NewConstantOp)
    (Hvalue : getValue op = ADense v)
    (Hmap : getMapAttr op = Some mapAttr)
    (Hrun : matchAndRewrite op = Success newOps) :
  forall c, c ∈ newOps ->
    newValues c
    = take (Z.to_nat ((sgData mapAttr).1 * (sgData mapAttr).2)) (getValues v) /\
    (Z.to_nat ((sgData mapAttr).1 * (sgData mapAttr).2)
     <= length (getValues v))%nat.
Proof.
  unfold matchAndRewrite in Hrun. rewrite Hvalue, Hmap in Hrun.
  cbn [dyn_cast_DenseElementsAttr deref mbind Outcome_bind] in Hrun.
  destruct (dyn_cast_VectorType (getType v)) as [vt|]; [|discriminate Hrun].
  cbn [deref mbind Outcome_bind] in Hrun.
  destruct (decide _) as [E|_]; [discriminate E|].
  destruct (firstValues _ _ _) as [vals| | |] eqn:Evals; try discriminate Hrun.
  cbn [mbind Outcome_bind] in Hrun.
  destruct (computeNumOps _ _ _) as [n| | |]; try discriminate Hrun.
  cbn [mbind Outcome_bind] in Hrun. injection Hrun as <-.
  destruct (firstValues_spec _ _ _ _ Evals) as [Hvals Hlen].
  rewrite drop_0 in Hvals.
  intros c Hc. apply elem_of_replicate in Hc as [-> _].
  cbn [newValues]. split; [exact Hvals|].
  rewrite <- Hlen at 1. rewrite Hvals. rewrite length_take. lia.
Qed.

Lemma X19_constant_replicas_hold_leading_elements_witness :
  newValues (mkNewConstantOp (mkVectorType [1; 2] F32) [10; 11])
  = take (Z.to_nat (1 * 2)) [10; 11; 12; 13; 14; 15; 16; 17] /\
  (Z.to_nat (1 * 2) <= length [10; 11; 12; 13; 14; 15; 16; 17]%Z)%nat.
Proof.
  apply (X19_constant_replicas_hold_leading_elements
           (mkConstantOp
              (ADense (mkDense (TVector (mkVectorType [2; 4] F32)) F32
                         [10; 11; 12; 13; 14; 15; 16; 17]))
              (Some (mkWgMap (2, 1) (1, 2))))
           (mkDense (TVector (mkVectorType [2; 4] F32)) F32
              [10; 11; 12; 13; 14; 15; 16; 17])
           (mkWgMap (2, 1) (1, 2))
           (replicate 3 (mkNewConstantOp (mkVectorType [1; 2] F32) [10; 11]))
           eq_refl eq_refl eq_refl).
  apply elem_of_replicate. split; [reflexivity|lia].
Defined.

End ConstantReplicas.

(** ** Constants feeding elementwise ops *)

Section ConstantAndElementWise.
Local Open Scope Z_scope.

(** X20: the constant rule against the elementwise rule on the same
    rank-2 shape and map, with sgLayout_i * sgData_i positive, within the
    range of [int] (both rules take the products in [int]) and at most the
    workgroup extent: both compute an instance count, and the elementwise
    rule never needs more values than the constant rule creates; but the
    two disagree when exactly the row axis matches: the constant rule
    (which tests both axes) creates 1 + wg1 / (sgLayout[1] * sgData[1])
    constants where the elementwise rule (which tests either axis) creates
    one instance. *)
Theorem X20_constant_and_elementwise_counts (wg0 wg1 : Z) (L D : Z * Z)
    (HL0 : 0 < L.1) (HL1 : 0 < L.2) (HD0 : 0 < D.1) (HD1 : 0 < D.2)
    (Hint0 : L.1 * D.1 < 2 ^ 31) (Hint1 : L.2 * D.2 < 2 ^ 31)
    (Hfit0 : L.1 * D.1 <= wg0) (Hfit1 : L.2 * D.2 <= wg1) :
  exists nc ne,
    WGToSGArithConstantOpPattern.computeNumOps [wg0; wg1] L D = Success nc /\
    WGToSGElementWiseOpSameArgAndResultTypePattern.computeNumOps
      [wg0; wg1] L D = Success ne /\
    1 <= ne <= nc /\
    (L.1 * D.1 = wg0 -> L.2 * D.2 <> wg1 ->
     ne = 1 /\ nc = 1 + wg1 / (L.2 * D.2) /\ ne < nc).
Proof.
  assert (Ha0 : 0 < L.1 * D.1) by nia.
  assert (Ha1 : 0 < L.2 * D.2) by nia.
  assert (Hq0 : wg0 ÷ (L.1 * D.1) = wg0 / (L.1 * D.1))
    by (apply Z.quot_div_nonneg; lia).
  assert (Hq1 : wg1 ÷ (L.2 * D.2) = wg1 / (L.2 * D.2))
    by (apply Z.quot_div_nonneg; lia).
  assert (Hk0 : 1 <= wg0 / (L.1 * D.1))
    by (apply Z.div_le_lower_bound; lia).
  assert (Hk1 : 1 <= wg1 / (L.2 * D.2))
    by (apply Z.div_le_lower_bound; lia).
  assert (Hsame0 : L.1 * D.1 = wg0 -> wg0 / (L.1 * D.1) = 1)
    by (intros <-; apply Z.div_same; lia).
  unfold WGToSGArithConstantOpPattern.computeNumOps,
    WGToSGElementWiseOpSameArgAndResultTypePattern.computeNumOps, at_index.
  cbn [length lookup list_lookup deref mbind Outcome_bind].
  rewrite (mul_int_small L.1 D.1), (mul_int_small L.2 D.2) by lia.
  destruct (decide (2 = 1)%nat) as [E|_]; [discriminate E|].
  destruct (decide (L.1 * D.1 = wg0)) as [E0|N0];
    cbn [mbind Outcome_bind].
  - destruct (decide (L.2 * D.2 = wg1)) as [E1|N1].
    + exists 1, 1.
      split; [reflexivity|]. split; [reflexivity|]. split; [lia|].
      intros _ Hne. contradiction.
    + destruct (decide (L.1 * D.1 = 0)); [lia|].
      destruct (decide (L.2 * D.2 = 0)); [lia|].
      eexists _, 1. split; [reflexivity|]. split; [reflexivity|].
      rewrite Hq0, Hq1, (Hsame0 E0). split; [lia|]. intros _ _. lia.
  - destruct (decide (L.1 * D.1 = 0)); [lia|].
    destruct (decide (L.2 * D.2 = 0)); [lia|].
    rewrite Hq0, Hq1.
    destruct (decide (L.2 * D.2 = wg1));
      [|destruct (decide (mul_int L.2 D.1 = wg0));
        [|destruct (decide (mul_int L.1 D.2 = wg1))]];
      eexists _, _; (split; [reflexivity|]); (split; [reflexivity|]);
      (split; [lia|intros E0; contradiction]).
Qed.

Lemma X20_constant_and_elementwise_counts_witness :
  exists nc ne,
    WGToSGArithConstantOpPattern.computeNumOps [64; 256] (2, 2) (32, 32)
    = Success nc /\
    WGToSGElementWiseOpSameArgAndResultTypePattern.computeNumOps
      [64; 256] (2, 2) (32, 32) = Success ne /\
    1 <= ne <= nc /\
    (2 * 32 = 64 -> 2 * 32 <> 256 ->
     ne = 1 /\ nc = 1 + 256 / (2 * 32) /\ ne < nc).
Proof.
  apply (X20_constant_and_elementwise_counts 64 256 (2, 2) (32, 32));
    cbn; lia.
Defined.

End ConstantAndElementWise.

(** ** The gather-load rule *)

Section LoadGather.
Import WGToSGLoadGatherOpPattern.

Lemma forZip_spec (sources : list TypedValue) :
  Forall isTile sources ->
  forall mask,
  exists loads,
    forZip sources mask = Success loads /\
    length loads = (length sources `min` length mask)%nat /\
    forall i ld, loads !! i = Some ld ->
      sources !! i = Some (newTile ld) /\ mask !! i = Some (newMask ld).
Proof.
  induction 1 as [|src sources (ty & s0 & s1 & rest & Hty & Hshape) _ IH];
    intros mask.
  { exists []. split; [destruct mask; reflexivity|]. split; [reflexivity|].
    intros i ld Hi. rewrite lookup_nil in Hi. discriminate Hi. }
  destruct mask as [|m mask].
  { exists []. split; [reflexivity|]. split; [reflexivity|].
    intros i ld Hi. rewrite lookup_nil in Hi. discriminate Hi. }
  destruct (IH mask) as (loads & Hloads & Hlen & Hi).
  cbn [forZip]. rewrite Hty.
  cbn [WGToSGLoadTileOpPattern.dyn_cast_TileType deref mbind Outcome_bind].
  rewrite Hshape. unfold at_index.
  cbn [lookup list_lookup deref mbind Outcome_bind]. rewrite Hloads.
  cbn [mbind Outcome_bind]. eexists. split; [reflexivity|].
  split; [cbn [length]; rewrite Hlen; reflexivity|].
  intros [|i] ld Hld.
  - injection Hld as <-. split; reflexivity.
  - exact (Hi i ld Hld).
Qed.

(** X21: the gather-load rule walks the decomposed tiles and the
    decomposed masks in lockstep and stops at the end of the shorter: on a
    rank-2 result it creates min(#tiles, #masks) loads, load i of tile i
    with mask i, and succeeds; tiles without a mask, or masks without a
    tile, are dropped without an error. *)
Theorem X21_gather_load_stops_at_shorter (op : LoadGatherOp)
    (adaptor : OneToNOpAdaptor)
    (Hrank : length (vShape (getValueType op)) = 2%nat)
    (Htiles : Forall isTile (getTile adaptor)) :
  exists loads,
    matchAndRewrite op adaptor = Success loads /\
    length loads
    = (length (getTile adaptor) `min` length (getMask adaptor))%nat /\
    forall i ld, loads !! i = Some ld ->
      getTile adaptor !! i = Some (newTile ld) /\
      getMask adaptor !! i = Some (newMask ld).
Proof.
  unfold matchAndRewrite. destruct (decide _) as [Hne|_]; [contradiction|].
  exact (forZip_spec (getTile adaptor) Htiles (getMask adaptor)).
Qed.

Lemma X21_gather_load_stops_at_shorter_witness :
  exists loads,
    matchAndRewrite (mkLoadGatherOp (mkVectorType [64; 64]%Z F32))
      (mkAdaptor (pipe_tile <$> [1; 2; 3; 4]%nat) (pipe_tile <$> [5; 6]%nat))
    = Success loads /\
    length loads = 2%nat.
Proof.
  destruct (X21_gather_load_stops_at_shorter
              (mkLoadGatherOp (mkVectorType [64; 64]%Z F32))
              (mkAdaptor (pipe_tile <$> [1; 2; 3; 4]%nat)
                 (pipe_tile <$> [5; 6]%nat)))
    as (loads & Hloads & Hlen & _).
  - reflexivity.
  - repeat constructor; eexists _, _, _, _; split; reflexivity.
  - exists loads. split; [exact Hloads|exact Hlen].
Defined.

End LoadGather.

(** ** The backward search *)

Section BackwardSearch.
Import Analysis.

Lemma findOps_loop_prefix (ir : IR) (OpType : OpName) (fuel : nat) :
  forall worklist visited matchedOps res,
    findOps_loop fuel ir OpType worklist visited matchedOps = Success res ->
    exists more, res = matchedOps ++ more.
Proof.
  induction fuel as [|fuel IH]; intros worklist visited matchedOps res Hrun.
  - destruct worklist; cbn in Hrun; [|discriminate Hrun].
    injection Hrun as <-. exists []. rewrite app_nil_r. reflexivity.
  - destruct worklist as [|current worklist].
    { cbn in Hrun. injection Hrun as <-. exists [].
      rewrite app_nil_r. reflexivity. }
    cbn [findOps_loop] in Hrun.
    destruct (decide (current ∈ visited)); [exact (IH _ _ _ _ Hrun)|].
    match type of Hrun with
    | mbind _ ?c = _ => destruct c as [current'| | |]; try discriminate Hrun
    end.
    cbn [mbind Outcome_bind] in Hrun.
    destruct (getDefiningOp ir current') as [[id defOp]|];
      [|exact (IH _ _ _ _ Hrun)].
    destruct (IH _ _ _ _ Hrun) as [more Hmore].
    destruct (decide (opName defOp = OpType)); [|exists more; exact Hmore].
    exists (id :: more). rewrite Hmore, <- app_assoc. reflexivity.
Qed.

(** X22: what [findOps] returns: only ops of the program that have the
    requested kind, and, when the start value is a result of such an op,
    that op first. *)
Theorem X22_find_ops_sound_and_producer_first (fuel : nat) (ir : IR)
    (OpType : OpName) (val : Value) (res : list nat)
    (Hrun : findOps fuel ir OpType val = Success res) :
  Forall (hasName ir OpType) res /\
  (forall owner idx op,
     val = OpResult owner idx -> ir !! owner = Some op ->
     opName op = OpType -> exists more, res = owner :: more).
Proof.
  unfold findOps in Hrun. split.
  - refine (findOps_loop_names _ _ _ _ _ _ _ Hrun _). constructor.
  - intros owner idx op -> Hop Hname.
    destruct fuel as [|fuel]; [discriminate Hrun|].
    cbn [findOps_loop] in Hrun.
    destruct (decide (OpResult owner idx ∈ (∅ : gset Value))) as [Hin|_].
    { exfalso. exact (not_elem_of_empty _ Hin). }
    cbn [mbind Outcome_bind getDefiningOp] in Hrun. rewrite Hop in Hrun.
    cbn [mbind option_bind] in Hrun.
    destruct (decide (opName op = OpType)) as [_|Hne]; [|contradiction].
    exact (findOps_loop_prefix _ _ _ _ _ _ _ Hrun).
Qed.

Lemma X22_find_ops_sound_and_producer_first_witness :
  Forall (hasName loop_ir xetile_init_tile) [3%nat] /\
  (forall owner idx op,
     OpResult 3 0 = OpResult owner idx -> loop_ir !! owner = Some op ->
     opName op = xetile_init_tile -> exists more, [3%nat] = owner :: more).
Proof.
  apply (X22_find_ops_sound_and_producer_first 10 loop_ir xetile_init_tile
           (OpResult 3 0) [3%nat]).
  vm_compute. reflexivity.
Defined.

End BackwardSearch.
